(** * Bereza messenger server: a shallow embedding of [src/server.js]

    The source file holds two versions of the class [BerezaServer].
    - [V1] (lines 1-1081) is the full server: accounts, friend graph, chats
      with unread counters, socket sessions and call signalling.
    - [V2] (lines 1082-1454) is the small server: users are registered by the
      socket event [user_connected], calls are keyed by chat id.

    Conventions of the embedding.
    - A JS string is a [string]; [===] on strings is [bool_decide (_ = _)].
    - A [Map] whose iteration order is never observed is a [gmap string _];
      [socketUsers] is scanned in insertion order by [getSocketByUserId], so it
      is an association list with the [Map] operations written out.
    - A [Set] of user ids and a JS array are lists; [Set.add] keeps the first
      occurrence.
    - [Date.now()] and [new Date()] are one clock reading [now] (milliseconds,
      a [Z]) per handler run; [toISOString] followed by [new Date(_)] is the
      identity on it.
    - [Math.random().toString(36).substr(2, 9)] is an input [rnd] of the
      handler that uses it.
    - A handler returns the new state together with the socket events it
      emitted, in order, each paired with the id of the receiving socket. *)

From stdpp Require Import gmap strings list fin_maps pretty.
From Stdlib Require Import ZArith Lia.

Open Scope Z_scope.

(** ** JavaScript helpers *)

(** Truthiness of a value that is a string or [undefined]. *)
Definition truthy (v : option string) : bool :=
  match v with
  | Some s => bool_decide (s ≠ "")
  | None => false
  end.

(** [a.slice(-n)] for [n > 0]: the last [n] elements (all of them when the
    array is shorter). *)
Definition slice_last {A} (n : nat) (a : list A) : list A :=
  drop (length a - n)%nat a.

(** [a.includes(x)] on an array of strings. *)
Definition includes (a : list string) (x : string) : bool :=
  bool_decide (x ∈ a).

(** [s.add(x)] on a [Set] kept in insertion order. *)
Definition set_add (s : list string) (x : string) : list string :=
  if includes s x then s else s ++ [x].

(** [s.delete(x)]. *)
Definition set_delete (s : list string) (x : string) : list string :=
  filter (λ y, y ≠ x) s.

(** [[...new Set(a)]] and [a.filter((v, i, a) => a.indexOf(v) === i)]: the
    elements of [a] without repetition, first occurrences kept. *)
Definition uniq (a : list string) : list string :=
  foldl set_add [] a.

(** [a.join(sep)]. *)
Fixpoint join (sep : string) (a : list string) : string :=
  match a with
  | [] => ""
  | [x] => x
  | x :: rest => x +:+ sep +:+ join sep rest
  end.

(** An insertion-ordered [Map] with string keys. *)
Module OMap.

Definition t (V : Type) := list (string * V).

Definition get {V} (m : t V) (k : string) : option V :=
  snd <$> find (λ kv, bool_decide (kv.1 = k)) m.

Definition has {V} (m : t V) (k : string) : bool :=
  bool_decide (is_Some (get m k)).

(** [m.set(k, v)]: an existing key keeps its position. *)
Fixpoint set {V} (m : t V) (k : string) (v : V) : t V :=
  match m with
  | [] => [(k, v)]
  | (k', v') :: m' =>
      if bool_decide (k' = k) then (k, v) :: m' else (k', v') :: set m' k v
  end.

Definition delete {V} (m : t V) (k : string) : t V :=
  filter (λ kv, kv.1 ≠ k) m.

Definition values {V} (m : t V) : list V := snd <$> m.

End OMap.

(** * Version 1 *)

Module V1.

Inductive Status := online | offline.
Inductive ReqStatus := pending | accepted | rejected.
Inductive ChatType := private | group.
(** The two values the source ever writes into [callData.status]. *)
Inductive CallStatus := calling | active.

#[export] Instance Status_eq_dec : EqDecision Status.
Proof. solve_decision. Defined.
#[export] Instance ReqStatus_eq_dec : EqDecision ReqStatus.
Proof. solve_decision. Defined.

Record User := mkUser {
  user_id : string;
  user_name : string;
  user_email : string;
  user_password : string;
  user_avatar : string;
  user_createdAt : Z;
  user_status : Status;
  user_lastSeen : Z
}.

Record Message := mkMessage {
  msg_id : string;
  msg_text : string;
  msg_senderId : string;
  msg_senderName : string;
  msg_senderAvatar : string;
  msg_timestamp : Z;
  msg_chatId : string
}.

(** [chat_lastMessage] and [chat_unreadCount] are [None] while the field is
    [null] or was never written. *)
Record Chat := mkChat {
  chat_id : string;
  chat_name : string;
  chat_type : ChatType;
  chat_participants : list string;
  chat_messages : list Message;
  chat_createdAt : Z;
  chat_updatedAt : Z;
  chat_lastMessage : option Message;
  chat_unreadCount : option nat
}.

Record Call := mkCall {
  call_id : string;
  call_chatId : string;
  call_callerId : string;
  call_callerName : string;
  call_type : string;
  call_participants : list string;
  call_status : CallStatus;
  call_startTime : Z
}.

Record FriendRequest := mkFriendRequest {
  req_id : string;
  req_fromUserId : string;
  req_toUserId : string;
  req_status : ReqStatus;
  req_createdAt : Z;
  req_respondedAt : option Z
}.

(** The stores of the constructor (lines 20-25), and [io.sockets.sockets]:
    the connected sockets, each with its [userId] attribute ([None] until
    [authenticate] sets it). *)
Record State := mkState {
  users : gmap string User;
  chats : gmap string Chat;
  activeCalls : gmap string Call;
  friendships : gmap string (list string);
  friendRequests : gmap string (list FriendRequest);
  socketUsers : OMap.t string;
  sockets : gmap string (option string)
}.

Definition with_users (st : State) (v : gmap string User) : State :=
  mkState v (chats st) (activeCalls st) (friendships st) (friendRequests st)
    (socketUsers st) (sockets st).
Definition with_chats (st : State) (v : gmap string Chat) : State :=
  mkState (users st) v (activeCalls st) (friendships st) (friendRequests st)
    (socketUsers st) (sockets st).
Definition with_activeCalls (st : State) (v : gmap string Call) : State :=
  mkState (users st) (chats st) v (friendships st) (friendRequests st)
    (socketUsers st) (sockets st).
Definition with_friendships (st : State) (v : gmap string (list string)) : State :=
  mkState (users st) (chats st) (activeCalls st) v (friendRequests st)
    (socketUsers st) (sockets st).
Definition with_friendRequests (st : State) (v : gmap string (list FriendRequest)) : State :=
  mkState (users st) (chats st) (activeCalls st) (friendships st) v
    (socketUsers st) (sockets st).
Definition with_socketUsers (st : State) (v : OMap.t string) : State :=
  mkState (users st) (chats st) (activeCalls st) (friendships st) (friendRequests st)
    v (sockets st).
Definition with_sockets (st : State) (v : gmap string (option string)) : State :=
  mkState (users st) (chats st) (activeCalls st) (friendships st) (friendRequests st)
    (socketUsers st) v.

(** [socket.userId] of a connected socket. *)
Definition socket_userId (st : State) (socketId : string) : option string :=
  mjoin (sockets st !! socketId).

(** *** Outbound socket events *)

Record UserInfo := mkUserInfo {
  ui_id : string; ui_name : string; ui_email : string; ui_avatar : string
}.

Record FriendInfo := mkFriendInfo {
  fi_id : string; fi_name : string; fi_email : string; fi_avatar : string;
  fi_isOnline : bool; fi_lastSeen : Z
}.

Record RequestInfo := mkRequestInfo {
  ri_id : string; ri_fromUser : UserInfo; ri_createdAt : Z
}.

Record ParticipantInfo := mkParticipantInfo {
  pi_id : string; pi_name : string; pi_avatar : string
}.

Record ChatInfo := mkChatInfo {
  ci_id : string;
  ci_name : string;
  ci_type : ChatType;
  ci_participants : list ParticipantInfo;
  ci_lastMessage : option Message;
  ci_unreadCount : nat;
  ci_createdAt : Z;
  ci_updatedAt : Z
}.

(** [chats_list] carries an array built from [chats.values()]; its order is
    the insertion order of the chats and is not modelled: the payload is the
    finite map from chat id to entry. *)
Inductive OutEvent :=
| authenticated
| auth_error
| friends_list (friends : list FriendInfo)
| friend_requests (requests : list RequestInfo)
| chats_list (userChats : gmap string ChatInfo)
| chat_created (chat : Chat)
| friend_request (requestId : string) (fromUser : UserInfo) (createdAt : Z)
| friend_request_accepted (byUser : UserInfo)
| friend_status_changed (friendId name : string) (status : Status) (lastSeen : Z)
| new_message (chatId : string) (message : Message)
| incoming_call (callId chatId caller type : string)
| call_started (callId : string) (callData : Call)
| call_accepted (callId userId : string) (callData : Call)
| call_ended (callId : string) (duration : Z).

(** An emitted event with the id of the socket it is written to. *)
Definition Emit : Type := string * OutEvent.

(** *** Helper methods (lines 880-1061) *)

(** [chat.unreadCount || 0]. *)
Definition unread (c : Chat) : nat := default 0%nat (chat_unreadCount c).

(** Lines 967-974: the first entry of [socketUsers] owned by [userId] decides;
    the result is that socket when it is connected. *)
Definition getSocketByUserId (st : State) (userId : string) : option string :=
  match find (λ kv, bool_decide (kv.2 = userId)) (socketUsers st) with
  | Some (socketId, _) =>
      if bool_decide (is_Some (sockets st !! socketId)) then Some socketId else None
  | None => None
  end.

(** Lines 976-978. *)
Definition isUserOnline (st : State) (userId : string) : bool :=
  includes (OMap.values (socketUsers st)) userId.

(** Lines 980-996. *)
Definition notifyFriendsStatusChange (st : State) (userId : string) (status : Status)
  : list Emit :=
  match users st !! userId with
  | None => []
  | Some user =>
      let friendIds := default [] (friendships st !! userId) in
      omap (λ friendId,
              (λ friendSocket,
                 (friendSocket,
                  friend_status_changed userId (user_name user) status (user_lastSeen user)))
                <$> getSocketByUserId st friendId)
           friendIds
  end.

Definition userInfo (u : User) : UserInfo :=
  mkUserInfo (user_id u) (user_name u) (user_email u) (user_avatar u).

Definition chatInfo (st : State) (chat : Chat) : ChatInfo :=
  mkChatInfo (chat_id chat) (chat_name chat) (chat_type chat)
    (omap (λ pId, (λ user, mkParticipantInfo (user_id user) (user_name user) (user_avatar user))
                    <$> users st !! pId)
          (chat_participants chat))
    (chat_lastMessage chat) (unread chat) (chat_createdAt chat) (chat_updatedAt chat).

(** Lines 998-1061. *)
Definition sendUserDataToSocket (st : State) (userId socket : string) : list Emit :=
  match users st !! userId with
  | None => []
  | Some _ =>
      let friendIds := default [] (friendships st !! userId) in
      let friends :=
        omap (λ friendId,
                (λ friend,
                   mkFriendInfo (user_id friend) (user_name friend) (user_email friend)
                     (user_avatar friend) (isUserOnline st friendId) (user_lastSeen friend))
                  <$> users st !! friendId)
             friendIds in
      let requests := default [] (friendRequests st !! userId) in
      let pendingRequests := filter (λ req, req_status req = pending) requests in
      let detailedRequests :=
        omap (λ req,
                (λ fromUser, mkRequestInfo (req_id req) (userInfo fromUser) (req_createdAt req))
                  <$> users st !! req_fromUserId req)
             pendingRequests in
      let userChats :=
        chatInfo st <$>
          filter (λ kc, includes (chat_participants kc.2) userId = true) (chats st) in
      [ (socket, friends_list friends);
        (socket, friend_requests detailedRequests);
        (socket, chats_list userChats) ]
  end.

Definition demoMessages (chatId : string) (now : Z) : list Message :=
  [ mkMessage "demo_msg_1" "Добро пожаловать в Береста! 🎉" "demo_user_1"
      "Анна Иванова" "А" (now - 86400000) chatId;
    mkMessage "demo_msg_2"
      "Здесь вы можете общаться с друзьями, совершать звонки и многое другое!"
      "demo_user_2" "Иван Петров" "И" (now - 43200000) chatId;
    mkMessage "demo_msg_3" "Добавляйте друзей по email и начинайте новые беседы! 👋"
      "demo_user_3" "Мария Сидорова" "М" now chatId ].

(** Lines 880-925. *)
Definition createDemoChat (st : State) (userId : string) (now : Z) : State :=
  let chatId := "demo_chat_" +:+ userId in
  match chats st !! chatId with
  | Some _ => st
  | None =>
      let messages := demoMessages chatId now in
      let chat :=
        mkChat chatId "Общий чат" group
          (uniq ["demo_user_1"; "demo_user_2"; "demo_user_3"; userId])
          messages now now (last messages) None in
      with_chats st (<[chatId := chat]> (chats st))
  end.

(** Lines 928-929: [`chat_${userId1}_${userId2}`]. *)
Definition privateChatId (userId1 userId2 : string) : string :=
  "chat_" +:+ userId1 +:+ "_" +:+ userId2.

(** Lines 927-965; the result is the returned chat id, [None] for [null]. *)
Definition createChatBetweenUsers (st : State) (userId1 userId2 : string) (now : Z)
  : State * option string :=
  let chatId := privateChatId userId1 userId2 in
  let reverseChatId := privateChatId userId2 userId1 in
  match chats st !! chatId with
  | Some existingChat => (st, Some (chat_id existingChat))
  | None =>
      match chats st !! reverseChatId with
      | Some existingChat => (st, Some (chat_id existingChat))
      | None =>
          match users st !! userId1, users st !! userId2 with
          | Some user1, Some user2 =>
              let messages :=
                [ mkMessage "welcome_msg"
                    ("Привет! Я " +:+ user_name user1 +:+ ". Давайте общаться! 😊")
                    userId1 (user_name user1) (user_avatar user1) now chatId ] in
              let newChat :=
                mkChat chatId (user_name user2) private [userId1; userId2]
                  messages now now (last messages) None in
              (with_chats st (<[chatId := newChat]> (chats st)), Some chatId)
          | _, _ => (st, None)
          end
      end
  end.

(** *** REST routes (lines 60-624)

    Every route below runs behind the middleware of lines 42-57, which puts
    the user id of the verified token into [req.userId]; that id is the
    argument [userId] (or [currentUserId]).  A route returns the state, the
    socket events and the HTTP status of its response.  An exception thrown
    inside a route is caught by its [try]/[catch] and answered with 500; what
    was written before the throw stays written. *)

Definition Reply : Type := State * list Emit * nat.

(** [Array.from(this.users.values()).find(u => u.email === email)], with the
    key under which the user is stored.  The scan order is that of
    [map_to_list]; it differs from insertion order only when two users share
    an e-mail address. *)
Definition findUserByEmail (st : State) (email : string) : option (string * User) :=
  find (λ ku, bool_decide (user_email ku.2 = email)) (map_to_list (users st)).

(** Lines 67-135.  [valid] is the verdict of the checks of lines 71-83 on the
    request body, [hashedPassword] what [bcrypt.hash] returned and [avatar]
    the value of [name.charAt(0).toUpperCase()]. *)
Definition register (st : State) (valid : bool)
    (name email hashedPassword avatar : string) (now : Z) (rnd : string) : Reply :=
  if negb valid then (st, [], 400%nat) else
  match findUserByEmail st email with
  | Some _ => (st, [], 400%nat)
  | None =>
      let userId := "user_" +:+ pretty now +:+ rnd in
      let newUser := mkUser userId name email hashedPassword avatar now offline now in
      let st1 := with_users st (<[userId := newUser]> (users st)) in
      let st2 := with_friendships st1 (<[userId := []]> (friendships st1)) in
      let st3 := with_friendRequests st2 (<[userId := []]> (friendRequests st2)) in
      (createDemoChat st3 userId now, [], 201%nat)
  end.

(** Lines 138-185.  [validPassword] is what [bcrypt.compare] returned. *)
Definition login (st : State) (email password : option string) (validPassword : bool)
    (now : Z) : Reply :=
  if negb (truthy email) || negb (truthy password) then (st, [], 400%nat) else
  match findUserByEmail st (default "" email) with
  | None => (st, [], 401%nat)
  | Some (key, user) =>
      if negb validPassword then (st, [], 401%nat) else
      let user' :=
        mkUser (user_id user) (user_name user) (user_email user) (user_password user)
          (user_avatar user) (user_createdAt user) online now in
      (with_users st (<[key := user']> (users st)), [], 200%nat)
  end.

(** Lines 272-349. *)
Definition sendFriendRequest (st : State) (currentUserId : string)
    (friendEmail : option string) (now : Z) : Reply :=
  if negb (truthy friendEmail) then (st, [], 400%nat) else
  let email := default "" friendEmail in
  if bool_decide (user_email <$> users st !! currentUserId = Some email)
  then (st, [], 400%nat) else
  match findUserByEmail st email with
  | None => (st, [], 404%nat)
  | Some (_, friend) =>
      if includes (default [] (friendships st !! currentUserId)) (user_id friend)
      then (st, [], 400%nat) else
      let existing := default [] (friendRequests st !! user_id friend) in
      if bool_decide (Exists (λ req, req_fromUserId req = currentUserId
                                      ∧ req_status req = pending) existing)
      then (st, [], 400%nat) else
      let requestId := "friend_req_" +:+ pretty now in
      let request :=
        mkFriendRequest requestId currentUserId (user_id friend) pending now None in
      let st' :=
        with_friendRequests st
          (<[user_id friend := existing ++ [request]]> (friendRequests st)) in
      match getSocketByUserId st' (user_id friend) with
      | None => (st', [], 200%nat)
      | Some friendSocket =>
          match users st' !! currentUserId with
          | Some fromUser =>
              (st', [(friendSocket, friend_request requestId (userInfo fromUser) now)],
               200%nat)
          | None => (st', [], 500%nat)
          end
      end
  end.

(** [requests.findIndex(req => req.id === requestId && req.status === 'pending')]
    with the element found. *)
Definition findPending (requests : list FriendRequest) (requestId : string)
  : option (nat * FriendRequest) :=
  list_find (λ req, req_id req = requestId ∧ req_status req = pending) requests.

Definition respond (req : FriendRequest) (status : ReqStatus) (now : Z) : FriendRequest :=
  mkFriendRequest (req_id req) (req_fromUserId req) (req_toUserId req) status
    (req_createdAt req) (Some now).

(** Lines 403-407: both directions of the edge. *)
Definition addFriends (fs : gmap string (list string)) (userId fromUserId : string)
  : gmap string (list string) :=
  let fs1 := if bool_decide (is_Some (fs !! userId)) then fs else <[userId := []]> fs in
  let fs2 :=
    if bool_decide (is_Some (fs1 !! fromUserId)) then fs1 else <[fromUserId := []]> fs1 in
  let fs3 := <[userId := set_add (default [] (fs2 !! userId)) fromUserId]> fs2 in
  <[fromUserId := set_add (default [] (fs3 !! fromUserId)) userId]> fs3.

(** Lines 384-436. *)
Definition acceptFriendRequest (st : State) (userId requestId : string) (now : Z) : Reply :=
  let requests := default [] (friendRequests st !! userId) in
  match findPending requests requestId with
  | None => (st, [], 404%nat)
  | Some (requestIndex, request) =>
      let fromUserId := req_fromUserId request in
      let st1 :=
        with_friendRequests st
          (<[userId := <[requestIndex := respond request accepted now]> requests]>
             (friendRequests st)) in
      let st2 := with_friendships st1 (addFriends (friendships st1) userId fromUserId) in
      match getSocketByUserId st2 fromUserId with
      | None => ((createChatBetweenUsers st2 userId fromUserId now).1, [], 200%nat)
      | Some fromUserSocket =>
          match users st2 !! userId with
          | Some currentUser =>
              ((createChatBetweenUsers st2 userId fromUserId now).1,
               [(fromUserSocket, friend_request_accepted (userInfo currentUser))],
               200%nat)
          | None => (st2, [], 500%nat)
          end
      end
  end.

(** Lines 439-464. *)
Definition rejectFriendRequest (st : State) (userId requestId : string) (now : Z) : Reply :=
  let requests := default [] (friendRequests st !! userId) in
  match findPending requests requestId with
  | None => (st, [], 404%nat)
  | Some (requestIndex, request) =>
      (with_friendRequests st
         (<[userId := <[requestIndex := respond request rejected now]> requests]>
            (friendRequests st)),
       [], 200%nat)
  end.

(** Lines 473-479: both directions of the edge. *)
Definition removeFriends (fs : gmap string (list string)) (userId friendId : string)
  : gmap string (list string) :=
  let fs1 :=
    match fs !! userId with
    | Some s => <[userId := set_delete s friendId]> fs
    | None => fs
    end in
  match fs1 !! friendId with
  | Some s => <[friendId := set_delete s userId]> fs1
  | None => fs1
  end.

(** Lines 467-493. *)
Definition removeFriend (st : State) (userId friendId : string) : Reply :=
  (with_friendships st (removeFriends (friendships st) userId friendId), [], 200%nat).

(** Lines 527-587; [participantIds] is [None] when the field is missing or
    not an array. *)
Definition createChat (st : State) (userId : string) (name : option string)
    (participantIds : option (list string)) (now : Z) : Reply :=
  match participantIds with
  | None => (st, [], 400%nat)
  | Some participantIds =>
      let allParticipants := uniq (userId :: participantIds) in
      if negb (forallb (λ pId, bool_decide (is_Some (users st !! pId))) allParticipants)
      then (st, [], 404%nat) else
      if bool_decide (map_Exists (λ _ chat,
                        length (chat_participants chat) = length allParticipants
                        ∧ Forall (λ pId, pId ∈ allParticipants) (chat_participants chat))
                      (chats st))
      then (st, [], 400%nat) else
      let chatId := "chat_" +:+ pretty now in
      let chatName :=
        if truthy name then default "" name
        else join ", "
               ((λ pId, default "" (user_name <$> users st !! pId))
                  <$> filter (λ pId, pId ≠ userId) allParticipants) in
      let newChat :=
        mkChat chatId chatName
          (if bool_decide (2 < length allParticipants)%nat then group else private)
          allParticipants [] now now None None in
      let st' := with_chats st (<[chatId := newChat]> (chats st)) in
      (st',
       omap (λ pId, (λ userSocket, (userSocket, chat_created newChat))
                      <$> getSocketByUserId st' pId)
            allParticipants,
       201%nat)
  end.

(** Lines 589-612.  The body of the answer is [getMessagesBody]. *)
Definition getMessages (st : State) (userId chatId : string) : Reply :=
  match chats st !! chatId with
  | None => (st, [], 404%nat)
  | Some chat =>
      if negb (includes (chat_participants chat) userId) then (st, [], 403%nat) else
      let chat' :=
        mkChat (chat_id chat) (chat_name chat) (chat_type chat) (chat_participants chat)
          (chat_messages chat) (chat_createdAt chat) (chat_updatedAt chat)
          (chat_lastMessage chat) (Some 0%nat) in
      (with_chats st (<[chatId := chat']> (chats st)), [], 200%nat)
  end.

Definition getMessagesBody (chat : Chat) : list Message :=
  slice_last 100 (chat_messages chat).

(** *** Socket handlers (lines 626-824)

    [socket] is the id of the socket the handler is registered on. *)

(** Line 627: a new connection enters [io.sockets.sockets]. *)
Definition connection (st : State) (socket : string) : State * list Emit :=
  (with_sockets st (<[socket := None]> (sockets st)), []).

(** Lines 631-658.  [decoded] is the [userId] of the payload returned by
    [jwt.verify], [None] when it throws. *)
Definition authenticate (st : State) (socket : string) (decoded : option string) (now : Z)
  : State * list Emit :=
  match decoded with
  | None => (st, [(socket, auth_error)])
  | Some userId =>
      match users st !! userId with
      | None => (st, [])
      | Some user =>
          let st1 := with_sockets st (<[socket := Some userId]> (sockets st)) in
          let st2 := with_socketUsers st1 (OMap.set (socketUsers st1) socket userId) in
          let user' :=
            mkUser (user_id user) (user_name user) (user_email user) (user_password user)
              (user_avatar user) (user_createdAt user) online now in
          let st3 := with_users st2 (<[userId := user']> (users st2)) in
          (st3,
           notifyFriendsStatusChange st3 userId online
             ++ [(socket, authenticated)]
             ++ sendUserDataToSocket st3 userId socket)
      end
  end.

(** Lines 693-706, one round of the [forEach]: the events emitted so far and
    [chat.unreadCount]. *)
Definition deliver (st : State) (chatId : string) (message : Message) (userId : string)
    (acc : list Emit * option nat) (participantId : string) : list Emit * option nat :=
  match getSocketByUserId st participantId with
  | Some participantSocket =>
      (acc.1 ++ [(participantSocket, new_message chatId message)], acc.2)
  | None =>
      if bool_decide (participantId ≠ userId)
      then (acc.1, Some (default 0 acc.2 + 1)%nat)
      else acc
  end.

(** Lines 683-690: [push], then the cut of the history. *)
Definition appendMessage (messages : list Message) (message : Message) : list Message :=
  let pushed := messages ++ [message] in
  if bool_decide (1000 < length pushed)%nat then slice_last 100 pushed else pushed.

(** Lines 673-681. *)
Definition newMessage (user : User) (userId chatId text : string) (now : Z) (rnd : string)
  : Message :=
  mkMessage ("msg_" +:+ pretty now +:+ "_" +:+ rnd) text userId
    (user_name user) (user_avatar user) now chatId.

(** Lines 661-707. *)
Definition send_message (st : State) (socket : string) (chatId text : option string)
    (now : Z) (rnd : string) : State * list Emit :=
  let userId := socket_userId st socket in
  if negb (truthy userId) || negb (truthy chatId) || negb (truthy text) then (st, []) else
  match userId, chatId, text with
  | Some userId, Some chatId, Some text =>
      match chats st !! chatId with
      | None => (st, [])
      | Some chat =>
          if negb (includes (chat_participants chat) userId) then (st, []) else
          match users st !! userId with
          | None => (st, [])
          | Some user =>
              let message := newMessage user userId chatId text now rnd in
              let fanout :=
                foldl (deliver st chatId message userId) ([], chat_unreadCount chat)
                  (chat_participants chat) in
              let chat' :=
                mkChat (chat_id chat) (chat_name chat) (chat_type chat)
                  (chat_participants chat) (appendMessage (chat_messages chat) message)
                  (chat_createdAt chat) now (Some message) fanout.2 in
              (with_chats st (<[chatId := chat']> (chats st)), fanout.1)
          end
      end
  | _, _, _ => (st, [])
  end.

(** Lines 723-733. *)
Definition newCall (user : User) (userId chatId : string) (type : option string) (now : Z)
  : Call :=
  mkCall ("call_" +:+ pretty now) chatId userId (user_name user)
    (if truthy type then default "" type else "voice") [userId] calling now.

(** Lines 710-757. *)
Definition start_call (st : State) (socket : string) (chatId type : option string) (now : Z)
  : State * list Emit :=
  let userId := socket_userId st socket in
  if negb (truthy userId) || negb (truthy chatId) then (st, []) else
  match userId, chatId with
  | Some userId, Some chatId =>
      match chats st !! chatId with
      | None => (st, [])
      | Some chat =>
          if negb (includes (chat_participants chat) userId) then (st, []) else
          match users st !! userId with
          | None => (st, [])
          | Some user =>
              let callData := newCall user userId chatId type now in
              let callId := call_id callData in
              let st' := with_activeCalls st (<[callId := callData]> (activeCalls st)) in
              (st',
               omap (λ participantId,
                       (λ participantSocket,
                          (participantSocket,
                           incoming_call callId chatId (user_name user) (call_type callData)))
                         <$> getSocketByUserId st' participantId)
                    (filter (λ participantId, participantId ≠ userId)
                       (chat_participants chat))
                 ++ [(socket, call_started callId callData)])
          end
      end
  | _, _ => (st, [])
  end.

(** [this.io.emit(ev)]: one copy for every connected socket. *)
Definition io_emit (st : State) (ev : OutEvent) : list Emit :=
  (λ socketId, (socketId, ev)) <$> (map_to_list (sockets st)).*1.

(** Lines 769-770: [callData] after [userId] joined. *)
Definition joined (callData : Call) (userId : string) : Call :=
  mkCall (call_id callData) (call_chatId callData) (call_callerId callData)
    (call_callerName callData) (call_type callData)
    (call_participants callData ++ [userId]) active (call_startTime callData).

(** Lines 760-778. *)
Definition accept_call (st : State) (socket : string) (callId : option string)
  : State * list Emit :=
  let userId := socket_userId st socket in
  if negb (truthy userId) || negb (truthy callId) then (st, []) else
  match userId, callId with
  | Some userId, Some callId =>
      match activeCalls st !! callId with
      | None => (st, [])
      | Some callData =>
          let callData' := joined callData userId in
          let st' := with_activeCalls st (<[callId := callData']> (activeCalls st)) in
          (st', io_emit st' (call_accepted callId userId callData'))
      end
  | _, _ => (st, [])
  end.

(** Lines 781-802. *)
Definition end_call (st : State) (socket : string) (callId : option string) (now : Z)
  : State * list Emit :=
  if negb (truthy callId) then (st, []) else
  match callId with
  | Some callId =>
      match activeCalls st !! callId with
      | None => (st, [])
      | Some callData =>
          (with_activeCalls st (delete callId (activeCalls st)),
           omap (λ participantId,
                   (λ participantSocket,
                      (participantSocket,
                       call_ended callId ((now - call_startTime callData) `div` 1000)))
                     <$> getSocketByUserId st participantId)
                (call_participants callData))
      end
  | None => (st, [])
  end.

(** Lines 805-822.  The socket has left [io.sockets.sockets] when the
    handler runs. *)
Definition disconnect (st : State) (socket : string) (now : Z) : State * list Emit :=
  let st0 := with_sockets st (delete socket (sockets st)) in
  let userId := OMap.get (socketUsers st0) socket in
  if negb (truthy userId) then (st0, []) else
  match userId with
  | Some userId =>
      let st1 := with_socketUsers st0 (OMap.delete (socketUsers st0) socket) in
      match users st1 !! userId with
      | None => (st1, [])
      | Some user =>
          let user' :=
            mkUser (user_id user) (user_name user) (user_email user) (user_password user)
              (user_avatar user) (user_createdAt user) offline now in
          let st2 := with_users st1 (<[userId := user']> (users st1)) in
          (st2, notifyFriendsStatusChange st2 userId offline)
      end
  | None => (st0, [])
  end.

(** *** The server as a transition system *)

Definition demoUsers (now : Z) : list User :=
  [ mkUser "demo_user_1" "Анна Иванова" "anna@example.com" "$2a$10$abc123" "А"
      now online now;
    mkUser "demo_user_2" "Иван Петров" "ivan@example.com" "$2a$10$def456" "И"
      now offline (now - 3600000);
    mkUser "demo_user_3" "Мария Сидорова" "maria@example.com" "$2a$10$ghi789" "М"
      now online now ].

Definition empty_state : State := mkState ∅ ∅ ∅ ∅ ∅ [] ∅.

(** Lines 827-878, run on the empty stores of the constructor. *)
Definition createDemoData (st : State) (now : Z) : State :=
  if bool_decide (size (users st) = 0%nat) then
    let st1 :=
      foldl (λ st user,
               let st := with_users st (<[user_id user := user]> (users st)) in
               let st := with_friendships st (<[user_id user := []]> (friendships st)) in
               with_friendRequests st (<[user_id user := []]> (friendRequests st)))
            st (demoUsers now) in
    let add (a b : string) (fs : gmap string (list string)) :=
      <[a := set_add (default [] (fs !! a)) b]> fs in
    let fs :=
      add "demo_user_3" "demo_user_1"
        (add "demo_user_1" "demo_user_3"
           (add "demo_user_2" "demo_user_1"
              (add "demo_user_1" "demo_user_2" (friendships st1)))) in
    createDemoChat (with_friendships st1 fs) "demo_user_1" now
  else st.

(** The state after [new BerezaServer()] at time [now]. *)
Definition init (now : Z) : State := createDemoData empty_state now.

(** What the server reacts to: the REST calls that write to a store and the
    socket events. *)
Inductive Event :=
| Register (valid : bool) (name email hashedPassword avatar : string) (now : Z) (rnd : string)
| Login (email password : option string) (validPassword : bool) (now : Z)
| FriendRequestPost (currentUserId : string) (friendEmail : option string) (now : Z)
| FriendRequestAccept (userId requestId : string) (now : Z)
| FriendRequestReject (userId requestId : string) (now : Z)
| FriendDelete (userId friendId : string)
| ChatPost (userId : string) (name : option string) (participantIds : option (list string))
    (now : Z)
| MessagesGet (userId chatId : string)
| Connection (socket : string)
| Authenticate (socket : string) (decoded : option string) (now : Z)
| SendMessage (socket : string) (chatId text : option string) (now : Z) (rnd : string)
| StartCall (socket : string) (chatId type : option string) (now : Z)
| AcceptCall (socket : string) (callId : option string)
| EndCall (socket : string) (callId : option string) (now : Z)
| Disconnect (socket : string) (now : Z).

Definition step (st : State) (ev : Event) : State * list Emit :=
  match ev with
  | Register valid name email hashedPassword avatar now rnd =>
      (register st valid name email hashedPassword avatar now rnd).1
  | Login email password validPassword now => (login st email password validPassword now).1
  | FriendRequestPost currentUserId friendEmail now =>
      (sendFriendRequest st currentUserId friendEmail now).1
  | FriendRequestAccept userId requestId now => (acceptFriendRequest st userId requestId now).1
  | FriendRequestReject userId requestId now => (rejectFriendRequest st userId requestId now).1
  | FriendDelete userId friendId => (removeFriend st userId friendId).1
  | ChatPost userId name participantIds now => (createChat st userId name participantIds now).1
  | MessagesGet userId chatId => (getMessages st userId chatId).1
  | Connection socket => connection st socket
  | Authenticate socket decoded now => authenticate st socket decoded now
  | SendMessage socket chatId text now rnd => send_message st socket chatId text now rnd
  | StartCall socket chatId type now => start_call st socket chatId type now
  | AcceptCall socket callId => accept_call st socket callId
  | EndCall socket callId now => end_call st socket callId now
  | Disconnect socket now => disconnect st socket now
  end.

(** When the environment can deliver [ev] in [st]:
    - the id made up by [register] is new: no user and no entry of the friend
      graph has it;
    - a connection gets a fresh socket id, and socket events arrive only on
      connected sockets.
    A REST call may come with the id of any user: the token is checked, not
    the user behind it. *)
Definition enabled (st : State) (ev : Event) : Prop :=
  match ev with
  | Register _ _ _ _ _ now rnd =>
      users st !! ("user_" +:+ pretty now +:+ rnd) = None
      ∧ friendships st !! ("user_" +:+ pretty now +:+ rnd) = None
  | Connection socket => sockets st !! socket = None
  | Authenticate socket _ _
  | SendMessage socket _ _ _ _
  | StartCall socket _ _ _
  | AcceptCall socket _
  | EndCall socket _ _
  | Disconnect socket _ => is_Some (sockets st !! socket)
  | _ => True
  end.

Inductive reachable : State → Prop :=
| reachable_init now : reachable (init now)
| reachable_step st ev : reachable st → enabled st ev → reachable (step st ev).1.

(** The state and the events after a run of events, oldest first. *)
Fixpoint run (st : State) (evs : list Event) : State * list Emit :=
  match evs with
  | [] => (st, [])
  | ev :: evs =>
      let r := step st ev in
      let r' := run r.1 evs in
      (r'.1, r.2 ++ r'.2)
  end.

(** *** Vocabulary of the properties *)

(** [b] is in the friend set stored for [a]. *)
Definition edge_in (fs : gmap string (list string)) (a b : string) : Prop :=
  ∃ s, fs !! a = Some s ∧ b ∈ s.

Definition edge (st : State) (a b : string) : Prop := edge_in (friendships st) a b.

(** [Array.from(this.friendships.get(a) || [])]. *)
Definition friends_of (fs : gmap string (list string)) (a : string) : list string :=
  default [] (fs !! a).

(** Every event of the list is enabled when its turn comes. *)
Fixpoint run_enabled (st : State) (evs : list Event) : Prop :=
  match evs with
  | [] => True
  | ev :: evs => enabled st ev ∧ run_enabled (step st ev).1 evs
  end.

(** No store has the empty string as a key. *)
Definition ids_ok (st : State) : Prop :=
  users st !! "" = None ∧ chats st !! "" = None ∧ activeCalls st !! "" = None.

(** Every session belongs to a connected socket and a registered user, and
    the [userId] attribute of a socket is a session of it. *)
Definition sessions_ok (st : State) : Prop :=
  (∀ s u, (s, u) ∈ socketUsers st → is_Some (sockets st !! s) ∧ is_Some (users st !! u))
  ∧ (∀ s u, sockets st !! s = Some (Some u) → (s, u) ∈ socketUsers st).

Definition friends_ok (st : State) : Prop := ∀ a b, edge st a b → edge st b a.

Definition inv (st : State) : Prop := ids_ok st ∧ sessions_ok st ∧ friends_ok st.

(** *** Read-only REST routes *)

(** Lines 241-269: the body of [GET /api/friends]. *)
Definition getFriends (st : State) (userId : string) : list FriendInfo :=
  let friendIds := default [] (friendships st !! userId) in
  omap (λ friendId,
          (λ user,
             mkFriendInfo (user_id user) (user_name user) (user_email user)
               (user_avatar user) (isUserOnline st friendId) (user_lastSeen user))
            <$> users st !! friendId)
       friendIds.

(** Lines 352-381: the body of [GET /api/friends/requests]. *)
Definition getFriendRequests (st : State) (userId : string) : list RequestInfo :=
  let requests := default [] (friendRequests st !! userId) in
  let pendingRequests := filter (λ req, req_status req = pending) requests in
  omap (λ req,
          (λ fromUser, mkRequestInfo (req_id req) (userInfo fromUser) (req_createdAt req))
            <$> users st !! req_fromUserId req)
       pendingRequests.

(** Lines 496-525: the body of [GET /api/chats], as a finite map from chat
    id to entry (the order of the array is not modelled).  Unlike
    [sendUserDataToSocket] the route reads the last message off the history. *)
Definition getChats (st : State) (userId : string) : gmap string ChatInfo :=
  (λ chat,
     mkChatInfo (chat_id chat) (chat_name chat) (chat_type chat)
       (omap (λ pId,
                (λ user, mkParticipantInfo (user_id user) (user_name user) (user_avatar user))
                  <$> users st !! pId)
             (chat_participants chat))
       (last (chat_messages chat)) (unread chat) (chat_createdAt chat)
       (chat_updatedAt chat))
    <$> filter (λ kc, includes (chat_participants kc.2) userId = true) (chats st).

(** *** Well-formed stores *)

(** Every user is stored under its id, no two users share an e-mail address,
    and the demo users are there. *)
Definition users_ok (st : State) : Prop :=
  (∀ k u, users st !! k = Some u → user_id u = k)
  ∧ (∀ k1 k2 u1 u2, users st !! k1 = Some u1 → users st !! k2 = Some u2 →
       user_email u1 = user_email u2 → k1 = k2)
  ∧ (∀ d, d ∈ ["demo_user_1"; "demo_user_2"; "demo_user_3"] → is_Some (users st !! d)).

(** A chat stored under [k], with [us] the registered users. *)
Definition chat_wf (us : gmap string User) (k : string) (c : Chat) : Prop :=
  chat_id c = k
  ∧ NoDup (chat_participants c)
  ∧ chat_participants c ≠ []
  ∧ (∀ p, p ∈ chat_participants c → is_Some (us !! p))
  ∧ (chat_type c = group ↔ (2 < length (chat_participants c))%nat)
  ∧ (length (chat_messages c) ≤ 1000)%nat
  ∧ chat_lastMessage c = last (chat_messages c)
  ∧ (∀ m, m ∈ chat_messages c →
       msg_chatId m = k ∧ msg_senderId m ∈ chat_participants c).

Definition chats_ok (st : State) : Prop :=
  ∀ k c, chats st !! k = Some c → chat_wf (users st) k c.

(** A call stored under [k]. *)
Definition call_wf (st : State) (k : string) (c : Call) : Prop :=
  call_id c = k
  ∧ head (call_participants c) = Some (call_callerId c)
  ∧ (call_status c = calling ↔ call_participants c = [call_callerId c])
  ∧ is_Some (users st !! call_callerId c)
  ∧ is_Some (chats st !! call_chatId c).

Definition calls_ok (st : State) : Prop :=
  ∀ k c, activeCalls st !! k = Some c → call_wf st k c.

(** The requests filed for the user [k]. *)
Definition requests_wf (k : string) (reqs : list FriendRequest) : Prop :=
  (∀ req, req ∈ reqs →
     req_toUserId req = k
     ∧ req_fromUserId req ≠ k
     ∧ (req_status req = pending ↔ req_respondedAt req = None))
  ∧ (∀ i j req1 req2,
       reqs !! i = Some req1 → reqs !! j = Some req2 →
       req_status req1 = pending → req_status req2 = pending →
       req_fromUserId req1 = req_fromUserId req2 → i = j).

Definition requests_ok (st : State) : Prop :=
  ∀ k reqs, friendRequests st !! k = Some reqs →
    is_Some (users st !! k) ∧ requests_wf k reqs.

Definition no_self_edge (st : State) : Prop := ∀ a, ¬ edge st a a.

Definition wf (st : State) : Prop :=
  users_ok st ∧ chats_ok st ∧ calls_ok st ∧ requests_ok st ∧ no_self_edge st.

(** [u'] is the account [u] with other attributes: same id, same e-mail
    address. *)
Definition same_account (u u' : User) : Prop :=
  user_id u' = user_id u ∧ user_email u' = user_email u.

End V1.

(** * Version 2

    The handlers of the second class that the properties below talk about:
    message sending (socket and REST) and the call events.  Users are the
    records written by [user_connected]; a call is stored under the id of its
    chat. *)

Module V2.

Inductive CallStatus := calling | active.

Record User := mkUser {
  user_id : string;
  user_name : string;
  user_avatar : string;
  user_socketId : string
}.

(** A message is what the client sent: any field may be missing. *)
Record Message := mkMessage {
  msg_id : option string;
  msg_text : option string;
  msg_senderId : option string;
  msg_senderName : option string;
  msg_timestamp : option Z;
  msg_chatId : option string
}.

Record Chat := mkChat {
  chat_id : string;
  chat_name : string;
  chat_participants : list string;
  chat_messages : list Message;
  chat_createdAt : Z;
  chat_lastMessage : option string
}.

Record Call := mkCall {
  call_chatId : string;
  call_caller : string;
  call_type : string;
  call_status : CallStatus;
  call_participants : list string;
  call_startTime : Z
}.

(** Lines 1098-1100, and [io.sockets.sockets] with the [userId] attribute of
    each connected socket. *)
Record State := mkState {
  users : gmap string User;
  chats : gmap string Chat;
  activeCalls : gmap string Call;
  sockets : gmap string (option string)
}.

Definition with_chats (st : State) (v : gmap string Chat) : State :=
  mkState (users st) v (activeCalls st) (sockets st).
Definition with_activeCalls (st : State) (v : gmap string Call) : State :=
  mkState (users st) (chats st) v (sockets st).

Definition socket_userId (st : State) (socketId : string) : option string :=
  mjoin (sockets st !! socketId).

Inductive OutEvent :=
| new_message (chatId : option string) (message : Message)
| incoming_call (chatId : string) (caller type : option string)
| call_accepted (chatId caller : string)
| call_rejected (chatId caller : string)
| call_ended (chatId : string) (duration : Z).

Definition Emit : Type := string * OutEvent.

(** Lines 1437-1442. *)
Definition getSocketByUserId (st : State) (userId : string) : option string :=
  match users st !! userId with
  | None => None
  | Some user =>
      if bool_decide (is_Some (sockets st !! user_socketId user))
      then Some (user_socketId user) else None
  end.

(** Lines 1281-1286 (and 1178-1183): [push], then the cut of the history. *)
Definition appendMessage (messages : list Message) (message : Message) : list Message :=
  let pushed := messages ++ [message] in
  if bool_decide (1000 < length pushed)%nat then slice_last 1000 pushed else pushed.

(** Lines 1273-1301. *)
Definition send_message (st : State) (socket : string) (message : Message)
  : State * list Emit :=
  match msg_chatId message ≫= (chats st !!.) with
  | None => (st, [])
  | Some chat =>
      let chat' :=
        mkChat (chat_id chat) (chat_name chat) (chat_participants chat)
          (appendMessage (chat_messages chat) message) (chat_createdAt chat)
          (msg_text message) in
      (with_chats st (<[default "" (msg_chatId message) := chat']> (chats st)),
       omap (λ userId,
               (λ userSocket, (userSocket, new_message (msg_chatId message) message))
                 <$> getSocketByUserId st userId)
            (filter (λ userId, Some userId ≠ msg_senderId message) (chat_participants chat)))
  end.

(** Lines 1157-1198; the result carries the HTTP status. *)
Definition postMessage (st : State) (chatId text senderId senderName : option string)
    (now : Z) : State * list Emit * nat :=
  if negb (truthy chatId) || negb (truthy text) || negb (truthy senderId)
  then (st, [], 400%nat) else
  match chatId ≫= (chats st !!.) with
  | None => (st, [], 404%nat)
  | Some chat =>
      let message :=
        mkMessage (Some ("msg_" +:+ pretty now)) text senderId senderName (Some now) chatId in
      let chat' :=
        mkChat (chat_id chat) (chat_name chat) (chat_participants chat)
          (appendMessage (chat_messages chat) message) (chat_createdAt chat)
          (chat_lastMessage chat) in
      (with_chats st (<[default "" chatId := chat']> (chats st)),
       omap (λ userId,
               (λ userSocket, (userSocket, new_message chatId message))
                 <$> getSocketByUserId st userId)
            (chat_participants chat),
       201%nat)
  end.

(** [v || d] for a string or [undefined]. *)
Definition or_default (v : option string) (d : string) : string :=
  if truthy v then default "" v else d.

(** Lines 1304-1336. *)
Definition start_call (st : State) (socket : string) (chatId caller type : option string)
    (now : Z) : State * list Emit :=
  match chatId ≫= (chats st !!.) with
  | None => (st, [])
  | Some chat =>
      let chatId := default "" chatId in
      let callData :=
        mkCall chatId (or_default caller "Unknown") (or_default type "voice") calling
          (chat_participants chat) now in
      let st' := with_activeCalls st (<[chatId := callData]> (activeCalls st)) in
      (st',
       omap (λ userId,
               (λ userSocket, (userSocket, incoming_call chatId caller type))
                 <$> getSocketByUserId st' userId)
            (filter (λ userId, Some userId ≠ socket_userId st' socket)
               (chat_participants chat)))
  end.

(** Lines 1339-1360. *)
Definition accept_call (st : State) (socket : string) (chatId : option string)
  : State * list Emit :=
  match chatId ≫= (activeCalls st !!.) with
  | None => (st, [])
  | Some callData =>
      let chatId := default "" chatId in
      let callData' :=
        mkCall (call_chatId callData) (call_caller callData) (call_type callData) active
          (call_participants callData) (call_startTime callData) in
      let st' := with_activeCalls st (<[chatId := callData']> (activeCalls st)) in
      (st',
       omap (λ userId,
               (λ userSocket, (userSocket, call_accepted chatId (call_caller callData')))
                 <$> getSocketByUserId st' userId)
            (call_participants callData'))
  end.

(** Lines 1363-1381. *)
Definition reject_call (st : State) (socket : string) (chatId : option string)
  : State * list Emit :=
  match chatId ≫= (activeCalls st !!.) with
  | None => (st, [])
  | Some callData =>
      let chatId := default "" chatId in
      (with_activeCalls st (delete chatId (activeCalls st)),
       omap (λ userId,
               (λ userSocket, (userSocket, call_rejected chatId (call_caller callData)))
                 <$> getSocketByUserId st userId)
            (call_participants callData))
  end.

(** Lines 1384-1402. *)
Definition end_call (st : State) (socket : string) (chatId : option string) (now : Z)
  : State * list Emit :=
  match chatId ≫= (activeCalls st !!.) with
  | None => (st, [])
  | Some callData =>
      let chatId := default "" chatId in
      (with_activeCalls st (delete chatId (activeCalls st)),
       omap (λ userId,
               (λ userSocket,
                  (userSocket,
                   call_ended chatId ((now - call_startTime callData) `div` 1000)))
                 <$> getSocketByUserId st userId)
            (call_participants callData))
  end.

(** *** Sessions (lines 1224-1243 and 1405-1435) *)

Definition with_users (st : State) (v : gmap string User) : State :=
  mkState v (chats st) (activeCalls st) (sockets st).
Definition with_sockets (st : State) (v : gmap string (option string)) : State :=
  mkState (users st) (chats st) (activeCalls st) v.

(** An entry of [chats_list]; [ce_lastMessage] is [None] when the last
    message has no [text]. *)
Record ChatEntry := mkChatEntry {
  ce_id : string;
  ce_name : string;
  ce_lastMessage : option string;
  ce_participants : list string;
  ce_messageCount : nat;
  ce_createdAt : Z
}.

(** A [chats_list] event: the socket it is written to and its payload, the
    finite map from chat id to entry (the order of the array is not
    modelled). *)
Definition ChatsEmit : Type := string * gmap string ChatEntry.

(** Lines 1417-1435. *)
Definition sendChatsToUser (st : State) (userId : string) : list ChatsEmit :=
  match getSocketByUserId st userId with
  | None => []
  | Some userSocket =>
      [ (userSocket,
         (λ chat,
            mkChatEntry (chat_id chat) (chat_name chat)
              (match last (chat_messages chat) with
               | Some message => msg_text message
               | None => Some "Нет сообщений"
               end)
              (chat_participants chat) (length (chat_messages chat)) (chat_createdAt chat))
           <$> filter (λ kc, includes (chat_participants kc.2) userId = true) (chats st)) ]
  end.

(** Line 1224: a new connection enters [io.sockets.sockets]. *)
Definition connection (st : State) (socket : string) : State :=
  with_sockets st (<[socket := None]> (sockets st)).

(** Lines 1228-1243; [id], [name] and [avatar] are the fields of [userData]. *)
Definition user_connected (st : State) (socket : string) (id name avatar : option string)
    (now : Z) : State * list ChatsEmit :=
  let user :=
    mkUser (or_default id ("user_" +:+ pretty now)) (or_default name "User")
      (or_default avatar "U") socket in
  let st1 := with_users st (<[user_id user := user]> (users st)) in
  let st2 := with_sockets st1 (<[socket := Some (user_id user)]> (sockets st1)) in
  (st2, sendChatsToUser st2 (user_id user)).

(** Lines 1405-1413.  The socket has left [io.sockets.sockets] when the
    handler runs; its [userId] attribute is read off the socket object. *)
Definition disconnect (st : State) (socket : string) : State :=
  let userId := socket_userId st socket in
  let st0 := with_sockets st (delete socket (sockets st)) in
  if negb (truthy userId) then st0 else
  match userId with
  | Some userId =>
      match users st0 !! userId with
      | Some _ => with_users st0 (delete userId (users st0))
      | None => st0
      end
  | None => st0
  end.

End V2.

(** * Sample states *)

(** Version 1 after one registration and three logins: [demo_user_1] on
    socket [c1], [demo_user_2] on socket [c2], the new user on socket [c3];
    [demo_user_3] has no connection. *)
Definition demo_trace : list V1.Event :=
  [ V1.Register true "Zoya" "zoya@example.com" "$2a$10$jkl012" "Z" 5 "k3x9q0w2z";
    V1.Connection "c1"; V1.Connection "c2"; V1.Connection "c3";
    V1.Authenticate "c1" (Some "demo_user_1") 10;
    V1.Authenticate "c2" (Some "demo_user_2") 11;
    V1.Authenticate "c3" (Some "user_5k3x9q0w2z") 12 ].

Definition demo_state : V1.State := (V1.run (V1.init 0) demo_trace).1.

Definition demo_chat : V1.Chat :=
  V1.mkChat "demo_chat_demo_user_1" "Общий чат" V1.group
    ["demo_user_1"; "demo_user_2"; "demo_user_3"]
    (V1.demoMessages "demo_chat_demo_user_1" 0) 0 0
    (last (V1.demoMessages "demo_chat_demo_user_1" 0)) None.

(** The same with a video call started by [demo_user_1] at time 40. *)
Definition demo_call_trace : list V1.Event :=
  demo_trace ++ [V1.StartCall "c1" (Some "demo_chat_demo_user_1") (Some "video") 40].

Definition demo_call_state : V1.State := (V1.run (V1.init 0) demo_call_trace).1.

Definition demo_call : V1.Call :=
  V1.mkCall "call_40" "demo_chat_demo_user_1" "demo_user_1" "Анна Иванова" "video"
    ["demo_user_1"] V1.calling 40.

(** Version 2: users [a], [b] and [d] on sockets [sa], [sb] and [sd], and a
    chat [c] of [a] and [b] whose history holds [n] copies of one message. *)
Definition v2_message : V2.Message :=
  V2.mkMessage (Some "m1") (Some "hello") (Some "a") (Some "A") (Some 5) (Some "c").

Definition v2_chat (n : nat) : V2.Chat :=
  V2.mkChat "c" "chat" ["a"; "b"] (replicate n v2_message) 0 None.

Definition v2_state (n : nat) : V2.State :=
  V2.mkState
    (<["d" := V2.mkUser "d" "D" "D" "sd"]>
       (<["b" := V2.mkUser "b" "B" "B" "sb"]> (<["a" := V2.mkUser "a" "A" "A" "sa"]> ∅)))
    (<["c" := v2_chat n]> ∅)
    ∅
    (<["sd" := Some "d"]> (<["sb" := Some "b"]> (<["sa" := Some "a"]> ∅))).

(** The same with a call started by [a] in chat [c] at time 7. *)
Definition v2_call_state : V2.State :=
  (V2.start_call (v2_state 0) "sa" (Some "c") (Some "A") (Some "video") 7).1.

(** The run of C10: [demo_user_2], a friend of [demo_user_1], is connected on
    socket [c3]; [demo_user_1] authenticates on [c1] and again on [c2]. *)
Definition presence_trace : list V1.Event :=
  [ V1.Connection "c3"; V1.Authenticate "c3" (Some "demo_user_2") 9;
    V1.Connection "c1"; V1.Authenticate "c1" (Some "demo_user_1") 10;
    V1.Connection "c2"; V1.Authenticate "c2" (Some "demo_user_1") 11 ].

(** Version 1 after [demo_trace] and a friend request of Zoya to
    [demo_user_2], filed at time 20. *)
Definition request_trace : list V1.Event :=
  demo_trace ++ [V1.FriendRequestPost "user_5k3x9q0w2z" (Some "ivan@example.com") 20].

Definition request_state : V1.State := (V1.run (V1.init 0) request_trace).1.

Definition demo_request : V1.FriendRequest :=
  V1.mkFriendRequest "friend_req_20" "user_5k3x9q0w2z" "demo_user_2" V1.pending 20 None.

(** * The fan-out of a message, in the words of the specification

    Every participant with a live connection is sent the message; when the
    sender is not echoed, the sender is left out.  The result lists the
    participants delivered to, each with the connection used. *)
Definition fanout_spec (resolve : string → option string) (echo : bool)
    (sender : option string) (participants : list string) : list (string * string) :=
  omap (λ p, (λ s, (p, s)) <$> resolve p)
       (filter (λ p, echo = true ∨ Some p ≠ sender) participants).

(** * Properties *)

(** ** Arrays and sets *)

Section js_facts.
Context {A : Type}.
Implicit Types a : list A.

Lemma slice_last_length n a : (n ≤ length a)%nat → length (slice_last n a) = n.
Proof. intros Hn. unfold slice_last. rewrite length_drop. lia. Qed.

Lemma slice_last_suffix n a : take (length a - n) a ++ slice_last n a = a.
Proof. apply take_drop. Qed.

Lemma slice_last_short n a : (length a ≤ n)%nat → slice_last n a = a.
Proof.
  intros Hn. unfold slice_last.
  replace (length a - n)%nat with 0%nat by lia. done.
Qed.
End js_facts.

Lemma elem_of_set_add s x y : y ∈ set_add s x ↔ y ∈ s ∨ y = x.
Proof.
  unfold set_add, includes. case_bool_decide.
  - intuition congruence.
  - rewrite elem_of_app, list_elem_of_singleton. done.
Qed.

Lemma elem_of_set_delete s x y : y ∈ set_delete s x ↔ y ∈ s ∧ y ≠ x.
Proof. unfold set_delete. rewrite list_elem_of_filter. tauto. Qed.

(** ** Version 1: invariants of the reachable states *)

Module V1Facts.
Import V1.

Ltac unfold_handlers :=
  unfold register, login, sendFriendRequest, acceptFriendRequest, rejectFriendRequest,
    removeFriend, createChat, getMessages, connection, authenticate, send_message,
    start_call, accept_call, end_call, disconnect, createChatBetweenUsers, createDemoChat.

Ltac crush_handler :=
  unfold_handlers; simpl in *; repeat (case_match; simpl in *; try done); try done.

Lemma findUserByEmail_Some st email k u :
  findUserByEmail st email = Some (k, u) → users st !! k = Some u.
Proof.
  unfold findUserByEmail. intros H. apply find_some in H as [H _].
  apply list_elem_of_In in H. by apply elem_of_map_to_list in H.
Qed.

(** Users are only added or rewritten in place. *)
Lemma users_step st ev k :
  users (step st ev).1 !! k = users st !! k
  ∨ (is_Some (users (step st ev).1 !! k) ∧ (is_Some (users st !! k) ∨ k ≠ "")).
Proof.
  destruct ev; simpl; crush_handler; auto;
    repeat match goal with
    | H : findUserByEmail _ _ = Some _ |- _ => apply findUserByEmail_Some in H
    end;
    match goal with
    | |- context [ <[?j := _]> _ !! k ] =>
        destruct (decide (j = k)) as [<-|];
        [ rewrite lookup_insert_eq | rewrite lookup_insert_ne by done; auto ]
    | _ => idtac
    end; try (right; split; [done|]); eauto.
Qed.

Lemma users_mono st ev k :
  is_Some (users st !! k) → is_Some (users (step st ev).1 !! k).
Proof.
  intros Hk. destruct (users_step st ev k) as [-> | [? _]]; done.
Qed.


(** Chats are only added or rewritten in place. *)
Lemma chats_step st ev k :
  chats (step st ev).1 !! k = chats st !! k
  ∨ (is_Some (chats (step st ev).1 !! k) ∧ (is_Some (chats st !! k) ∨ k ≠ "")).
Proof.
  destruct ev; simpl; crush_handler; auto;
    match goal with
    | |- context [ <[?j := _]> _ !! k ] =>
        destruct (decide (j = k)) as [<-|];
        [ rewrite lookup_insert_eq | rewrite lookup_insert_ne by done; auto ]
    | _ => idtac
    end; try (right; split; [done|]); eauto.
Qed.

Lemma activeCalls_step st ev :
  activeCalls st !! "" = None → activeCalls (step st ev).1 !! "" = None.
Proof.
  intros Hk. destruct ev; simpl; crush_handler; simplify_map_eq; try done.
Qed.

Lemma ids_ok_step st ev : ids_ok st → ids_ok (step st ev).1.
Proof.
  intros (Hu & Hc & Ha). repeat split.
  - destruct (users_step st ev "") as [-> | [_ [[? ?] | ?]]]; congruence.
  - destruct (chats_step st ev "") as [-> | [_ [[? ?] | ?]]]; congruence.
  - by apply activeCalls_step.
Qed.


Lemma elem_of_OMap_set {V} (m : OMap.t V) k v kv :
  kv ∈ OMap.set m k v → kv ∈ m ∨ kv = (k, v).
Proof.
  induction m as [|[k' v'] m IH]; simpl.
  - rewrite list_elem_of_singleton. auto.
  - case_bool_decide; rewrite !elem_of_cons; intuition.
Qed.

Lemma elem_of_OMap_set_new {V} (m : OMap.t V) k v : (k, v) ∈ OMap.set m k v.
Proof.
  induction m as [|[k' v'] m IH]; simpl.
  - apply list_elem_of_here.
  - case_bool_decide; [apply list_elem_of_here | by apply list_elem_of_further].
Qed.

Lemma elem_of_OMap_set_old {V} (m : OMap.t V) k v kv :
  kv ∈ m → kv.1 ≠ k → kv ∈ OMap.set m k v.
Proof.
  intros Hin Hne. induction m as [|[k' v'] m IH]; simpl.
  - by apply not_elem_of_nil in Hin.
  - apply elem_of_cons in Hin as [-> | Hin]; simpl in *.
    + rewrite bool_decide_false by done. apply list_elem_of_here.
    + case_bool_decide; apply list_elem_of_further; auto.
Qed.

Lemma elem_of_OMap_delete {V} (m : OMap.t V) k kv :
  kv ∈ OMap.delete m k ↔ kv ∈ m ∧ kv.1 ≠ k.
Proof. unfold OMap.delete. rewrite list_elem_of_filter. tauto. Qed.

Lemma OMap_get_Some {V} (m : OMap.t V) k v : OMap.get m k = Some v → (k, v) ∈ m.
Proof.
  unfold OMap.get. destruct (find _ m) as [[k' v']|] eqn:Hf; [|done].
  simpl. intros [= ->]. apply find_some in Hf as [Hin Hk].
  apply bool_decide_eq_true in Hk. simpl in Hk. subst.
  by apply list_elem_of_In.
Qed.

(** What a step does to the connected sockets and to the session map. *)
Lemma sockets_step st ev :
  sockets (step st ev).1 =
    match ev with
    | Connection socket => <[socket := None]> (sockets st)
    | Authenticate socket (Some userId) _ =>
        match users st !! userId with
        | Some _ => <[socket := Some userId]> (sockets st)
        | None => sockets st
        end
    | Disconnect socket _ => delete socket (sockets st)
    | _ => sockets st
    end.
Proof. destruct ev; simpl; crush_handler. Qed.

Lemma socketUsers_step st ev :
  socketUsers (step st ev).1 =
    match ev with
    | Authenticate socket (Some userId) _ =>
        match users st !! userId with
        | Some _ => OMap.set (socketUsers st) socket userId
        | None => socketUsers st
        end
    | Disconnect socket _ =>
        if truthy (OMap.get (socketUsers st) socket)
        then OMap.delete (socketUsers st) socket else socketUsers st
    | _ => socketUsers st
    end.
Proof. destruct ev; simpl; crush_handler. Qed.

Lemma sessions_ok_step st ev : ids_ok st → sessions_ok st → sessions_ok (step st ev).1.
Proof.
  intros (Hid & _) [Hconn Hsock]. split.
  - intros s u Hin. split; [|apply users_mono]; revert Hin;
      rewrite ?sockets_step, socketUsers_step.
    + destruct ev; try apply Hconn.
      * intros Hin. apply Hconn in Hin as [Hin _]. rewrite lookup_insert. by case_decide.
      * destruct decoded as [userId|]; [|apply Hconn].
        destruct (users st !! userId); [|apply Hconn].
        intros [Hin | [= -> ->]]%elem_of_OMap_set.
        -- apply Hconn in Hin as [Hin _]. rewrite lookup_insert. by case_decide.
        -- by rewrite lookup_insert_eq.
      * destruct (OMap.get (socketUsers st) socket) as [userId|] eqn:Hget; simpl.
        -- case_bool_decide.
           ++ intros [Hin Hne]%elem_of_OMap_delete. simpl in Hne.
              rewrite lookup_delete_ne by done. by eapply Hconn.
           ++ subst userId. apply OMap_get_Some, Hconn in Hget as [_ [? ?]]. congruence.
        -- intros Hin. destruct (decide (s = socket)) as [->|Hne].
           ++ exfalso. unfold OMap.get in Hget.
              destruct (find _ (socketUsers st)) eqn:Hf; [done|].
              apply list_elem_of_In in Hin.
              eapply find_none in Hf; [|exact Hin]. simpl in Hf.
              by apply bool_decide_eq_false in Hf.
           ++ rewrite lookup_delete_ne by done. by eapply Hconn.
    + destruct ev; try apply Hconn.
      * destruct decoded as [userId|]; [|apply Hconn].
        destruct (users st !! userId) eqn:Hu; [|apply Hconn].
        intros [Hin | [= -> ->]]%elem_of_OMap_set; [by eapply Hconn | by rewrite Hu].
      * destruct (truthy _); [|apply Hconn].
        intros [Hin _]%elem_of_OMap_delete. by eapply Hconn.
  - intros s u. rewrite sockets_step, socketUsers_step.
    destruct ev; try apply Hsock.
    + rewrite lookup_insert. case_decide; [done | apply Hsock].
    + destruct decoded as [userId|]; [|apply Hsock].
      destruct (users st !! userId) eqn:Hu; [|apply Hsock].
      rewrite lookup_insert. case_decide as Hs.
      * intros [= <-]. subst. apply elem_of_OMap_set_new.
      * intros Hin%Hsock. by apply elem_of_OMap_set_old.
    + rewrite lookup_delete. case_decide as Hs; [done|].
      intros Hin%Hsock. destruct (truthy _); [|done].
      apply elem_of_OMap_delete. split; [done|]. simpl. congruence.
Qed.


(** *** The friend graph *)

Lemma edge_in_friends_of fs a b : edge_in fs a b ↔ b ∈ friends_of fs a.
Proof.
  unfold edge_in, friends_of. destruct (fs !! a) as [s|]; simpl.
  - split; [by intros (? & [= <-] & ?) | eauto].
  - split; [by intros (? & [=] & ?) | by intros ?%not_elem_of_nil].
Qed.

Lemma friends_of_insert fs k s a :
  friends_of (<[k := s]> fs) a = if decide (k = a) then s else friends_of fs a.
Proof. unfold friends_of. rewrite lookup_insert. by case_decide. Qed.

Lemma friends_of_ensure fs k a :
  friends_of (if bool_decide (is_Some (fs !! k)) then fs else <[k := []]> fs) a
  = friends_of fs a.
Proof.
  case_bool_decide as Hk; [done|]. rewrite friends_of_insert.
  case_decide; [subst|done]. unfold friends_of.
  destruct (fs !! a); [|done]. by destruct Hk.
Qed.

Lemma friends_of_addFriends fs u f a :
  friends_of (addFriends fs u f) a =
    let s3 x := if decide (u = x) then set_add (friends_of fs u) f else friends_of fs x in
    if decide (f = a) then set_add (s3 f) u else s3 a.
Proof.
  unfold addFriends. cbv zeta.
  set (fs1 := if bool_decide (is_Some (fs !! u)) then fs else <[u := []]> fs).
  set (fs2 := if bool_decide (is_Some (fs1 !! f)) then fs1 else <[f := []]> fs1).
  assert (H2 : ∀ x, friends_of fs2 x = friends_of fs x).
  { intros x. unfold fs2, fs1. by rewrite !friends_of_ensure. }
  fold (friends_of fs2 u).
  set (fs3 := <[u := set_add (friends_of fs2 u) f]> fs2).
  fold (friends_of fs3 f).
  rewrite friends_of_insert. unfold fs3. rewrite !friends_of_insert, !H2. done.
Qed.

Lemma addFriends_edge fs u f a b :
  edge_in (addFriends fs u f) a b ↔ edge_in fs a b ∨ (a = u ∧ b = f) ∨ (a = f ∧ b = u).
Proof.
  rewrite !edge_in_friends_of, friends_of_addFriends. cbv zeta.
  repeat case_decide; subst; rewrite ?elem_of_set_add; intuition congruence.
Qed.

Lemma friends_of_removeFriends fs u f a :
  friends_of (removeFriends fs u f) a =
    let s1 x := if decide (u = x) then set_delete (friends_of fs u) f else friends_of fs x in
    if decide (f = a) then set_delete (s1 f) u else s1 a.
Proof.
  unfold removeFriends. cbv zeta.
  set (fs1 := match fs !! u with Some s => <[u := set_delete s f]> fs | None => fs end).
  assert (H1 : ∀ x, friends_of fs1 x
                    = if decide (u = x) then set_delete (friends_of fs u) f
                      else friends_of fs x).
  { intros x. unfold fs1, friends_of at 2.
    destruct (fs !! u) as [s|] eqn:Hu; simpl.
    - apply friends_of_insert.
    - case_decide; [subst|done]. unfold friends_of. by rewrite Hu. }
  pose proof (H1 f) as Hf. unfold friends_of at 1 in Hf.
  destruct (fs1 !! f) as [s|] eqn:Hs; simpl in Hf.
  - rewrite friends_of_insert, H1, Hf. done.
  - rewrite H1. destruct (decide (f = a)) as [<-|]; [|done]. by rewrite <- Hf.
Qed.

Lemma removeFriends_edge fs u f a b :
  edge_in (removeFriends fs u f) a b
  ↔ edge_in fs a b ∧ ¬ (a = u ∧ b = f) ∧ ¬ (a = f ∧ b = u).
Proof.
  rewrite !edge_in_friends_of, friends_of_removeFriends. cbv zeta.
  repeat case_decide; subst; rewrite ?elem_of_set_delete; intuition congruence.
Qed.

(** What a step does to the friend graph. *)
Lemma friendships_step st ev :
  friendships (step st ev).1 =
    match ev with
    | Register valid name email _ _ now rnd =>
        if valid && bool_decide (findUserByEmail st email = None)
        then <["user_" +:+ pretty now +:+ rnd := []]> (friendships st)
        else friendships st
    | FriendRequestAccept userId requestId _ =>
        match findPending (default [] (friendRequests st !! userId)) requestId with
        | Some (_, request) => addFriends (friendships st) userId (req_fromUserId request)
        | None => friendships st
        end
    | FriendDelete userId friendId => removeFriends (friendships st) userId friendId
    | _ => friendships st
    end.
Proof.
  destruct ev; simpl; try by crush_handler.
  unfold register. destruct valid; [|done]. simpl.
  destruct (findUserByEmail st email); [done|].
  unfold createDemoChat. by case_match.
Qed.

Lemma friends_ok_step st ev : friends_ok st → enabled st ev → friends_ok (step st ev).1.
Proof.
  unfold friends_ok, edge. intros Hsym Hen. rewrite friendships_step.
  destruct ev; try apply Hsym.
  - destruct valid; [|apply Hsym]. simpl. case_bool_decide; [|apply Hsym].
    destruct Hen as [_ Hfresh].
    assert (Hsame : ∀ a b, edge_in (<["user_" +:+ pretty now +:+ rnd := []]>
                                      (friendships st)) a b
                           ↔ edge_in (friendships st) a b).
    { intros a b. rewrite !edge_in_friends_of, friends_of_insert.
      case_decide; [subst a|done]. unfold friends_of. by rewrite Hfresh. }
    intros a b. rewrite !Hsame. apply Hsym.
  - destruct (findPending _ _) as [[idx request]|]; [|apply Hsym].
    intros a b. rewrite !addFriends_edge.
    intros [?%Hsym | [[-> ->] | [-> ->]]]; auto.
  - intros a b. rewrite !removeFriends_edge.
    intros (?%Hsym & ? & ?). split_and!; [done | tauto | tauto].
Qed.

(** *** The initial state *)

Lemma friendships_init now :
  friendships (init now) =
    <["demo_user_3" := ["demo_user_1"]]>
      (<["demo_user_2" := ["demo_user_1"]]>
         (<["demo_user_1" := ["demo_user_2"; "demo_user_3"]]> ∅)).
Proof. vm_compute. reflexivity. Qed.

Lemma ids_ok_init now : ids_ok (init now).
Proof. by vm_compute. Qed.

Lemma sessions_ok_init now : sessions_ok (init now).
Proof.
  split.
  - intros s u Hin. by apply not_elem_of_nil in Hin.
  - intros s u. replace (sockets (init now)) with (∅ : gmap string (option string))
      by (vm_compute; reflexivity).
    by rewrite lookup_empty.
Qed.

Lemma friends_ok_init now : friends_ok (init now).
Proof.
  intros a b. unfold edge. rewrite !edge_in_friends_of. unfold friends_of.
  rewrite friendships_init, !lookup_insert.
  repeat case_decide; subst; simpl; rewrite ?lookup_empty; simpl;
    rewrite ?elem_of_cons, ?elem_of_nil; intuition congruence.
Qed.

(** *** Reachable states *)

Lemma reachable_inv st : reachable st → inv st.
Proof.
  induction 1 as [now | st ev _ (Hids & Hsess & Hfr) Hen].
  - split_and!; [apply ids_ok_init | apply sessions_ok_init | apply friends_ok_init].
  - split_and!;
      [by apply ids_ok_step | by apply sessions_ok_step | by apply friends_ok_step].
Qed.

Lemma reachable_run st evs : reachable st → run_enabled st evs → reachable (run st evs).1.
Proof.
  revert st. induction evs as [|ev evs IH]; intros st Hst Hen; [done|].
  destruct Hen as [Hev Hen]. simpl. apply IH; [|done].
  by constructor.
Qed.



(** *** Accepted events *)

Lemma socket_userId_Some st socket userId :
  socket_userId st socket = Some userId ↔ sockets st !! socket = Some (Some userId).
Proof.
  unfold socket_userId. destruct (sockets st !! socket) as [[u|]|]; simpl; split; congruence.
Qed.

(** In a reachable state the user behind an authenticated socket is
    registered under a non-empty id, and a socket is found for that user. *)
Lemma reachable_socket_user st socket userId :
  reachable st → socket_userId st socket = Some userId →
  userId ≠ "" ∧ is_Some (users st !! userId) ∧ is_Some (getSocketByUserId st userId).
Proof.
  intros ((Hu & _) & (Hconn & Hsock) & _)%reachable_inv Hs%socket_userId_Some.
  apply Hsock in Hs. destruct (Hconn _ _ Hs) as [_ Hreg]. split_and!; [|done|].
  - intros ->. rewrite Hu in Hreg. by eapply is_Some_None.
  - unfold getSocketByUserId.
    destruct (find _ (socketUsers st)) as [[s u]|] eqn:Hfind.
    + apply find_some in Hfind as [Hin _]. apply list_elem_of_In in Hin.
      destruct (Hconn s u Hin) as [Hs' _]. by rewrite bool_decide_true.
    + apply list_elem_of_In in Hs. eapply find_none in Hfind; [|exact Hs].
      simpl in Hfind. by apply bool_decide_eq_false in Hfind.
Qed.

Lemma reachable_chat_id st chatId chat :
  reachable st → chats st !! chatId = Some chat → chatId ≠ "".
Proof. intros ((_ & Hc & _) & _)%reachable_inv Hchat ->. congruence. Qed.

Lemma reachable_call_id st callId callData :
  reachable st → activeCalls st !! callId = Some callData → callId ≠ "".
Proof. intros ((_ & _ & Ha) & _)%reachable_inv Hcall ->. congruence. Qed.

(** [send_message] when every guard of lines 665-671 passes. *)
Lemma send_message_accepted st socket chatId text now rnd userId chat :
  reachable st →
  socket_userId st socket = Some userId →
  text ≠ "" →
  chats st !! chatId = Some chat →
  userId ∈ chat_participants chat →
  ∃ user, users st !! userId = Some user ∧
    send_message st socket (Some chatId) (Some text) now rnd =
      let message := newMessage user userId chatId text now rnd in
      let fanout :=
        foldl (deliver st chatId message userId) ([], chat_unreadCount chat)
          (chat_participants chat) in
      (with_chats st
         (<[chatId :=
              mkChat (chat_id chat) (chat_name chat) (chat_type chat)
                (chat_participants chat) (appendMessage (chat_messages chat) message)
                (chat_createdAt chat) now (Some message) fanout.2]> (chats st)),
       fanout.1).
Proof.
  intros Hst Hs Htext Hchat Hin.
  destruct (reachable_socket_user _ _ _ Hst Hs) as (Hne & [user Huser] & _).
  pose proof (reachable_chat_id _ _ _ Hst Hchat) as Hcne.
  exists user. split; [done|].
  unfold send_message. rewrite Hs. cbn [truthy].
  rewrite !bool_decide_true by done. cbn [negb orb].
  rewrite Hchat. unfold includes. rewrite bool_decide_true by done. cbn [negb].
  by rewrite Huser.
Qed.

(** The loop of lines 693-706 as a whole. *)
Lemma deliver_foldl st chatId message userId participants acc :
  let r := foldl (deliver st chatId message userId) acc participants in
  r.1 = acc.1 ++ omap (λ p, (λ s, (s, new_message chatId message))
                              <$> getSocketByUserId st p) participants
  ∧ default 0%nat r.2
    = (default 0%nat acc.2
       + length (filter (λ p, p ≠ userId ∧ getSocketByUserId st p = None) participants))%nat
  ∧ (filter (λ p, p ≠ userId ∧ getSocketByUserId st p = None) participants = [] →
     r.2 = acc.2).
Proof.
  revert acc. induction participants as [|p ps IH]; intros acc; simpl.
  - rewrite app_nil_r. split_and!; [done | lia | done].
  - destruct (IH (deliver st chatId message userId acc p)) as (IH1 & IH2 & IH3).
    rewrite IH1, IH2. clear IH1 IH2. rewrite filter_cons. unfold deliver in *.
    destruct (getSocketByUserId st p) as [s|] eqn:Hs; simpl.
    + rewrite decide_False by (intros [_ ?]; done).
      split_and!; [by rewrite <- app_assoc | done | done].
    + case_bool_decide as Hp; simpl.
      * rewrite decide_True by done. simpl. split_and!; [done | lia | done].
      * rewrite decide_False by tauto. done.
Qed.


(** In a reachable state a socket is found for a user exactly when the user
    is online in the sense of [isUserOnline]. *)
Lemma getSocketByUserId_None_offline st userId :
  reachable st →
  getSocketByUserId st userId = None ↔ isUserOnline st userId = false.
Proof.
  intros (_ & (Hconn & _) & _)%reachable_inv.
  unfold getSocketByUserId, isUserOnline, includes, OMap.values.
  rewrite bool_decide_eq_false, list_elem_of_fmap.
  destruct (find _ (socketUsers st)) as [[s u]|] eqn:Hfind.
  - apply find_some in Hfind as [Hin Hu]. apply bool_decide_eq_true in Hu. simpl in Hu.
    apply list_elem_of_In in Hin. destruct (Hconn s u Hin) as [Hs _].
    rewrite bool_decide_true by done. split; [done|].
    intros Hnot. exfalso. apply Hnot. by exists (s, u).
  - split; [|done]. intros _ ([s u] & -> & Hin).
    apply list_elem_of_In in Hin. eapply find_none in Hfind; [|exact Hin].
    by apply bool_decide_eq_false in Hfind.
Qed.

End V1Facts.

Lemma demo_state_reachable : V1.reachable demo_state.
Proof.
  apply V1Facts.reachable_run; [constructor|].
  vm_compute. repeat split; eauto.
Qed.

Lemma demo_state_chat : V1.chats demo_state !! "demo_chat_demo_user_1" = Some demo_chat.
Proof. vm_compute. reflexivity. Qed.

(** ** The cut of the message history (C1) *)

Lemma V1_appendMessage_spec messages message :
  let pushed := messages ++ [message] in
  ((1000 < length pushed)%nat →
   length (V1.appendMessage messages message) = 100%nat
   ∧ V1.appendMessage messages message = drop (length pushed - 100) pushed)
  ∧ ((length pushed ≤ 1000)%nat → V1.appendMessage messages message = pushed).
Proof.
  unfold V1.appendMessage. cbv zeta. split; intros Hlen.
  - rewrite bool_decide_true by done. split; [|done].
    apply slice_last_length. lia.
  - rewrite bool_decide_false by lia. done.
Qed.

Lemma V2_appendMessage_spec messages message :
  let pushed := messages ++ [message] in
  ((1000 < length pushed)%nat →
   length (V2.appendMessage messages message) = 1000%nat
   ∧ V2.appendMessage messages message = drop (length pushed - 1000) pushed)
  ∧ ((length pushed ≤ 1000)%nat → V2.appendMessage messages message = pushed).
Proof.
  unfold V2.appendMessage. cbv zeta. split; intros Hlen.
  - rewrite bool_decide_true by done. split; [|done].
    apply slice_last_length. lia.
  - rewrite bool_decide_false by lia. done.
Qed.

(** [V2.send_message] on a known chat. *)
Lemma V2_send_message_known st socket message chatId chat :
  V2.msg_chatId message = Some chatId →
  V2.chats st !! chatId = Some chat →
  V2.send_message st socket message =
    (V2.with_chats st
       (<[chatId :=
            V2.mkChat (V2.chat_id chat) (V2.chat_name chat) (V2.chat_participants chat)
              (V2.appendMessage (V2.chat_messages chat) message) (V2.chat_createdAt chat)
              (V2.msg_text message)]> (V2.chats st)),
     omap (λ userId,
             (λ userSocket, (userSocket, V2.new_message (Some chatId) message))
               <$> V2.getSocketByUserId st userId)
          (filter (λ userId, Some userId ≠ V2.msg_senderId message)
             (V2.chat_participants chat))).
Proof. intros Hid Hchat. unfold V2.send_message. rewrite Hid. simpl. by rewrite Hchat. Qed.

(** C1, version by version.  A send that brings the history of a chat above
    1000 entries leaves exactly the 100 most recent ones in version 1, and
    exactly the 1000 most recent ones in version 2; a send that does not bring
    it above 1000 keeps the whole history with the new message at its end. *)
Theorem history_cut_per_version :
  (∀ st socket chatId text now rnd userId chat,
     V1.reachable st →
     V1.socket_userId st socket = Some userId →
     text ≠ "" →
     V1.chats st !! chatId = Some chat →
     userId ∈ V1.chat_participants chat →
     ∃ user chat',
       V1.users st !! userId = Some user
       ∧ V1.chats (V1.send_message st socket (Some chatId) (Some text) now rnd).1 !! chatId
         = Some chat'
       ∧ let pushed :=
           V1.chat_messages chat ++ [V1.newMessage user userId chatId text now rnd] in
         ((1000 < length pushed)%nat →
          length (V1.chat_messages chat') = 100%nat
          ∧ V1.chat_messages chat' = drop (length pushed - 100) pushed)
         ∧ ((length pushed ≤ 1000)%nat → V1.chat_messages chat' = pushed))
  ∧ (∀ st socket message chatId chat,
       V2.msg_chatId message = Some chatId →
       V2.chats st !! chatId = Some chat →
       ∃ chat',
         V2.chats (V2.send_message st socket message).1 !! chatId = Some chat'
         ∧ let pushed := V2.chat_messages chat ++ [message] in
           ((1000 < length pushed)%nat →
            length (V2.chat_messages chat') = 1000%nat
            ∧ V2.chat_messages chat' = drop (length pushed - 1000) pushed)
           ∧ ((length pushed ≤ 1000)%nat → V2.chat_messages chat' = pushed)).
Proof.
  split.
  - intros st socket chatId text now rnd userId chat Hst Hs Htext Hchat Hin.
    destruct (V1Facts.send_message_accepted st socket chatId text now rnd userId chat)
      as (user & Huser & ->); [done..|].
    eexists user, _. split_and!; [done | apply lookup_insert_eq |].
    apply V1_appendMessage_spec.
  - intros st socket message chatId chat Hid Hchat.
    rewrite (V2_send_message_known _ _ _ _ _ Hid Hchat).
    eexists. split; [apply lookup_insert_eq|]. apply V2_appendMessage_spec.
Qed.

Lemma history_cut_per_version_witness :
  (∃ user chat',
     V1.users demo_state !! "demo_user_1" = Some user
     ∧ V1.chats (V1.send_message demo_state "c1" (Some "demo_chat_demo_user_1")
                   (Some "hi") 20 "k3x9") .1 !! "demo_chat_demo_user_1" = Some chat'
     ∧ let pushed :=
         V1.chat_messages demo_chat
           ++ [V1.newMessage user "demo_user_1" "demo_chat_demo_user_1" "hi" 20 "k3x9"] in
       ((1000 < length pushed)%nat →
        length (V1.chat_messages chat') = 100%nat
        ∧ V1.chat_messages chat' = drop (length pushed - 100) pushed)
       ∧ ((length pushed ≤ 1000)%nat → V1.chat_messages chat' = pushed))
  ∧ (∃ chat',
       V2.chats (V2.send_message (v2_state 1000) "sa" v2_message).1 !! "c" = Some chat'
       ∧ let pushed := V2.chat_messages (v2_chat 1000) ++ [v2_message] in
         ((1000 < length pushed)%nat →
          length (V2.chat_messages chat') = 1000%nat
          ∧ V2.chat_messages chat' = drop (length pushed - 1000) pushed)
         ∧ ((length pushed ≤ 1000)%nat → V2.chat_messages chat' = pushed)).
Proof.
  split.
  - apply (proj1 history_cut_per_version demo_state "c1" "demo_chat_demo_user_1" "hi" 20
             "k3x9" "demo_user_1" demo_chat).
    + exact demo_state_reachable.
    + vm_compute. reflexivity.
    + discriminate.
    + exact demo_state_chat.
    + vm_compute. do 1 constructor.
  - apply (proj2 history_cut_per_version (v2_state 1000) "sa" v2_message "c"
             (v2_chat 1000)).
    + reflexivity.
    + vm_compute. reflexivity.
Defined.

(** In version 2 a history of 1000 entries that receives one more message is
    cut to 1000 entries, not to 100. *)
Lemma history_cut_v2_counterexample :
  ∃ chat',
    V2.chats (V2.send_message (v2_state 1000) "sa" v2_message).1 !! "c" = Some chat'
    ∧ (1000 < length (V2.chat_messages (v2_chat 1000) ++ [v2_message]))%nat
    ∧ length (V2.chat_messages chat') = 1000%nat
    ∧ length (V2.chat_messages chat') ≠ 100%nat.
Proof.
  eexists. split; [vm_compute; reflexivity|].
  split_and!; [vm_compute; lia | vm_compute; reflexivity | vm_compute; lia].
Qed.

(** Version 1 on a history of 1000 entries: 100 are left. *)
Example history_cut_v1_demo :
  let m := V1.mkMessage "msg_1_a" "x" "demo_user_1" "A" "A" 1 "c" in
  length (V1.appendMessage (replicate 1000 m) m) = 100%nat.
Proof. vm_compute. reflexivity. Qed.

(** ** Unread counter (C2) *)

(** C2.  A successful send by a participant raises [chat.unreadCount] by the
    number of participants other than the sender for whom no socket is
    found, and a read of the history by a participant sets it to 0. *)
Theorem unread_counts_offline_participants :
  (∀ st socket chatId text now rnd userId chat,
     V1.reachable st →
     V1.socket_userId st socket = Some userId →
     text ≠ "" →
     V1.chats st !! chatId = Some chat →
     userId ∈ V1.chat_participants chat →
     ∃ chat',
       V1.chats (V1.send_message st socket (Some chatId) (Some text) now rnd).1 !! chatId
       = Some chat'
       ∧ V1.unread chat'
         = (V1.unread chat
            + length (filter (λ p, p ≠ userId ∧ V1.getSocketByUserId st p = None)
                        (V1.chat_participants chat)))%nat)
  ∧ (∀ st userId chatId chat,
       V1.chats st !! chatId = Some chat →
       userId ∈ V1.chat_participants chat →
       ∃ chat',
         V1.chats (V1.getMessages st userId chatId).1.1 !! chatId = Some chat'
         ∧ V1.chat_unreadCount chat' = Some 0%nat
         ∧ V1.unread chat' = 0%nat).
Proof.
  split.
  - intros st socket chatId text now rnd userId chat Hst Hs Htext Hchat Hin.
    destruct (V1Facts.send_message_accepted st socket chatId text now rnd userId chat)
      as (user & Huser & ->); [done..|].
    eexists. split; [apply lookup_insert_eq|].
    unfold V1.unread. cbn [V1.chat_unreadCount].
    apply (V1Facts.deliver_foldl st chatId _ userId (V1.chat_participants chat)
             ([], V1.chat_unreadCount chat)).
  - intros st userId chatId chat Hchat Hin.
    unfold V1.getMessages. rewrite Hchat. unfold includes.
    rewrite bool_decide_true by done. simpl.
    eexists. split; [apply lookup_insert_eq|]. done.
Qed.

Lemma unread_counts_offline_participants_witness :
  (∃ chat',
     V1.chats (V1.send_message demo_state "c1" (Some "demo_chat_demo_user_1")
                 (Some "hi") 20 "k3x9").1 !! "demo_chat_demo_user_1" = Some chat'
     ∧ V1.unread chat'
       = (V1.unread demo_chat
          + length (filter (λ p, p ≠ "demo_user_1"
                                 ∧ V1.getSocketByUserId demo_state p = None)
                      (V1.chat_participants demo_chat)))%nat)
  ∧ (∃ chat',
       V1.chats (V1.getMessages demo_state "demo_user_3" "demo_chat_demo_user_1").1.1
         !! "demo_chat_demo_user_1" = Some chat'
       ∧ V1.chat_unreadCount chat' = Some 0%nat
       ∧ V1.unread chat' = 0%nat).
Proof.
  split.
  - apply (proj1 unread_counts_offline_participants demo_state "c1"
             "demo_chat_demo_user_1" "hi" 20 "k3x9" "demo_user_1" demo_chat).
    + exact demo_state_reachable.
    + vm_compute. reflexivity.
    + discriminate.
    + exact demo_state_chat.
    + vm_compute. do 1 constructor.
  - apply (proj2 unread_counts_offline_participants demo_state "demo_user_3"
             "demo_chat_demo_user_1" demo_chat).
    + exact demo_state_chat.
    + vm_compute. do 3 constructor.
Defined.

(** In the sample state one participant is offline: the counter goes to 1. *)
Example unread_demo :
  V1.unread <$> V1.chats (V1.send_message demo_state "c1" (Some "demo_chat_demo_user_1")
                            (Some "hi") 20 "k3x9").1 !! "demo_chat_demo_user_1"
  = Some 1%nat.
Proof. vm_compute. reflexivity. Qed.

(** ** Silent rejection of a message (C4) *)

(** C4.  [send_message] for a chat id that is missing or unknown, or from a
    socket whose user is not a participant of the chat, changes no store and
    emits no event. *)
Theorem send_message_rejected st socket chatId text now rnd :
  (chatId ≫= (V1.chats st !!.) = None
   ∨ ∃ chat, chatId ≫= (V1.chats st !!.) = Some chat
             ∧ ∀ userId, V1.socket_userId st socket = Some userId →
                         userId ∉ V1.chat_participants chat) →
  V1.send_message st socket chatId text now rnd = (st, []).
Proof.
  intros Hrej. unfold V1.send_message.
  destruct (V1.socket_userId st socket) as [userId|] eqn:Hs; [|done].
  case_match; [done|].
  destruct chatId as [chatId|]; [|done]. destruct text as [text|]; [|done].
  simpl in Hrej. destruct Hrej as [-> | (chat & -> & Hnot)]; [done|].
  unfold includes. rewrite bool_decide_false by auto. done.
Qed.

Lemma send_message_rejected_witness :
  V1.send_message demo_state "c1" (Some "chat_404") (Some "hi") 20 "k3x9" = (demo_state, [])
  ∧ V1.send_message demo_state "c3" (Some "demo_chat_demo_user_1") (Some "hi") 20 "k3x9"
    = (demo_state, []).
Proof.
  split.
  - apply (send_message_rejected demo_state "c1" (Some "chat_404") (Some "hi") 20 "k3x9").
    left. vm_compute. reflexivity.
  - apply (send_message_rejected demo_state "c3" (Some "demo_chat_demo_user_1")
             (Some "hi") 20 "k3x9").
    right. exists demo_chat. split; [vm_compute; reflexivity|].
    intros userId Hs. vm_compute in Hs. injection Hs as <-.
    apply (bool_decide_unpack _). vm_compute. exact I.
Defined.

(** ** Symmetry of the friend graph (C3) *)

(** C3.  In every reachable state the friend graph is symmetric; accepting a
    request puts both directions of the edge in, and removing a friend takes
    both directions out. *)
Theorem friendship_symmetric :
  (∀ st, V1.reachable st → ∀ a b, V1.edge st a b ↔ V1.edge st b a)
  ∧ (∀ st userId requestId now requestIndex request,
       V1.findPending (default [] (V1.friendRequests st !! userId)) requestId
       = Some (requestIndex, request) →
       let st' := (V1.acceptFriendRequest st userId requestId now).1.1 in
       V1.edge st' userId (V1.req_fromUserId request)
       ∧ V1.edge st' (V1.req_fromUserId request) userId)
  ∧ (∀ st userId friendId,
       let st' := (V1.removeFriend st userId friendId).1.1 in
       ¬ V1.edge st' userId friendId ∧ ¬ V1.edge st' friendId userId).
Proof.
  split_and!.
  - intros st (_ & _ & Hsym)%V1Facts.reachable_inv a b. split; apply Hsym.
  - intros st userId requestId now requestIndex request Hfind st'.
    pose proof (V1Facts.friendships_step st (V1.FriendRequestAccept userId requestId now))
      as Hfs.
    cbn [V1.step] in Hfs. rewrite Hfind in Hfs.
    unfold V1.edge, st'. rewrite Hfs, !V1Facts.addFriends_edge. auto.
  - intros st userId friendId st'. unfold V1.edge, st'. simpl.
    rewrite !V1Facts.removeFriends_edge. tauto.
Qed.

Lemma friendship_symmetric_witness :
  (V1.edge demo_state "demo_user_1" "demo_user_2"
   ↔ V1.edge demo_state "demo_user_2" "demo_user_1")
  ∧ (let st := (V1.sendFriendRequest demo_state "user_5k3x9q0w2z"
                  (Some "ivan@example.com") 30).1.1 in
     let st' := (V1.acceptFriendRequest st "demo_user_2" "friend_req_30" 31).1.1 in
     V1.edge st' "demo_user_2" "user_5k3x9q0w2z"
     ∧ V1.edge st' "user_5k3x9q0w2z" "demo_user_2").
Proof.
  split.
  - apply (proj1 friendship_symmetric demo_state demo_state_reachable).
  - apply (proj1 (proj2 friendship_symmetric)
             (V1.sendFriendRequest demo_state "user_5k3x9q0w2z"
                (Some "ivan@example.com") 30).1.1
             "demo_user_2" "friend_req_30" 31 0%nat
             (V1.mkFriendRequest "friend_req_30" "user_5k3x9q0w2z" "demo_user_2"
                V1.pending 30 None)).
    vm_compute. reflexivity.
Defined.

(** ** Call signalling (C5, C6, C7) *)

Lemma demo_call_state_reachable : V1.reachable demo_call_state.
Proof.
  apply V1Facts.reachable_run; [constructor|].
  vm_compute. repeat split; eauto.
Qed.

Lemma demo_call_state_call : V1.activeCalls demo_call_state !! "call_40" = Some demo_call.
Proof. vm_compute. reflexivity. Qed.

Lemma elem_of_io_emit st ev socket :
  (socket, ev) ∈ V1.io_emit st ev ↔ is_Some (V1.sockets st !! socket).
Proof.
  unfold V1.io_emit. rewrite list_elem_of_fmap. split.
  - intros (s & [= <-] & Hs). apply list_elem_of_fmap in Hs as ([s' v] & -> & Hs).
    apply elem_of_map_to_list in Hs. simpl. by rewrite Hs.
  - intros [v Hv]. exists socket. split; [done|].
    apply list_elem_of_fmap. exists (socket, v). split; [done|].
    by apply elem_of_map_to_list.
Qed.

(** C5, version by version.  Version 1: a [start_call] by the user of an
    authenticated socket who is a participant of a known chat stores a call
    with status [calling], participants [[userId]] and start time [now],
    emits [incoming_call] with call id, chat id, caller name and type to every
    other participant for whom a socket is found, and then [call_started] with
    the call id and the call to the calling socket.  Version 2: a
    [start_call] on a known chat stores the call under the chat id with all
    participants of the chat, and emits [incoming_call] to the participants
    other than the user of the calling socket; nothing goes to the caller. *)
Theorem start_call_per_version :
  (∀ st socket chatId type now userId chat,
     V1.reachable st →
     V1.socket_userId st socket = Some userId →
     V1.chats st !! chatId = Some chat →
     userId ∈ V1.chat_participants chat →
     ∃ user,
       V1.users st !! userId = Some user
       ∧ let callData := V1.newCall user userId chatId type now in
         let callId := "call_" +:+ pretty now in
         let r := V1.start_call st socket (Some chatId) type now in
         V1.activeCalls r.1 !! callId = Some callData
         ∧ V1.call_id callData = callId
         ∧ V1.call_chatId callData = chatId
         ∧ V1.call_status callData = V1.calling
         ∧ V1.call_participants callData = [userId]
         ∧ V1.call_startTime callData = now
         ∧ r.2 =
             omap (λ p, (λ s, (s, V1.incoming_call callId chatId (V1.user_name user)
                                    (V1.call_type callData)))
                          <$> V1.getSocketByUserId st p)
                  (filter (λ p, p ≠ userId) (V1.chat_participants chat))
             ++ [(socket, V1.call_started callId callData)])
  ∧ (∀ st socket chatId caller type now chat,
       V2.chats st !! chatId = Some chat →
       let r := V2.start_call st socket (Some chatId) caller type now in
       V2.activeCalls r.1 !! chatId
       = Some (V2.mkCall chatId (V2.or_default caller "Unknown")
                 (V2.or_default type "voice") V2.calling (V2.chat_participants chat) now)
       ∧ r.2 =
           omap (λ p, (λ s, (s, V2.incoming_call chatId caller type))
                        <$> V2.getSocketByUserId st p)
                (filter (λ p, Some p ≠ V2.socket_userId st socket)
                   (V2.chat_participants chat))).
Proof.
  split.
  - intros st socket chatId type now userId chat Hst Hs Hchat Hin.
    destruct (V1Facts.reachable_socket_user _ _ _ Hst Hs) as (Hne & [user Huser] & _).
    pose proof (V1Facts.reachable_chat_id _ _ _ Hst Hchat) as Hcne.
    exists user. split; [done|]. cbv zeta.
    unfold V1.start_call. rewrite Hs. cbn [truthy].
    rewrite !bool_decide_true by done. cbn [negb orb].
    rewrite Hchat. unfold includes. rewrite bool_decide_true by done. cbn [negb].
    rewrite Huser. cbn [fst snd V1.activeCalls V1.with_activeCalls V1.newCall V1.call_id
                        V1.call_chatId V1.call_status V1.call_participants
                        V1.call_startTime V1.call_type].
    split_and!; try done. apply lookup_insert_eq.
  - intros st socket chatId caller type now chat Hchat. cbv zeta.
    unfold V2.start_call. simpl. rewrite Hchat. simpl.
    split; [apply lookup_insert_eq | done].
Qed.

Lemma start_call_per_version_witness :
  (∃ user,
     V1.users demo_state !! "demo_user_1" = Some user
     ∧ let callData :=
         V1.newCall user "demo_user_1" "demo_chat_demo_user_1" (Some "video") 40 in
       let callId := "call_" +:+ pretty 40 in
       let r := V1.start_call demo_state "c1" (Some "demo_chat_demo_user_1")
                  (Some "video") 40 in
       V1.activeCalls r.1 !! callId = Some callData
       ∧ V1.call_id callData = callId
       ∧ V1.call_chatId callData = "demo_chat_demo_user_1"
       ∧ V1.call_status callData = V1.calling
       ∧ V1.call_participants callData = ["demo_user_1"]
       ∧ V1.call_startTime callData = 40
       ∧ r.2 =
           omap (λ p, (λ s, (s, V1.incoming_call callId "demo_chat_demo_user_1"
                                  (V1.user_name user) (V1.call_type callData)))
                        <$> V1.getSocketByUserId demo_state p)
                (filter (λ p, p ≠ "demo_user_1") (V1.chat_participants demo_chat))
           ++ [("c1", V1.call_started callId callData)])
  ∧ (let r := V2.start_call (v2_state 0) "sa" (Some "c") (Some "A") (Some "video") 7 in
     V2.activeCalls r.1 !! "c"
     = Some (V2.mkCall "c" (V2.or_default (Some "A") "Unknown")
               (V2.or_default (Some "video") "voice") V2.calling
               (V2.chat_participants (v2_chat 0)) 7)
     ∧ r.2 =
         omap (λ p, (λ s, (s, V2.incoming_call "c" (Some "A") (Some "video")))
                      <$> V2.getSocketByUserId (v2_state 0) p)
              (filter (λ p, Some p ≠ V2.socket_userId (v2_state 0) "sa")
                 (V2.chat_participants (v2_chat 0)))).
Proof.
  split.
  - apply (proj1 start_call_per_version demo_state "c1" "demo_chat_demo_user_1"
             (Some "video") 40 "demo_user_1" demo_chat).
    + exact demo_state_reachable.
    + vm_compute. reflexivity.
    + exact demo_state_chat.
    + vm_compute. do 1 constructor.
  - apply (proj2 start_call_per_version (v2_state 0) "sa" "c" (Some "A") (Some "video") 7
             (v2_chat 0)).
    vm_compute. reflexivity.
Defined.

(** The events of the sample call: one [incoming_call] for the connected
    [demo_user_2], none for the offline [demo_user_3], [call_started] for the
    caller. *)
Example start_call_demo :
  (V1.start_call demo_state "c1" (Some "demo_chat_demo_user_1") (Some "video") 40).2
  = [ ("c2", V1.incoming_call "call_40" "demo_chat_demo_user_1" "Анна Иванова" "video");
      ("c1", V1.call_started "call_40" demo_call) ].
Proof. vm_compute. reflexivity. Qed.

(** In version 2 the call of [a] in the chat of [a] and [b] lists both as
    participants, and the caller's socket [sa] receives nothing. *)
Lemma start_call_v2_counterexample :
  let r := V2.start_call (v2_state 0) "sa" (Some "c") (Some "A") (Some "video") 7 in
  V2.socket_userId (v2_state 0) "sa" = Some "a"
  ∧ V2.call_participants <$> V2.activeCalls r.1 !! "c" = Some ["a"; "b"]
  ∧ ["a"; "b"] ≠ ["a"]
  ∧ r.2 = [("sb", V2.incoming_call "c" (Some "A") (Some "video"))].
Proof. vm_compute. split_and!; done. Qed.

(** C6, version by version.  Version 1: [accept_call] for an unknown call id
    does nothing; for a known one, sent from an authenticated socket, it appends
    the user to the participants of the call, sets the status to [active] and
    sends [call_accepted] with the call id, the user id and the call to every
    connected socket.  Version 2: [accept_call] for a chat without call does
    nothing; otherwise it sets the status to [active], leaves the
    participants as they are, and sends [call_accepted] only to the
    participants of the call for whom a socket is found. *)
Theorem accept_call_per_version :
  (∀ st socket callId,
     callId ≫= (V1.activeCalls st !!.) = None →
     V1.accept_call st socket callId = (st, []))
  ∧ (∀ st socket callId userId callData,
       V1.reachable st →
       V1.socket_userId st socket = Some userId →
       V1.activeCalls st !! callId = Some callData →
       let r := V1.accept_call st socket (Some callId) in
       let callData' := V1.joined callData userId in
       V1.activeCalls r.1 !! callId = Some callData'
       ∧ V1.call_participants callData' = V1.call_participants callData ++ [userId]
       ∧ V1.call_status callData' = V1.active
       ∧ r.2 = V1.io_emit st (V1.call_accepted callId userId callData')
       ∧ ∀ s, is_Some (V1.sockets st !! s)
              ↔ (s, V1.call_accepted callId userId callData') ∈ r.2)
  ∧ (∀ st socket chatId,
       chatId ≫= (V2.activeCalls st !!.) = None →
       V2.accept_call st socket chatId = (st, []))
  ∧ (∀ st socket chatId callData,
       V2.activeCalls st !! chatId = Some callData →
       let r := V2.accept_call st socket (Some chatId) in
       ∃ callData',
         V2.activeCalls r.1 !! chatId = Some callData'
         ∧ V2.call_participants callData' = V2.call_participants callData
         ∧ V2.call_status callData' = V2.active
         ∧ r.2 = omap (λ p, (λ s, (s, V2.call_accepted chatId (V2.call_caller callData)))
                              <$> V2.getSocketByUserId st p)
                      (V2.call_participants callData)).
Proof.
  split_and!.
  - intros st socket callId Hnone. unfold V1.accept_call.
    case_match; [done|]. repeat case_match; try done. simplify_eq/=.
  - intros st socket callId userId callData Hst Hs Hcall.
    destruct (V1Facts.reachable_socket_user _ _ _ Hst Hs) as (Hne & _).
    pose proof (V1Facts.reachable_call_id _ _ _ Hst Hcall) as Hcne.
    cbv zeta. unfold V1.accept_call. rewrite Hs. cbn [truthy].
    rewrite !bool_decide_true by done. cbn [negb orb]. rewrite Hcall.
    cbn [fst snd V1.activeCalls V1.with_activeCalls].
    split_and!; [apply lookup_insert_eq | done | done | done |].
    intros s. by rewrite elem_of_io_emit.
  - intros st socket chatId Hnone. unfold V2.accept_call. by rewrite Hnone.
  - intros st socket chatId callData Hcall. cbv zeta.
    unfold V2.accept_call. simpl. rewrite Hcall. simpl.
    eexists. split_and!; [apply lookup_insert_eq | done..].
Qed.

Lemma accept_call_per_version_witness :
  V1.accept_call demo_state "c2" (Some "call_40") = (demo_state, [])
  ∧ (let r := V1.accept_call demo_call_state "c2" (Some "call_40") in
     let callData' := V1.joined demo_call "demo_user_2" in
     V1.activeCalls r.1 !! "call_40" = Some callData'
     ∧ V1.call_participants callData' = V1.call_participants demo_call ++ ["demo_user_2"]
     ∧ V1.call_status callData' = V1.active
     ∧ r.2 = V1.io_emit demo_call_state (V1.call_accepted "call_40" "demo_user_2" callData')
     ∧ ∀ s, is_Some (V1.sockets demo_call_state !! s)
            ↔ (s, V1.call_accepted "call_40" "demo_user_2" callData') ∈ r.2)
  ∧ V2.accept_call (v2_state 0) "sb" (Some "c") = (v2_state 0, [])
  ∧ (let r := V2.accept_call v2_call_state "sb" (Some "c") in
     ∃ callData',
       V2.activeCalls r.1 !! "c" = Some callData'
       ∧ V2.call_participants callData' = ["a"; "b"]
       ∧ V2.call_status callData' = V2.active
       ∧ r.2 = omap (λ p, (λ s, (s, V2.call_accepted "c" "A"))
                            <$> V2.getSocketByUserId v2_call_state p)
                    ["a"; "b"]).
Proof.
  split_and!.
  - apply (proj1 accept_call_per_version demo_state "c2" (Some "call_40")).
    vm_compute. reflexivity.
  - apply (proj1 (proj2 accept_call_per_version) demo_call_state "c2" "call_40"
             "demo_user_2" demo_call).
    + exact demo_call_state_reachable.
    + vm_compute. reflexivity.
    + exact demo_call_state_call.
  - apply (proj1 (proj2 (proj2 accept_call_per_version)) (v2_state 0) "sb" (Some "c")).
    vm_compute. reflexivity.
  - apply (proj2 (proj2 (proj2 accept_call_per_version)) v2_call_state "sb" "c"
             (V2.mkCall "c" "A" "video" V2.calling ["a"; "b"] 7)).
    vm_compute. reflexivity.
Defined.

(** The user of socket [c3] is not in the sample call, and gets the event. *)
Example accept_call_demo :
  (V1.accept_call demo_call_state "c2" (Some "call_40")).2
  = let callData' := V1.joined demo_call "demo_user_2" in
    [ ("c3", V1.call_accepted "call_40" "demo_user_2" callData');
      ("c1", V1.call_accepted "call_40" "demo_user_2" callData');
      ("c2", V1.call_accepted "call_40" "demo_user_2" callData') ].
Proof. vm_compute. reflexivity. Qed.

(** In version 2, [d] accepts the call of the chat of [a] and [b]: [d] is
    not appended to the participants, and the connected socket [sd] gets no
    [call_accepted]. *)
Lemma accept_call_v2_counterexample :
  let r := V2.accept_call v2_call_state "sd" (Some "c") in
  V2.socket_userId v2_call_state "sd" = Some "d"
  ∧ V2.call_participants <$> V2.activeCalls v2_call_state !! "c" = Some ["a"; "b"]
  ∧ V2.call_participants <$> V2.activeCalls r.1 !! "c" = Some ["a"; "b"]
  ∧ ["a"; "b"] ≠ ["a"; "b"] ++ ["d"]
  ∧ is_Some (V2.sockets v2_call_state !! "sd")
  ∧ r.2 = [("sa", V2.call_accepted "c" "A"); ("sb", V2.call_accepted "c" "A")].
Proof. vm_compute. split_and!; eauto; done. Qed.

(** C7.  In both versions [end_call] for an unknown call does nothing; for a
    known one it sends [call_ended] with the whole seconds between the start
    of the call and [now] to every participant of the call for whom a socket
    is found, and deletes the call, whatever its status. *)
Theorem end_call_ends :
  (∀ st socket callId now,
     callId ≫= (V1.activeCalls st !!.) = None →
     V1.end_call st socket callId now = (st, []))
  ∧ (∀ st socket callId now callData,
       V1.reachable st →
       V1.activeCalls st !! callId = Some callData →
       let r := V1.end_call st socket (Some callId) now in
       V1.activeCalls r.1 !! callId = None
       ∧ r.1 = V1.with_activeCalls st (delete callId (V1.activeCalls st))
       ∧ r.2 = omap (λ p, (λ s, (s, V1.call_ended callId
                                      ((now - V1.call_startTime callData) `div` 1000)))
                            <$> V1.getSocketByUserId st p)
                    (V1.call_participants callData))
  ∧ (∀ st socket chatId now,
       chatId ≫= (V2.activeCalls st !!.) = None →
       V2.end_call st socket chatId now = (st, []))
  ∧ (∀ st socket chatId now callData,
       V2.activeCalls st !! chatId = Some callData →
       let r := V2.end_call st socket (Some chatId) now in
       V2.activeCalls r.1 !! chatId = None
       ∧ r.1 = V2.with_activeCalls st (delete chatId (V2.activeCalls st))
       ∧ r.2 = omap (λ p, (λ s, (s, V2.call_ended chatId
                                      ((now - V2.call_startTime callData) `div` 1000)))
                            <$> V2.getSocketByUserId st p)
                    (V2.call_participants callData)).
Proof.
  split_and!.
  - intros st socket callId now Hnone. unfold V1.end_call.
    case_match; [done|]. destruct callId as [callId|]; [|done].
    simpl in Hnone. by rewrite Hnone.
  - intros st socket callId now callData Hst Hcall.
    pose proof (V1Facts.reachable_call_id _ _ _ Hst Hcall) as Hcne.
    cbv zeta. unfold V1.end_call. cbn [truthy].
    rewrite bool_decide_true by done. cbn [negb]. rewrite Hcall.
    split_and!; [apply lookup_delete_eq | done..].
  - intros st socket chatId now Hnone. unfold V2.end_call. by rewrite Hnone.
  - intros st socket chatId now callData Hcall. cbv zeta.
    unfold V2.end_call. simpl. rewrite Hcall.
    split_and!; [apply lookup_delete_eq | done..].
Qed.

Lemma end_call_ends_witness :
  V1.end_call demo_state "c2" (Some "call_40") 12345 = (demo_state, [])
  ∧ (let r := V1.end_call demo_call_state "c2" (Some "call_40") 12345 in
     V1.activeCalls r.1 !! "call_40" = None
     ∧ r.1 = V1.with_activeCalls demo_call_state
               (delete "call_40" (V1.activeCalls demo_call_state))
     ∧ r.2 = omap (λ p, (λ s, (s, V1.call_ended "call_40"
                                    ((12345 - V1.call_startTime demo_call) `div` 1000)))
                          <$> V1.getSocketByUserId demo_call_state p)
                  (V1.call_participants demo_call))
  ∧ V2.end_call (v2_state 0) "sb" (Some "c") 9007 = (v2_state 0, [])
  ∧ (let r := V2.end_call v2_call_state "sb" (Some "c") 9007 in
     V2.activeCalls r.1 !! "c" = None
     ∧ r.1 = V2.with_activeCalls v2_call_state (delete "c" (V2.activeCalls v2_call_state))
     ∧ r.2 = omap (λ p, (λ s, (s, V2.call_ended "c" ((9007 - 7) `div` 1000)))
                          <$> V2.getSocketByUserId v2_call_state p)
                  ["a"; "b"]).
Proof.
  split_and!.
  - apply (proj1 end_call_ends demo_state "c2" (Some "call_40") 12345).
    vm_compute. reflexivity.
  - apply (proj1 (proj2 end_call_ends) demo_call_state "c2" "call_40" 12345 demo_call).
    + exact demo_call_state_reachable.
    + exact demo_call_state_call.
  - apply (proj1 (proj2 (proj2 end_call_ends)) (v2_state 0) "sb" (Some "c") 9007).
    vm_compute. reflexivity.
  - apply (proj2 (proj2 (proj2 end_call_ends)) v2_call_state "sb" "c" 9007
             (V2.mkCall "c" "A" "video" V2.calling ["a"; "b"] 7)).
    vm_compute. reflexivity.
Defined.

(** 12305 ms after the start the caller is told 12 seconds. *)
Example end_call_demo :
  (V1.end_call demo_call_state "c2" (Some "call_40") 12345).2
  = [("c1", V1.call_ended "call_40" 12)].
Proof. vm_compute. reflexivity. Qed.

(** ** Private chat of two users (C8) *)

(** C8.  [createChatBetweenUsers] returns the chat stored under either order
    of the pair without touching the state; otherwise, for two registered
    users, it adds exactly one chat: private, with participants
    [[userId1; userId2]] and one message, sent by [userId1].  Calling it
    again gives the same chat id and changes nothing. *)
Theorem createChatBetweenUsers_idempotent :
  (∀ st userId1 userId2 now existingChat,
     V1.chats st !! V1.privateChatId userId1 userId2 = Some existingChat
     ∨ (V1.chats st !! V1.privateChatId userId1 userId2 = None
        ∧ V1.chats st !! V1.privateChatId userId2 userId1 = Some existingChat) →
     V1.createChatBetweenUsers st userId1 userId2 now
     = (st, Some (V1.chat_id existingChat)))
  ∧ (∀ st userId1 userId2 now user1 user2,
       V1.chats st !! V1.privateChatId userId1 userId2 = None →
       V1.chats st !! V1.privateChatId userId2 userId1 = None →
       V1.users st !! userId1 = Some user1 →
       V1.users st !! userId2 = Some user2 →
       ∃ newChat seed,
         V1.createChatBetweenUsers st userId1 userId2 now
         = (V1.with_chats st
              (<[V1.privateChatId userId1 userId2 := newChat]> (V1.chats st)),
            Some (V1.privateChatId userId1 userId2))
         ∧ size (<[V1.privateChatId userId1 userId2 := newChat]> (V1.chats st))
           = S (size (V1.chats st))
         ∧ V1.chat_id newChat = V1.privateChatId userId1 userId2
         ∧ V1.chat_type newChat = V1.private
         ∧ V1.chat_participants newChat = [userId1; userId2]
         ∧ V1.chat_messages newChat = [seed]
         ∧ V1.msg_senderId seed = userId1)
  ∧ (∀ st userId1 userId2 now now',
       let r := V1.createChatBetweenUsers st userId1 userId2 now in
       V1.createChatBetweenUsers r.1 userId1 userId2 now' = r).
Proof.
  split_and!.
  - intros st userId1 userId2 now existingChat [H12 | [H12 H21]];
      unfold V1.createChatBetweenUsers; cbv zeta; rewrite H12; [done|].
    by rewrite H21.
  - intros st userId1 userId2 now user1 user2 H12 H21 Hu1 Hu2.
    unfold V1.createChatBetweenUsers. cbv zeta. rewrite H12, H21, Hu1, Hu2.
    eexists _, _. split_and!; try done. by apply map_size_insert_None.
  - intros st userId1 userId2 now now'. cbv zeta.
    set (r := V1.createChatBetweenUsers st userId1 userId2 now).
    unfold V1.createChatBetweenUsers in r. cbv zeta in r.
    unfold V1.createChatBetweenUsers. cbv zeta.
    destruct (V1.chats st !! V1.privateChatId userId1 userId2) as [c|] eqn:H12.
    { subst r. cbn [fst]. by rewrite H12. }
    destruct (V1.chats st !! V1.privateChatId userId2 userId1) as [c|] eqn:H21.
    { subst r. cbn [fst]. by rewrite H12, H21. }
    destruct (V1.users st !! userId1) as [user1|] eqn:Hu1;
      [destruct (V1.users st !! userId2) as [user2|] eqn:Hu2|]; subst r.
    + cbn [fst V1.chats V1.with_chats]. rewrite lookup_insert_eq. reflexivity.
    + cbn [fst]. by rewrite H12, H21, Hu1, Hu2.
    + cbn [fst]. by rewrite H12, H21, Hu1.
Qed.

Lemma createChatBetweenUsers_idempotent_witness :
  (let st := (V1.createChatBetweenUsers demo_state "demo_user_2" "user_5k3x9q0w2z" 31).1 in
   V1.createChatBetweenUsers st "user_5k3x9q0w2z" "demo_user_2" 32
   = (st, Some (V1.privateChatId "demo_user_2" "user_5k3x9q0w2z")))
  ∧ (∃ newChat seed,
       V1.createChatBetweenUsers demo_state "demo_user_2" "user_5k3x9q0w2z" 31
       = (V1.with_chats demo_state
            (<[V1.privateChatId "demo_user_2" "user_5k3x9q0w2z" := newChat]>
               (V1.chats demo_state)),
          Some (V1.privateChatId "demo_user_2" "user_5k3x9q0w2z"))
       ∧ size (<[V1.privateChatId "demo_user_2" "user_5k3x9q0w2z" := newChat]>
                 (V1.chats demo_state))
         = S (size (V1.chats demo_state))
       ∧ V1.chat_id newChat = V1.privateChatId "demo_user_2" "user_5k3x9q0w2z"
       ∧ V1.chat_type newChat = V1.private
       ∧ V1.chat_participants newChat = ["demo_user_2"; "user_5k3x9q0w2z"]
       ∧ V1.chat_messages newChat = [seed]
       ∧ V1.msg_senderId seed = "demo_user_2").
Proof.
  split.
  - cbv zeta.
    destruct (V1.chats (V1.createChatBetweenUsers demo_state "demo_user_2"
                          "user_5k3x9q0w2z" 31).1
                !! V1.privateChatId "demo_user_2" "user_5k3x9q0w2z")
      as [existingChat|] eqn:Hchat; [|vm_compute in Hchat; discriminate].
    assert (Hid : V1.chat_id existingChat = V1.privateChatId "demo_user_2" "user_5k3x9q0w2z").
    { vm_compute in Hchat. injection Hchat as <-. reflexivity. }
    rewrite <- Hid.
    apply (proj1 createChatBetweenUsers_idempotent
             (V1.createChatBetweenUsers demo_state "demo_user_2" "user_5k3x9q0w2z" 31).1
             "user_5k3x9q0w2z" "demo_user_2" 32 existingChat).
    right. split; [vm_compute; reflexivity | exact Hchat].
  - apply (proj1 (proj2 createChatBetweenUsers_idempotent) demo_state "demo_user_2"
             "user_5k3x9q0w2z" 31
             (V1.mkUser "demo_user_2" "Иван Петров" "ivan@example.com" "$2a$10$def456" "И"
                0 V1.online 11)
             (V1.mkUser "user_5k3x9q0w2z" "Zoya" "zoya@example.com" "$2a$10$jkl012" "Z"
                5 V1.online 12)).
    + vm_compute. reflexivity.
    + vm_compute. reflexivity.
    + vm_compute. reflexivity.
    + vm_compute. reflexivity.
Defined.

(** In the accept route the first argument is the accepting user: the seed
    message of the chat made for a request of Zoya to [demo_user_2] is sent
    by [demo_user_2]. *)
Example accept_seed_author :
  let st := (V1.sendFriendRequest demo_state "user_5k3x9q0w2z"
               (Some "ivan@example.com") 30).1.1 in
  let st' := (V1.acceptFriendRequest st "demo_user_2" "friend_req_30" 31).1.1 in
  (λ chat, V1.msg_senderId <$> V1.chat_messages chat)
    <$> V1.chats st' !! V1.privateChatId "demo_user_2" "user_5k3x9q0w2z"
  = Some ["demo_user_2"].
Proof. vm_compute. reflexivity. Qed.

(** ** Sender echo in the two versions (C9) *)

Lemma elem_of_fanout_spec resolve echo sender participants p s :
  (p, s) ∈ fanout_spec resolve echo sender participants
  ↔ p ∈ participants ∧ resolve p = Some s ∧ (echo = true ∨ Some p ≠ sender).
Proof.
  unfold fanout_spec. rewrite list_elem_of_omap. split.
  - intros (q & [Hq Hecho]%list_elem_of_filter & Hres).
    destruct (resolve q) as [s'|] eqn:Hr; [|done]. simpl in Hres.
    injection Hres as <- <-. done.
  - intros (Hp & Hres & Hecho). exists p. split.
    + by apply list_elem_of_filter.
    + by rewrite Hres.
Qed.

Lemma omap_fanout_spec {E} resolve echo sender participants (ev : E) :
  omap (λ p, (λ s, (s, ev)) <$> resolve p)
       (filter (λ p, echo = true ∨ Some p ≠ sender) participants)
  = (λ ps, (ps.2, ev)) <$> fanout_spec resolve echo sender participants.
Proof.
  unfold fanout_spec.
  induction (filter _ participants) as [|p ps IH]; [done|]. csimpl.
  destruct (resolve p); csimpl; by rewrite IH.
Qed.

(** C9.  The events of a successful send are those of [fanout_spec] with
    the echo in version 1 and without it in version 2.  So in version 1 the
    sender, for whom a socket is always found, is sent the message; in
    version 2 no delivery is made for the sender, and a socket that no other
    participant resolves to receives nothing; the deliveries for every other
    participant are the same. *)
Theorem fanout_differs_in_sender_echo :
  (∀ st socket chatId text now rnd userId chat,
     V1.reachable st →
     V1.socket_userId st socket = Some userId →
     text ≠ "" →
     V1.chats st !! chatId = Some chat →
     userId ∈ V1.chat_participants chat →
     ∃ user,
       V1.users st !! userId = Some user
       ∧ let message := V1.newMessage user userId chatId text now rnd in
         let emits := (V1.send_message st socket (Some chatId) (Some text) now rnd).2 in
         emits = (λ ps, (ps.2, V1.new_message chatId message))
                   <$> fanout_spec (V1.getSocketByUserId st) true (Some userId)
                         (V1.chat_participants chat)
         ∧ ∃ s, V1.getSocketByUserId st userId = Some s
                ∧ (s, V1.new_message chatId message) ∈ emits)
  ∧ (∀ st socket message chatId chat,
       V2.msg_chatId message = Some chatId →
       V2.chats st !! chatId = Some chat →
       let emits := (V2.send_message st socket message).2 in
       emits = (λ ps, (ps.2, V2.new_message (Some chatId) message))
                 <$> fanout_spec (V2.getSocketByUserId st) false (V2.msg_senderId message)
                       (V2.chat_participants chat)
       ∧ ∀ s, (∀ p, p ∈ V2.chat_participants chat → Some p ≠ V2.msg_senderId message →
                    V2.getSocketByUserId st p ≠ Some s) →
              ∀ ev, (s, ev) ∉ emits)
  ∧ (∀ resolve sender participants p s,
       ((sender, s) ∈ fanout_spec resolve true (Some sender) participants
        ↔ sender ∈ participants ∧ resolve sender = Some s)
       ∧ ((sender, s) ∉ fanout_spec resolve false (Some sender) participants)
       ∧ (p ≠ sender →
          ((p, s) ∈ fanout_spec resolve true (Some sender) participants
           ↔ (p, s) ∈ fanout_spec resolve false (Some sender) participants))).
Proof.
  split_and!.
  - intros st socket chatId text now rnd userId chat Hst Hs Htext Hchat Hin.
    destruct (V1Facts.send_message_accepted st socket chatId text now rnd userId chat)
      as (user & Huser & ->); [done..|].
    destruct (V1Facts.reachable_socket_user _ _ _ Hst Hs) as (_ & _ & [s Hsock]).
    exists user. split; [done|]. cbv zeta. cbn [snd].
    destruct (V1Facts.deliver_foldl st chatId
                (V1.newMessage user userId chatId text now rnd) userId
                (V1.chat_participants chat) ([], V1.chat_unreadCount chat)) as (-> & _).
    cbn [fst app].
    assert (Hall : filter (λ p, true = true ∨ Some p ≠ Some userId)
                     (V1.chat_participants chat) = V1.chat_participants chat).
    { clear. induction (V1.chat_participants chat) as [|p ps IH]; [done|].
      rewrite filter_cons_True by auto. by rewrite IH. }
    rewrite <- (omap_fanout_spec (V1.getSocketByUserId st) true (Some userId)), Hall.
    split; [done|].
    exists s. split; [done|]. apply list_elem_of_omap. exists userId. split; [done|].
    by rewrite Hsock.
  - intros st socket message chatId chat Hid Hchat. cbv zeta.
    rewrite (V2_send_message_known _ _ _ _ _ Hid Hchat). cbn [snd].
    rewrite <- (omap_fanout_spec (V2.getSocketByUserId st) false (V2.msg_senderId message)).
    rewrite (list_filter_iff (λ p, false = true ∨ Some p ≠ V2.msg_senderId message)
               (λ p, Some p ≠ V2.msg_senderId message))
      by (intros p; split; [by intros [?|?] | auto]).
    split; [done|].
    intros s Hnone ev (p & [Hp Hne]%list_elem_of_filter & Hres)%list_elem_of_omap.
    destruct (V2.getSocketByUserId st p) as [s'|] eqn:Hsock; [|done].
    injection Hres as <- _. by eapply Hnone.
  - intros resolve sender participants p s. rewrite !elem_of_fanout_spec.
    split_and!; [| |intros Hne].
    + intuition.
    + intros (_ & _ & [? | ?]); done.
    + assert (Some p ≠ Some sender) by congruence. intuition.
Qed.

Lemma fanout_differs_in_sender_echo_witness :
  (∃ user,
     V1.users demo_state !! "demo_user_1" = Some user
     ∧ let message :=
         V1.newMessage user "demo_user_1" "demo_chat_demo_user_1" "hi" 20 "k3x9" in
       let emits :=
         (V1.send_message demo_state "c1" (Some "demo_chat_demo_user_1") (Some "hi") 20
            "k3x9").2 in
       emits = (λ ps, (ps.2, V1.new_message "demo_chat_demo_user_1" message))
                 <$> fanout_spec (V1.getSocketByUserId demo_state) true
                       (Some "demo_user_1") (V1.chat_participants demo_chat)
       ∧ ∃ s, V1.getSocketByUserId demo_state "demo_user_1" = Some s
              ∧ (s, V1.new_message "demo_chat_demo_user_1" message) ∈ emits)
  ∧ (let emits := (V2.send_message (v2_state 0) "sa" v2_message).2 in
     emits = (λ ps, (ps.2, V2.new_message (Some "c") v2_message))
               <$> fanout_spec (V2.getSocketByUserId (v2_state 0)) false
                     (V2.msg_senderId v2_message) (V2.chat_participants (v2_chat 0))
     ∧ ∀ s, (∀ p, p ∈ V2.chat_participants (v2_chat 0) →
                  Some p ≠ V2.msg_senderId v2_message →
                  V2.getSocketByUserId (v2_state 0) p ≠ Some s) →
            ∀ ev, (s, ev) ∉ emits).
Proof.
  split.
  - apply (proj1 fanout_differs_in_sender_echo demo_state "c1" "demo_chat_demo_user_1"
             "hi" 20 "k3x9" "demo_user_1" demo_chat).
    + exact demo_state_reachable.
    + vm_compute. reflexivity.
    + discriminate.
    + exact demo_state_chat.
    + vm_compute. do 1 constructor.
  - apply (proj1 (proj2 fanout_differs_in_sender_echo) (v2_state 0) "sa" v2_message "c"
             (v2_chat 0)).
    + reflexivity.
    + vm_compute. reflexivity.
Defined.

(** The same message in the two versions: [a] sends to the chat of [a] and
    [b], both connected. *)
Example echo_v1_demo :
  fst <$> (V1.send_message demo_state "c1" (Some "demo_chat_demo_user_1") (Some "hi") 20
             "k3x9").2
  = ["c1"; "c2"].
Proof. vm_compute. reflexivity. Qed.

Example echo_v2_demo : fst <$> (V2.send_message (v2_state 0) "sa" v2_message).2 = ["sb"].
Proof. vm_compute. reflexivity. Qed.

(** ** Stored and derived presence (C10) *)

(** C10.  After [demo_user_1] authenticated on [c1] and on [c2] and [c1]
    disconnected, the state is reachable, [isUserOnline] still answers [true]
    because [c2] is in the session map, the stored status is [offline], and
    the disconnect has sent [friend_status_changed] with [offline] to the
    connected friend. *)
Theorem stored_presence_diverges :
  let st := (V1.run (V1.init 0) presence_trace).1 in
  let r := V1.step st (V1.Disconnect "c1" 12) in
  V1.reachable r.1
  ∧ V1.isUserOnline r.1 "demo_user_1" = true
  ∧ OMap.get (V1.socketUsers r.1) "c2" = Some "demo_user_1"
  ∧ V1.user_status <$> V1.users r.1 !! "demo_user_1" = Some V1.offline
  ∧ V1.edge r.1 "demo_user_1" "demo_user_2"
  ∧ V1.getSocketByUserId r.1 "demo_user_2" = Some "c3"
  ∧ r.2 = [("c3", V1.friend_status_changed "demo_user_1" "Анна Иванова" V1.offline 12)].
Proof.
  cbv zeta. split.
  - apply V1.reachable_step.
    + apply V1Facts.reachable_run; [constructor|].
      vm_compute. repeat split; eauto.
    + vm_compute. eauto.
  - split_and!; try (vm_compute; reflexivity).
    exists ["demo_user_2"; "demo_user_3"]. split; [vm_compute; reflexivity|].
    apply (bool_decide_unpack _). vm_compute. exact I.
Qed.


(** * Further properties of version 1 *)

(** ** Well-formed stores in every reachable state *)

Module V1Wf.
Import V1 V1Facts.

(** *** Arrays without repetition *)

Lemma foldl_set_add acc a :
  NoDup acc →
  NoDup (foldl set_add acc a) ∧ ∀ x, x ∈ foldl set_add acc a ↔ x ∈ acc ∨ x ∈ a.
Proof.
  revert acc. induction a as [|y a IH]; intros acc Hacc; simpl.
  - split; [done|]. intros x. rewrite elem_of_nil. tauto.
  - assert (Hadd : NoDup (set_add acc y)).
    { unfold set_add, includes. case_bool_decide as Hy; [done|].
      apply NoDup_app. split_and!; [done| |apply NoDup_singleton].
      intros x Hx ->%list_elem_of_singleton. done. }
    destruct (IH _ Hadd) as [Hnd Hin]. split; [done|].
    intros x. rewrite Hin, elem_of_set_add, elem_of_cons. tauto.
Qed.

Lemma NoDup_uniq a : NoDup (uniq a).
Proof. apply foldl_set_add. constructor. Qed.

Lemma elem_of_uniq a x : x ∈ uniq a ↔ x ∈ a.
Proof.
  unfold uniq. destruct (foldl_set_add [] a (NoDup_nil_2)) as [_ ->].
  rewrite elem_of_nil. tauto.
Qed.

(** *** Users *)

Lemma findUserByEmail_None st email k u :
  findUserByEmail st email = None → users st !! k = Some u → user_email u ≠ email.
Proof.
  unfold findUserByEmail. intros Hnone Hk.
  assert (Hin : In (k, u) (map_to_list (users st))).
  { apply list_elem_of_In, elem_of_map_to_list. exact Hk. }
  pose proof (find_none _ _ Hnone (k, u) Hin) as Hfalse.
  simpl in Hfalse. by apply bool_decide_eq_false in Hfalse.
Qed.

Lemma findUserByEmail_email st email k u :
  findUserByEmail st email = Some (k, u) → user_email u = email.
Proof.
  unfold findUserByEmail. intros [_ H]%find_some. by apply bool_decide_eq_true in H.
Qed.

(** A user of the next state is a user of this state with the same id and
    address, or the one a registration has just added. *)
Lemma users_step_cases st ev k u' :
  enabled st ev →
  users (step st ev).1 !! k = Some u' →
  (∃ u, users st !! k = Some u ∧ same_account u u')
  ∨ (users st !! k = None ∧ findUserByEmail st (user_email u') = None ∧ user_id u' = k
     ∧ ∃ valid name email hashedPassword avatar now rnd,
         ev = Register valid name email hashedPassword avatar now rnd
         ∧ k = "user_" +:+ pretty now +:+ rnd).
Proof.
  assert (Hsame : users st !! k = Some u' →
    (∃ u, users st !! k = Some u ∧ same_account u u')
    ∨ (users st !! k = None ∧ findUserByEmail st (user_email u') = None ∧ user_id u' = k
     ∧ ∃ valid name email hashedPassword avatar now rnd,
         ev = Register valid name email hashedPassword avatar now rnd
         ∧ k = "user_" +:+ pretty now +:+ rnd)).
  { intros Hk. left. by exists u'. }
  assert (Hupd : ∀ j u status now,
    users st !! j = Some u →
    <[j := mkUser (user_id u) (user_name u) (user_email u) (user_password u)
             (user_avatar u) (user_createdAt u) status now]> (users st) !! k = Some u' →
    (∃ u, users st !! k = Some u ∧ same_account u u')
    ∨ (users st !! k = None ∧ findUserByEmail st (user_email u') = None ∧ user_id u' = k
     ∧ ∃ valid name email hashedPassword avatar now rnd,
         ev = Register valid name email hashedPassword avatar now rnd
         ∧ k = "user_" +:+ pretty now +:+ rnd)).
  { intros j u status now Hj. rewrite lookup_insert. case_decide; [subst j|done].
    intros [= <-]. left. by exists u. }
  intros Hen. destruct ev; simpl; try exact Hsame.
  - destruct Hen as [Hfresh _].
    unfold register. destruct valid; [|exact Hsame]. simpl.
    destruct (findUserByEmail st email) eqn:Hfind; [exact Hsame|].
    unfold createDemoChat. case_match; simpl;
      (rewrite lookup_insert; case_decide as Hk; [subst k|exact Hsame]);
      intros [= <-]; simpl; right; split_and!; eauto 10.
  - unfold login. repeat case_match; simpl; try exact Hsame.
    eapply Hupd. by eapply findUserByEmail_Some.
  - unfold sendFriendRequest. repeat case_match; simpl; exact Hsame.
  - unfold acceptFriendRequest, createChatBetweenUsers. repeat case_match; simpl; exact Hsame.
  - unfold rejectFriendRequest. repeat case_match; simpl; exact Hsame.
  - unfold createChat. repeat case_match; simpl; exact Hsame.
  - unfold getMessages. repeat case_match; simpl; exact Hsame.
  - unfold authenticate. repeat case_match; simpl; try exact Hsame. by eapply Hupd.
  - unfold send_message. repeat case_match; simpl; exact Hsame.
  - unfold start_call. repeat case_match; simpl; exact Hsame.
  - unfold accept_call. repeat case_match; simpl; exact Hsame.
  - unfold end_call. repeat case_match; simpl; exact Hsame.
  - unfold disconnect. repeat case_match; simpl; try exact Hsame. by eapply Hupd.
Qed.


Lemma users_ok_step st ev : users_ok st → enabled st ev → users_ok (step st ev).1.
Proof.
  intros (Hid & Hmail & Hdemo) Hen. split_and!.
  - intros k u' Hk.
    destruct (users_step_cases st ev k u' Hen Hk)
      as [(u & Hu & Hacc & _) | (_ & _ & ? & _)]; [|done].
    rewrite Hacc. by eapply Hid.
  - intros k1 k2 u1 u2 H1 H2 Heq.
    destruct (users_step_cases st ev k1 u1 Hen H1)
      as [(v1 & Hv1 & _ & Hm1) | (Hn1 & Hf1 & Hi1 & Hev1)];
      destruct (users_step_cases st ev k2 u2 Hen H2)
        as [(v2 & Hv2 & _ & Hm2) | (Hn2 & Hf2 & Hi2 & Hev2)].
    + eapply Hmail; [done..|]. congruence.
    + exfalso. eapply findUserByEmail_None; [exact Hf2 | exact Hv1 | congruence].
    + exfalso. eapply findUserByEmail_None; [exact Hf1 | exact Hv2 | congruence].
    + destruct Hev1 as (? & ? & ? & ? & ? & ? & ? & -> & ->).
      destruct Hev2 as (? & ? & ? & ? & ? & ? & ? & [= -> -> -> -> -> -> ->] & ->). done.
  - intros d Hd. apply users_mono. by apply Hdemo.
Qed.


(** *** Chats *)

Lemma last_slice_last {A} (n : nat) (a : list A) :
  (0 < n)%nat → last (slice_last n a) = last a.
Proof.
  intros Hn. unfold slice_last. rewrite !last_lookup, lookup_drop, length_drop.
  destruct (decide (length a = 0%nat)) as [Hz|Hz].
  - apply length_zero_iff_nil in Hz. by subst.
  - f_equal. lia.
Qed.

Lemma elem_of_slice_last {A} (n : nat) (a : list A) x : x ∈ slice_last n a → x ∈ a.
Proof.
  unfold slice_last. intros Hx. rewrite <- (take_drop (length a - n) a).
  apply elem_of_app. by right.
Qed.

Lemma length_appendMessage messages message :
  (length messages ≤ 1000)%nat → (length (appendMessage messages message) ≤ 1000)%nat.
Proof.
  intros Hlen. unfold appendMessage. cbv zeta. case_bool_decide as Hcut.
  - unfold slice_last. rewrite length_drop. lia.
  - lia.
Qed.

Lemma last_appendMessage messages message :
  last (appendMessage messages message) = Some message.
Proof.
  unfold appendMessage. cbv zeta. case_bool_decide.
  - rewrite last_slice_last by lia. apply last_snoc.
  - apply last_snoc.
Qed.

Lemma elem_of_appendMessage messages message m :
  m ∈ appendMessage messages message → m ∈ messages ∨ m = message.
Proof.
  unfold appendMessage. cbv zeta. intros Hm.
  assert (Hin : m ∈ messages ++ [message]).
  { case_bool_decide; [by apply elem_of_slice_last in Hm | done]. }
  apply elem_of_app in Hin as [?|?%list_elem_of_singleton]; auto.
Qed.

Lemma chat_wf_mono (us us' : gmap string User) k c :
  (∀ p, is_Some (us !! p) → is_Some (us' !! p)) → chat_wf us k c → chat_wf us' k c.
Proof.
  intros Hmono (? & ? & ? & Hreg & ? & ? & ? & ?). split_and!; try done.
  intros p Hp. by apply Hmono, Hreg.
Qed.

Lemma chats_ok_frame st st' :
  chats st' = chats st →
  (∀ p, is_Some (users st !! p) → is_Some (users st' !! p)) →
  chats_ok st → chats_ok st'.
Proof.
  intros Hc Hu Hok k c. rewrite Hc. intros Hk. eapply chat_wf_mono; [exact Hu|]. by apply Hok.
Qed.

Lemma chats_ok_insert st k c :
  chats_ok st → chat_wf (users st) k c →
  chats_ok (with_chats st (<[k := c]> (chats st))).
Proof.
  intros Hok Hwf j c'. cbn [chats with_chats users]. rewrite lookup_insert.
  case_decide; [subst j; by intros [= <-] | apply Hok].
Qed.

Lemma createDemoChat_ok st userId now :
  (∀ d, d ∈ ["demo_user_1"; "demo_user_2"; "demo_user_3"] → is_Some (users st !! d)) →
  is_Some (users st !! userId) →
  chats_ok st → chats_ok (createDemoChat st userId now).
Proof.
  intros Hdemo Huser Hok. unfold createDemoChat.
  destruct (chats st !! ("demo_chat_" +:+ userId)); [done|].
  apply chats_ok_insert; [done|].
  assert (Hin : ∀ p, p ∈ uniq ["demo_user_1"; "demo_user_2"; "demo_user_3"; userId]
                     ↔ p ∈ ["demo_user_1"; "demo_user_2"; "demo_user_3"] ∨ p = userId).
  { intros p. rewrite elem_of_uniq, !elem_of_cons, elem_of_nil. tauto. }
  assert (Hlen : (2 < length (uniq ["demo_user_1"; "demo_user_2"; "demo_user_3"; userId]))%nat).
  { cbv [uniq foldl]. change (set_add [] "demo_user_1") with ["demo_user_1"].
    change (set_add ["demo_user_1"] "demo_user_2") with ["demo_user_1"; "demo_user_2"].
    change (set_add ["demo_user_1"; "demo_user_2"] "demo_user_3")
      with ["demo_user_1"; "demo_user_2"; "demo_user_3"].
    unfold set_add. case_match; [simpl; lia | rewrite length_app; simpl; lia]. }
  split_and!; cbn [chat_id chat_participants chat_type chat_messages chat_lastMessage].
  - done.
  - apply NoDup_uniq.
  - intros Hnil. rewrite Hnil in Hlen. simpl in Hlen. lia.
  - intros p [Hp | ->]%Hin; [by apply Hdemo | done].
  - done.
  - simpl. lia.
  - done.
  - intros m Hm. unfold demoMessages in Hm.
    rewrite !elem_of_cons, elem_of_nil in Hm.
    destruct Hm as [-> | [-> | [-> | []]]]; (split; [done|]); apply Hin; left;
      rewrite !elem_of_cons; auto.
Qed.

Lemma createChatBetweenUsers_ok st userId1 userId2 now :
  userId1 ≠ userId2 →
  chats_ok st → chats_ok (createChatBetweenUsers st userId1 userId2 now).1.
Proof.
  intros Hne Hok. unfold createChatBetweenUsers. cbv zeta.
  destruct (chats st !! privateChatId userId1 userId2); [done|].
  destruct (chats st !! privateChatId userId2 userId1); [done|].
  destruct (users st !! userId1) as [user1|] eqn:Hu1; [|done].
  destruct (users st !! userId2) as [user2|] eqn:Hu2; [|done].
  apply chats_ok_insert; [done|].
  split_and!; cbn [chat_id chat_participants chat_type chat_messages chat_lastMessage].
  - done.
  - apply NoDup_cons. split; [by intros ->%list_elem_of_singleton|].
    apply NoDup_singleton.
  - done.
  - intros p. rewrite !elem_of_cons, elem_of_nil. intros [-> | [-> | []]]; by eexists.
  - split; [done | simpl; lia].
  - simpl. lia.
  - done.
  - intros m ->%list_elem_of_singleton. split; [done|]. simpl. apply list_elem_of_here.
Qed.

Lemma createChat_ok st userId name participantIds now :
  chats_ok st → chats_ok (createChat st userId name participantIds now).1.1.
Proof.
  intros Hok. unfold createChat. destruct participantIds as [participantIds|]; [|done].
  cbv zeta. destruct (forallb _ _) eqn:Hall; [|done]. simpl.
  case_bool_decide; [done|]. simpl.
  apply chats_ok_insert; [done|].
  split_and!; cbn [chat_id chat_participants chat_type chat_messages chat_lastMessage].
  - done.
  - apply NoDup_uniq.
  - intros Hnil. apply (not_elem_of_nil userId). rewrite <- Hnil.
    apply elem_of_uniq, list_elem_of_here.
  - intros p Hp. rewrite forallb_forall in Hall.
    apply list_elem_of_In, Hall in Hp. by apply bool_decide_eq_true in Hp.
  - case_bool_decide; split; done.
  - simpl. lia.
  - done.
  - intros m Hm. by apply not_elem_of_nil in Hm.
Qed.

Lemma getMessages_ok st userId chatId :
  chats_ok st → chats_ok (getMessages st userId chatId).1.1.
Proof.
  intros Hok. unfold getMessages.
  destruct (chats st !! chatId) as [chat|] eqn:Hchat; [|done].
  destruct (negb _); [done|]. simpl.
  apply chats_ok_insert; [done|]. by apply Hok in Hchat.
Qed.

Lemma send_message_ok st socket chatId text now rnd :
  chats_ok st → chats_ok (send_message st socket chatId text now rnd).1.
Proof.
  intros Hok. unfold send_message.
  destruct (negb _ || _ || _); [done|].
  destruct (socket_userId st socket) as [userId|]; [|done].
  destruct chatId as [chatId|]; [|done]. destruct text as [text|]; [|done].
  destruct (chats st !! chatId) as [chat|] eqn:Hchat; [|done].
  destruct (negb _) eqn:Hincl; [done|].
  destruct (users st !! userId) as [user|]; [|done]. simpl.
  apply chats_ok_insert; [done|].
  apply negb_false_iff, bool_decide_eq_true in Hincl.
  destruct (Hok _ _ Hchat) as (Hid & Hnd & Hne & Hreg & Hty & Hlen & Hlast & Hmsg).
  split_and!; cbn [chat_id chat_participants chat_type chat_messages chat_lastMessage];
    try done.
  - by apply length_appendMessage.
  - by rewrite last_appendMessage.
  - intros m [Hm | ->]%elem_of_appendMessage; [by apply Hmsg | done].
Qed.


(** The events that leave the chats alone. *)
Lemma chats_step_same st ev :
  match ev with
  | Register _ _ _ _ _ _ _ | FriendRequestAccept _ _ _ | ChatPost _ _ _ _
  | MessagesGet _ _ | SendMessage _ _ _ _ _ => True
  | _ => chats (step st ev).1 = chats st
  end.
Proof. destruct ev; simpl; try done; crush_handler. Qed.

Lemma findPending_Some requests requestId idx req :
  findPending requests requestId = Some (idx, req) →
  requests !! idx = Some req ∧ req_id req = requestId ∧ req_status req = pending.
Proof. unfold findPending. intros (? & [? ?] & _)%list_find_Some. done. Qed.

Lemma findPending_elem_of st userId requestId idx req :
  findPending (default [] (friendRequests st !! userId)) requestId = Some (idx, req) →
  ∃ reqs, friendRequests st !! userId = Some reqs ∧ reqs !! idx = Some req
          ∧ req_status req = pending.
Proof.
  intros (Hidx & _ & Hp)%findPending_Some.
  destruct (friendRequests st !! userId) as [reqs|]; simpl in Hidx; [eauto|done].
Qed.

Lemma chats_ok_step st ev :
  users_ok st → requests_ok st → chats_ok st → enabled st ev → chats_ok (step st ev).1.
Proof.
  intros Hus Hreq Hok Hen.
  pose proof (users_mono st ev) as Hmono.
  pose proof (chats_step_same st ev) as Hsame.
  destruct ev; try (by eapply chats_ok_frame; [exact Hsame | exact Hmono | exact Hok]).
  - simpl. unfold register. destruct valid; [|done]. simpl.
    destruct (findUserByEmail st email); [done|].
    destruct Hus as (_ & _ & Hdemo).
    apply createDemoChat_ok.
    + intros d Hd. cbn [users with_users with_friendships with_friendRequests].
      rewrite lookup_insert. case_decide; [done | by apply Hdemo].
    + cbn [users with_users with_friendships with_friendRequests].
      by rewrite lookup_insert_eq.
    + eapply chats_ok_frame; [| |exact Hok]; [done|].
      intros p Hp. cbn [users with_users with_friendships with_friendRequests].
      rewrite lookup_insert. by case_decide.
  - simpl. unfold acceptFriendRequest. cbv zeta.
    destruct (findPending _ _) as [[idx request]|] eqn:Hfind; [|done].
    apply findPending_elem_of in Hfind as (reqs & Hreqs & Hidx & _).
    assert (Hne : userId ≠ req_fromUserId request).
    { destruct (Hreq _ _ Hreqs) as (_ & Hwf & _).
      destruct (Hwf request) as (_ & ? & _); [|done].
      apply list_elem_of_lookup. eauto. }
    set (st2 := with_friendships _ _).
    assert (Hok2 : chats_ok st2) by (by eapply chats_ok_frame; [| |exact Hok]).
    destruct (getSocketByUserId st2 _); [destruct (users st2 !! userId)|]; simpl;
      try done; by apply createChatBetweenUsers_ok.
  - by apply createChat_ok.
  - by apply getMessages_ok.
  - by apply send_message_ok.
Qed.

(** *** Friend requests *)

Lemma requests_wf_nil k : requests_wf k [].
Proof.
  split.
  - intros req Hreq. by apply not_elem_of_nil in Hreq.
  - intros i j req1 req2 Hi. by rewrite lookup_nil in Hi.
Qed.

Lemma requests_wf_snoc k reqs req :
  requests_wf k reqs →
  req_toUserId req = k → req_fromUserId req ≠ k →
  req_status req = pending → req_respondedAt req = None →
  ¬ Exists (λ r, req_fromUserId r = req_fromUserId req ∧ req_status r = pending) reqs →
  requests_wf k (reqs ++ [req]).
Proof.
  intros [Hall Huniq] Hto Hfrom Hst Hresp Hnew.
  assert (Hfree : ∀ i r, reqs !! i = Some r → req_status r = pending →
                         req_fromUserId r ≠ req_fromUserId req).
  { intros i r Hi Hp Heq. apply Hnew, Exists_exists. exists r. split; [|done].
    apply list_elem_of_lookup. eauto. }
  split.
  - intros r [Hr | ->%list_elem_of_singleton]%elem_of_app; [by apply Hall|].
    split_and!; [done..|]. split; done.
  - intros i j r1 r2 Hi Hj Hp1 Hp2 Heq.
    apply lookup_app_Some in Hi as [Hi | [Hil Hi]];
      apply lookup_app_Some in Hj as [Hj | [Hjl Hj]].
    + by eapply Huniq.
    + apply list_lookup_singleton_Some in Hj as [_ <-].
      exfalso. by eapply Hfree.
    + apply list_lookup_singleton_Some in Hi as [_ <-].
      exfalso. by eapply Hfree.
    + apply list_lookup_singleton_Some in Hi as [Hi0 _].
      apply list_lookup_singleton_Some in Hj as [Hj0 _]. lia.
Qed.

Lemma requests_wf_respond k reqs idx req status now :
  requests_wf k reqs → reqs !! idx = Some req → status ≠ pending →
  requests_wf k (<[idx := respond req status now]> reqs).
Proof.
  intros [Hall Huniq] Hidx Hst. split.
  - intros r [j Hj]%list_elem_of_lookup.
    apply list_lookup_insert_Some in Hj as [(-> & <- & _) | [_ Hj]].
    + destruct (Hall req) as (? & ? & _); [apply list_elem_of_lookup; eauto|].
      split_and!; [done..|]. simpl. split; [done | discriminate].
    + apply Hall, list_elem_of_lookup. eauto.
  - intros i j r1 r2 Hi Hj Hp1 Hp2 Heq.
    apply list_lookup_insert_Some in Hi as [(-> & <- & _) | [_ Hi]]; [done|].
    apply list_lookup_insert_Some in Hj as [(-> & <- & _) | [_ Hj]]; [done|].
    by eapply Huniq.
Qed.

Lemma requests_ok_insert st k reqs :
  requests_ok st → is_Some (users st !! k) → requests_wf k reqs →
  requests_ok (with_friendRequests st (<[k := reqs]> (friendRequests st))).
Proof.
  intros Hok Hk Hwf j reqs'. cbn [friendRequests with_friendRequests users].
  rewrite lookup_insert. case_decide; [subst j; by intros [= <-] | apply Hok].
Qed.

Lemma requests_ok_frame st st' :
  friendRequests st' = friendRequests st →
  (∀ p, is_Some (users st !! p) → is_Some (users st' !! p)) →
  requests_ok st → requests_ok st'.
Proof.
  intros Hf Hu Hok k reqs. rewrite Hf. intros [Hk Hwf]%Hok. split; [by apply Hu | done].
Qed.

(** The events that leave the friend requests alone. *)
Lemma friendRequests_step_same st ev :
  match ev with
  | Register _ _ _ _ _ _ _ | FriendRequestPost _ _ _ | FriendRequestAccept _ _ _
  | FriendRequestReject _ _ _ => True
  | _ => friendRequests (step st ev).1 = friendRequests st
  end.
Proof. destruct ev; simpl; try done; crush_handler. Qed.

Lemma requests_ok_step st ev :
  users_ok st → requests_ok st → enabled st ev → requests_ok (step st ev).1.
Proof.
  intros Hus Hok Hen.
  pose proof (users_mono st ev) as Hmono.
  pose proof (friendRequests_step_same st ev) as Hsame.
  destruct ev; try (by eapply requests_ok_frame; [exact Hsame | exact Hmono | exact Hok]).
  - simpl. unfold register. destruct valid; [|done]. simpl.
    destruct (findUserByEmail st email); [done|].
    unfold createDemoChat. 
    assert (Hgoal : requests_ok
              (with_friendRequests
                 (with_friendships
                    (with_users st
                       (<["user_" +:+ pretty now +:+ rnd :=
                            mkUser ("user_" +:+ pretty now +:+ rnd) name email
                              hashedPassword avatar now offline now]> (users st)))
                    (<["user_" +:+ pretty now +:+ rnd := []]> (friendships st)))
                 (<["user_" +:+ pretty now +:+ rnd := []]> (friendRequests st)))).
    { intros k reqs. cbn [friendRequests with_friendRequests users with_users
                           with_friendships].
      rewrite !lookup_insert. case_decide.
      - intros [= <-]. split; [done | apply requests_wf_nil].
      - intros [Hk Hwf]%Hok. done. }
    case_match; [exact Hgoal|].
    eapply requests_ok_frame; [| |exact Hgoal]; done.
  - simpl. unfold sendFriendRequest. cbv zeta.
    destruct (negb (truthy friendEmail)); [done|].
    case_bool_decide as Hself; [done|].
    destruct (findUserByEmail st _) as [[k0 friend]|] eqn:Hfind; [|done].
    destruct (includes _ _); [done|].
    case_bool_decide as Hdup; [done|].
    pose proof (findUserByEmail_Some _ _ _ _ Hfind) as Hk0.
    pose proof (findUserByEmail_email _ _ _ _ Hfind) as Hmail.
    destruct Hus as (Hid & _ & _). pose proof (Hid _ _ Hk0) as Hfid.
    set (req := mkFriendRequest _ _ _ _ _ _).
    assert (Hnew : requests_ok
              (with_friendRequests st
                 (<[user_id friend := default [] (friendRequests st !! user_id friend)
                                       ++ [req]]> (friendRequests st)))).
    { apply requests_ok_insert; [done | by rewrite Hfid, Hk0 |].
      apply requests_wf_snoc; try done.
      - destruct (friendRequests st !! user_id friend) as [reqs|] eqn:Hreqs; simpl.
        + by apply Hok in Hreqs as [_ ?].
        + apply requests_wf_nil.
      - simpl. intros Hcur. apply Hself. rewrite Hcur, Hfid, Hk0. simpl. by rewrite Hmail. }
    destruct (getSocketByUserId _ _); [destruct (users _ !! currentUserId)|]; exact Hnew.
  - simpl. unfold acceptFriendRequest. cbv zeta.
    destruct (findPending _ _) as [[idx request]|] eqn:Hfind; [|done].
    apply findPending_elem_of in Hfind as (reqs & Hreqs & Hidx & _).
    rewrite Hreqs. cbn [default from_option id].
    destruct (Hok _ _ Hreqs) as [Hk Hwf].
    set (st1 := with_friendRequests st _).
    assert (Hok1 : requests_ok st1).
    { apply requests_ok_insert; [done..|]. by apply requests_wf_respond. }
    set (st2 := with_friendships st1 _).
    assert (Hok2 : requests_ok st2) by (by eapply requests_ok_frame; [| |exact Hok1]).
    assert (Hchat : ∀ a b, requests_ok (createChatBetweenUsers st2 a b now).1).
    { intros a b. eapply requests_ok_frame; [| |exact Hok2];
        unfold createChatBetweenUsers; repeat case_match; done. }
    destruct (getSocketByUserId st2 _); [destruct (users st2 !! userId)|]; simpl;
      try done; apply Hchat.
  - simpl. unfold rejectFriendRequest. cbv zeta.
    destruct (findPending _ _) as [[idx request]|] eqn:Hfind; [|done].
    apply findPending_elem_of in Hfind as (reqs & Hreqs & Hidx & _).
    rewrite Hreqs. cbn [default from_option id]. simpl.
    destruct (Hok _ _ Hreqs) as [Hk Hwf].
    apply requests_ok_insert; [done..|]. by apply requests_wf_respond.
Qed.

(** *** Calls *)

Lemma chats_mono st ev k :
  is_Some (chats st !! k) → is_Some (chats (step st ev).1 !! k).
Proof.
  intros Hk. destruct (chats_step st ev k) as [-> | [? _]]; done.
Qed.

Lemma call_wf_mono st st' k c :
  (∀ p, is_Some (users st !! p) → is_Some (users st' !! p)) →
  (∀ p, is_Some (chats st !! p) → is_Some (chats st' !! p)) →
  call_wf st k c → call_wf st' k c.
Proof. intros Hu Hc (? & ? & ? & ? & ?). split_and!; auto. Qed.

(** The events that leave the calls alone. *)
Lemma activeCalls_step_same st ev :
  match ev with
  | StartCall _ _ _ _ | AcceptCall _ _ | EndCall _ _ _ => True
  | _ => activeCalls (step st ev).1 = activeCalls st
  end.
Proof. destruct ev; simpl; try done; crush_handler. Qed.

Lemma calls_ok_step st ev : calls_ok st → calls_ok (step st ev).1.
Proof.
  intros Hok.
  pose proof (users_mono st ev) as Hmu. pose proof (chats_mono st ev) as Hmc.
  pose proof (activeCalls_step_same st ev) as Hsame.
  destruct ev;
    try (intros k c; rewrite Hsame; intros Hk;
         by eapply call_wf_mono; [exact Hmu | exact Hmc | apply Hok]).
  - simpl. unfold start_call. cbv zeta.
    destruct (negb _ || _); [done|].
    destruct (socket_userId st socket) as [userId|]; [|done].
    destruct chatId as [chatId|]; [|done].
    destruct (chats st !! chatId) as [chat|] eqn:Hchat; [|done].
    destruct (negb _); [done|].
    destruct (users st !! userId) as [user|] eqn:Huser; [|done].
    intros k c. cbn [fst activeCalls with_activeCalls]. rewrite lookup_insert.
    case_decide as Hk; [subst k|apply Hok].
    intros [= <-]. split_and!; cbn; rewrite ?Huser, ?Hchat; done.
  - simpl. unfold accept_call. cbv zeta.
    destruct (negb _ || _); [done|].
    destruct (socket_userId st socket) as [userId|]; [|done].
    destruct callId as [callId|]; [|done].
    destruct (activeCalls st !! callId) as [callData|] eqn:Hcall; [|done].
    intros k c. cbn [fst activeCalls with_activeCalls]. rewrite lookup_insert.
    case_decide as Hk; [subst k|apply Hok].
    intros [= <-]. destruct (Hok _ _ Hcall) as (Hid & Hhead & Hst & Hu & Hc).
    apply head_Some in Hhead as [rest Hps].
    split_and!; cbn [joined call_id call_participants call_status call_callerId
                     call_chatId]; try done.
    + by rewrite Hps.
    + split; [done|]. rewrite Hps. simpl. intros [= Hnil].
      by apply app_nil in Hnil as [_ ?].
  - simpl. unfold end_call. cbv zeta.
    destruct (negb _); [done|]. destruct callId as [callId|]; [|done].
    destruct (activeCalls st !! callId) as [callData|] eqn:Hcall; [|done].
    intros k c. cbn [fst activeCalls with_activeCalls]. rewrite lookup_delete.
    case_decide; [done | apply Hok].
Qed.

(** *** No user is a friend of itself *)

Lemma no_self_edge_step st ev :
  requests_ok st → no_self_edge st → no_self_edge (step st ev).1.
Proof.
  unfold no_self_edge, edge. intros Hreq Hno. rewrite friendships_step.
  destruct ev; try apply Hno.
  - destruct (_ && _); [|apply Hno]. intros a.
    rewrite edge_in_friends_of, friends_of_insert. case_decide.
    + apply not_elem_of_nil.
    + rewrite <- edge_in_friends_of. apply Hno.
  - destruct (findPending _ _) as [[idx request]|] eqn:Hfind; [|apply Hno].
    apply findPending_elem_of in Hfind as (reqs & Hreqs & Hidx & _).
    destruct (Hreq _ _ Hreqs) as (_ & Hwf & _).
    destruct (Hwf request) as (_ & Hne & _); [apply list_elem_of_lookup; eauto|].
    intros a. rewrite addFriends_edge. intros [?%Hno | [[-> ?] | [-> ?]]]; done.
  - intros a. rewrite removeFriends_edge. intros [?%Hno _]. done.
Qed.

(** *** The initial state and the reachable states *)

Lemma users_createDemoChat st userId now : users (createDemoChat st userId now) = users st.
Proof. unfold createDemoChat. by case_match. Qed.

Lemma users_init now :
  users (init now) = list_to_map ((λ u, (user_id u, u)) <$> reverse (demoUsers now)).
Proof.
  unfold init, createDemoData.
  rewrite bool_decide_true by apply map_size_empty.
  by rewrite users_createDemoChat.
Qed.

Lemma users_init_lookup now k u :
  users (init now) !! k = Some u → u ∈ demoUsers now ∧ user_id u = k.
Proof.
  rewrite users_init.
  cbn [demoUsers reverse rev_append fmap list_fmap list_to_map foldr user_id fst snd].
  rewrite !lookup_insert. unfold demoUsers.
  repeat case_decide; subst; rewrite ?lookup_empty; intros [= <-];
    (split; [|done]); rewrite !elem_of_cons; auto.
Qed.

Lemma users_ok_init now : users_ok (init now).
Proof.
  split_and!.
  - intros k u Hk. by apply users_init_lookup in Hk as [_ ?].
  - intros k1 k2 u1 u2 [H1 <-]%users_init_lookup [H2 <-]%users_init_lookup.
    unfold demoUsers in *. rewrite !elem_of_cons, elem_of_nil in H1, H2.
    destruct H1 as [-> | [-> | [-> | []]]]; destruct H2 as [-> | [-> | [-> | []]]];
      simpl; done.
  - intros d Hd. rewrite users_init.
    cbn [demoUsers reverse rev_append fmap list_fmap list_to_map foldr user_id fst snd].
    rewrite !lookup_insert. rewrite !elem_of_cons, elem_of_nil in Hd.
    destruct Hd as [-> | [-> | [-> | []]]]; repeat case_decide; try done; eauto.
Qed.

Lemma chats_ok_init now : chats_ok (init now).
Proof.
  pose proof (users_ok_init now) as (_ & _ & Hdemo).
  revert Hdemo. unfold init, createDemoData.
  rewrite bool_decide_true by apply map_size_empty. cbv zeta.
  set (st0 := with_friendships _ _). rewrite users_createDemoChat. intros Hdemo.
  apply createDemoChat_ok; [done | |].
  - apply Hdemo, list_elem_of_here.
  - intros k c Hk. replace (chats st0) with (∅ : gmap string Chat) in Hk by reflexivity.
    by rewrite lookup_empty in Hk.
Qed.

Lemma calls_ok_init now : calls_ok (init now).
Proof.
  intros k c. replace (activeCalls (init now)) with (∅ : gmap string Call)
    by (vm_compute; reflexivity).
  by rewrite lookup_empty.
Qed.

Lemma friendRequests_init now :
  friendRequests (init now) =
    <["demo_user_3" := []]> (<["demo_user_2" := []]> (<["demo_user_1" := []]> ∅)).
Proof. vm_compute. reflexivity. Qed.

Lemma requests_ok_init now : requests_ok (init now).
Proof.
  pose proof (users_ok_init now) as (_ & _ & Hdemo).
  intros k reqs. rewrite friendRequests_init, !lookup_insert.
  repeat case_decide; subst; rewrite ?lookup_empty; intros [= <-];
    (split; [|apply requests_wf_nil]); apply Hdemo; rewrite !elem_of_cons; auto.
Qed.

Lemma no_self_edge_init now : no_self_edge (init now).
Proof.
  intros a. unfold edge. rewrite edge_in_friends_of. unfold friends_of.
  rewrite friendships_init, !lookup_insert.
  repeat case_decide; subst; simpl; rewrite ?lookup_empty; simpl;
    rewrite ?elem_of_cons, ?elem_of_nil; intuition congruence.
Qed.

(** Every reachable state is well formed. *)
Lemma reachable_wf st : reachable st → wf st.
Proof.
  induction 1 as [now | st ev _ (Hus & Hch & Hca & Hrq & Hno) Hen].
  - split_and!; [apply users_ok_init | apply chats_ok_init | apply calls_ok_init
                | apply requests_ok_init | apply no_self_edge_init].
  - split_and!.
    + by apply users_ok_step.
    + by apply chats_ok_step.
    + by apply calls_ok_step.
    + by apply requests_ok_step.
    + by apply no_self_edge_step.
Qed.


(** *** Sessions *)

Lemma OMap_set_fresh {V} (m : OMap.t V) k v :
  k ∉ m.*1 → OMap.set m k v = m ++ [(k, v)].
Proof.
  induction m as [|[k' v'] m IH]; simpl; [done|].
  rewrite not_elem_of_cons. intros [Hne Hm].
  rewrite bool_decide_false by done. by rewrite IH.
Qed.

Lemma OMap_delete_fresh {V} (m : OMap.t V) k : k ∉ m.*1 → OMap.delete m k = m.
Proof.
  unfold OMap.delete, OMap.t in *. induction m as [|[k' v'] m IH]; [done|].
  rewrite fmap_cons, not_elem_of_cons. intros [Hne Hm].
  rewrite filter_cons_True by (simpl in *; congruence). by rewrite IH.
Qed.

Lemma OMap_delete_snoc {V} (m : OMap.t V) k v :
  k ∉ m.*1 → OMap.delete (m ++ [(k, v)]) k = m.
Proof.
  intros Hk. pose proof (OMap_delete_fresh m k Hk) as Hm.
  unfold OMap.delete, OMap.t in *. rewrite filter_app, Hm.
  rewrite filter_cons_False by (simpl; tauto).
  by rewrite filter_nil, app_nil_r.
Qed.

Lemma OMap_keys_set {V} (m : OMap.t V) k v :
  (OMap.set m k v).*1 = if bool_decide (k ∈ m.*1) then m.*1 else m.*1 ++ [k].
Proof.
  induction m as [|[k' v'] m IH]; cbn [OMap.set fmap list_fmap fst].
  - rewrite bool_decide_false; [done | apply not_elem_of_nil].
  - destruct (decide (k' = k)) as [->|Hk].
    + rewrite (bool_decide_true (k = k)) by done. cbn [fmap list_fmap fst].
      rewrite bool_decide_true; [done | apply list_elem_of_here].
    + rewrite (bool_decide_false (k' = k)) by done. cbn [fmap list_fmap fst].
      rewrite IH. case_bool_decide as Hin.
      * rewrite bool_decide_true; [done | by apply list_elem_of_further].
      * rewrite bool_decide_false; [done|].
        rewrite not_elem_of_cons. split; [congruence | done].
Qed.

Lemma NoDup_OMap_set {V} (m : OMap.t V) k v : NoDup m.*1 → NoDup (OMap.set m k v).*1.
Proof.
  intros Hm. rewrite OMap_keys_set. case_bool_decide as Hin; [done|].
  apply NoDup_app. split_and!; [done| |apply NoDup_singleton].
  intros x Hx ->%list_elem_of_singleton. done.
Qed.

Lemma NoDup_OMap_delete {V} (m : OMap.t V) k : NoDup m.*1 → NoDup (OMap.delete m k).*1.
Proof.
  unfold OMap.delete, OMap.t in *. induction m as [|[k' v'] m IH]; [done|].
  rewrite fmap_cons, NoDup_cons. intros [Hk' Hm].
  destruct (decide (k' ≠ k)) as [Hne|Heq].
  - rewrite filter_cons_True by done. simpl. apply NoDup_cons. split; [|by apply IH].
    intros [[k2 v2] [Heq Hin]]%list_elem_of_fmap. simpl in Heq. subst k2.
    apply list_elem_of_filter in Hin as [_ Hin]. apply Hk'.
    apply list_elem_of_fmap. by exists (k', v2).
  - rewrite filter_cons_False by done. by apply IH.
Qed.

Lemma OMap_get_elem {V} (m : OMap.t V) k v :
  NoDup m.*1 → (k, v) ∈ m → OMap.get m k = Some v.
Proof.
  unfold OMap.get. induction m as [|[k' v'] m IH]; simpl.
  - intros _ Hin. by apply not_elem_of_nil in Hin.
  - rewrite NoDup_cons. intros [Hk' Hm] Hin.
    apply elem_of_cons in Hin as [[= <- <-] | Hin].
    + by rewrite bool_decide_true.
    + rewrite bool_decide_false; [by apply IH|].
      intros ->. apply Hk'. apply list_elem_of_fmap. by exists (k, v).
Qed.

Lemma elem_of_OMap_set_inv {V} (m : OMap.t V) k v kv :
  NoDup m.*1 → kv ∈ OMap.set m k v → (kv ∈ m ∧ kv.1 ≠ k) ∨ kv = (k, v).
Proof.
  induction m as [|[k' v'] m IH]; simpl.
  - rewrite list_elem_of_singleton. auto.
  - rewrite NoDup_cons. intros [Hk' Hm]. case_bool_decide as Hk.
    + subst k'. rewrite !elem_of_cons. intros [-> | Hin]; [by right|].
      left. split; [by right|]. intros Heq. apply Hk'.
      apply list_elem_of_fmap. exists kv. by split.
    + rewrite !elem_of_cons. intros [-> | Hin]; [left; split; [by left | done]|].
      destruct (IH Hm Hin) as [[? ?] | ->]; [left; split; [by right | done] | by right].
Qed.

(** The session map is the table of the [userId] attributes of the
    authenticated sockets: one entry for each of them. *)
Lemma reachable_sessions st :
  reachable st →
  NoDup (socketUsers st).*1
  ∧ ∀ s u, (s, u) ∈ socketUsers st → sockets st !! s = Some (Some u).
Proof.
  induction 1 as [now | st ev Hreach [Hnd Hex] Hen].
  - replace (socketUsers (init now)) with (@nil (string * string)) by (vm_compute; reflexivity).
    split; [constructor|]. intros s u Hin. by apply not_elem_of_nil in Hin.
  - destruct (reachable_inv _ Hreach) as ((Hempty & _) & (Hconn & _) & _).
    rewrite sockets_step, socketUsers_step.
    destruct ev; try done.
    + (* connection *)
      split; [done|]. intros s u Hin. simpl in Hen.
      rewrite lookup_insert_ne; [by apply Hex|].
      intros <-. apply Hex in Hin. congruence.
    + (* authenticate *)
      destruct decoded as [userId|]; [|done].
      destruct (users st !! userId) as [user|]; [|done].
      split; [by apply NoDup_OMap_set|].
      intros s u Hin. apply elem_of_OMap_set_inv in Hin as [[Hin Hne] | [= -> ->]]; [| |done].
      * simpl in Hne. rewrite lookup_insert_ne by done. by apply Hex.
      * by rewrite lookup_insert_eq.
    + (* disconnect *)
      destruct (truthy (OMap.get (socketUsers st) socket)) eqn:Htruthy.
      * split; [by apply NoDup_OMap_delete|].
        intros s u [Hin Hne]%elem_of_OMap_delete. simpl in Hne.
        rewrite lookup_delete_ne by done. by apply Hex.
      * split; [done|]. intros s u Hin.
        destruct (decide (s = socket)) as [->|Hne];
          [|rewrite lookup_delete_ne by done; by apply Hex].
        rewrite (OMap_get_elem _ _ _ Hnd Hin) in Htruthy. simpl in Htruthy.
        apply bool_decide_eq_false in Htruthy.
        assert (u = "") as -> by (by destruct (decide (u = ""))).
        destruct (Hconn _ _ Hin) as [_ Hreg]. rewrite Hempty in Hreg.
        by apply is_Some_None in Hreg.
Qed.

(** The sessions of a registered user, as [isUserOnline] and
    [getSocketByUserId] see them. *)
Lemma isUserOnline_true st userId :
  isUserOnline st userId = true ↔ ∃ s, (s, userId) ∈ socketUsers st.
Proof.
  unfold isUserOnline, includes, OMap.values. rewrite bool_decide_eq_true, list_elem_of_fmap.
  split.
  - intros ([s u] & -> & Hin). by exists s.
  - intros [s Hin]. by exists (s, userId).
Qed.

Lemma getSocketByUserId_Some st userId s :
  getSocketByUserId st userId = Some s → (s, userId) ∈ socketUsers st.
Proof.
  unfold getSocketByUserId. destruct (find _ _) as [[s' u]|] eqn:Hfind; [|done].
  case_bool_decide; [|done]. intros [= ->].
  apply find_some in Hfind as [Hin Hu]. apply bool_decide_eq_true in Hu. simpl in Hu.
  subst u. by apply list_elem_of_In.
Qed.

(** *** Lookups in well-formed stores *)

Lemma findUserByEmail_registered st k u :
  users_ok st → users st !! k = Some u → findUserByEmail st (user_email u) = Some (k, u).
Proof.
  intros (_ & Hmail & _) Hk.
  destruct (findUserByEmail st (user_email u)) as [[k' u']|] eqn:Hfind.
  - pose proof (findUserByEmail_Some _ _ _ _ Hfind) as Hk'.
    pose proof (findUserByEmail_email _ _ _ _ Hfind) as Heq.
    assert (k' = k) as -> by by eapply Hmail. congruence.
  - exfalso. by eapply findUserByEmail_None.
Qed.

(** Two lists without repetition have the same elements exactly when one is
    within the other and they are equally long. *)
Lemma same_elements_length (l1 l2 : list string) :
  NoDup l1 → NoDup l2 →
  (length l1 = length l2 ∧ Forall (λ x, x ∈ l2) l1) ↔ (∀ x, x ∈ l1 ↔ x ∈ l2).
Proof.
  intros Hnd1 Hnd2. split.
  - intros [Hlen Hsub]. rewrite Forall_forall in Hsub.
    assert (Hperm : l1 ≡ₚ l2).
    { apply submseteq_length_Permutation; [by apply NoDup_submseteq | lia]. }
    intros x. by rewrite Hperm.
  - intros Hsame.
    assert (Hperm : l1 ≡ₚ l2) by by apply NoDup_Permutation.
    split; [by rewrite Hperm|]. apply Forall_forall. intros x. apply Hsame.
Qed.

Lemma head_foldl_set_add acc l x :
  head acc = Some x → head (foldl set_add acc l) = Some x.
Proof.
  revert acc. induction l as [|y l IH]; intros acc Hacc; [done|].
  simpl. apply IH. unfold set_add. destruct (includes acc y); [done|].
  by destruct acc.
Qed.

Lemma head_uniq x l : head (uniq (x :: l)) = Some x.
Proof.
  unfold uniq. simpl. apply head_foldl_set_add.
  unfold set_add, includes. rewrite bool_decide_false; [done | apply not_elem_of_nil].
Qed.

(** *** What the friend request routes have written *)

(** What [sendFriendRequest] has checked and written when it answers 200. *)
Lemma sendFriendRequest_200 st currentUserId friendEmail now :
  (sendFriendRequest st currentUserId friendEmail now).2 = 200%nat →
  ∃ key friend,
    truthy friendEmail = true
    ∧ user_email <$> users st !! currentUserId ≠ Some (default "" friendEmail)
    ∧ findUserByEmail st (default "" friendEmail) = Some (key, friend)
    ∧ includes (default [] (friendships st !! currentUserId)) (user_id friend) = false
    ∧ (sendFriendRequest st currentUserId friendEmail now).1.1
      = with_friendRequests st
          (<[user_id friend :=
               default [] (friendRequests st !! user_id friend)
               ++ [mkFriendRequest ("friend_req_" +:+ pretty now) currentUserId
                     (user_id friend) pending now None]]> (friendRequests st)).
Proof.
  unfold sendFriendRequest.
  destruct (truthy friendEmail) eqn:Htruthy; [|done]. cbn [negb].
  case_bool_decide as Hself; [done|].
  destruct (findUserByEmail st _) as [[key friend]|] eqn:Hfind; [|done].
  destruct (includes _ (user_id friend)) eqn:Hfriends; [done|].
  case_bool_decide as Hpending; [done|].
  intros Hstatus. exists key, friend. split_and!; [done..|].
  destruct (getSocketByUserId _ _); [|done].
  by destruct (users _ !! currentUserId).
Qed.

(** [createChatBetweenUsers] writes to the chats only, and leaves a chat of
    the two users behind when both are registered. *)
Lemma createChatBetweenUsers_frame st userId1 userId2 now :
  let st' := (createChatBetweenUsers st userId1 userId2 now).1 in
  users st' = users st ∧ friendships st' = friendships st
  ∧ friendRequests st' = friendRequests st ∧ activeCalls st' = activeCalls st
  ∧ sockets st' = sockets st ∧ socketUsers st' = socketUsers st
  ∧ (is_Some (users st !! userId1) → is_Some (users st !! userId2) →
     is_Some (chats st' !! privateChatId userId1 userId2)
     ∨ is_Some (chats st' !! privateChatId userId2 userId1)).
Proof.
  unfold createChatBetweenUsers.
  destruct (chats st !! privateChatId userId1 userId2) eqn:H1;
    [cbn [fst]; split_and!; try done; intros _ _; left; by rewrite H1|].
  destruct (chats st !! privateChatId userId2 userId1) eqn:H2;
    [cbn [fst]; split_and!; try done; intros _ _; right; by rewrite H2|].
  destruct (users st !! userId1) eqn:Hu1, (users st !! userId2) eqn:Hu2;
    cbn [fst]; split_and!; try done; try (by intros [? ?] [? ?]).
  intros _ _. left. cbn [chats with_chats]. by rewrite lookup_insert_eq.
Qed.

End V1Wf.

(** ** Stores of the reachable states *)

(** X1.  In every reachable state a user, a chat and a call are stored under
    their own [id]. *)
Theorem stores_keyed_by_id st :
  V1.reachable st →
  (∀ k user, V1.users st !! k = Some user → V1.user_id user = k)
  ∧ (∀ k chat, V1.chats st !! k = Some chat → V1.chat_id chat = k)
  ∧ (∀ k callData, V1.activeCalls st !! k = Some callData → V1.call_id callData = k).
Proof.
  intros ((Hid & _) & Hch & Hca & _)%V1Wf.reachable_wf. split_and!.
  - exact Hid.
  - intros k chat Hk. by destruct (Hch _ _ Hk) as (? & _).
  - intros k callData Hk. by destruct (Hca _ _ Hk) as (? & _).
Qed.

Lemma stores_keyed_by_id_witness :
  (∀ k user, V1.users demo_call_state !! k = Some user → V1.user_id user = k)
  ∧ (∀ k chat, V1.chats demo_call_state !! k = Some chat → V1.chat_id chat = k)
  ∧ (∀ k callData, V1.activeCalls demo_call_state !! k = Some callData →
       V1.call_id callData = k).
Proof. apply (stores_keyed_by_id demo_call_state). exact demo_call_state_reachable. Defined.

(** X2.  In every reachable state no two users share an e-mail address, so
    the scan by e-mail returns the one user that has the address.  (A step
    of the transition system is a request handled to its end; [register]
    awaits the password hash between its look for the address and its write,
    and two registrations that overlap there are not a run of the model.) *)
Theorem email_identifies_user st k user :
  V1.reachable st →
  V1.users st !! k = Some user →
  (∀ k' user', V1.users st !! k' = Some user' →
     V1.user_email user' = V1.user_email user → k' = k)
  ∧ V1.findUserByEmail st (V1.user_email user) = Some (k, user).
Proof.
  intros ((_ & Hmail & _) & _)%V1Wf.reachable_wf Hk.
  assert (Huniq : ∀ k' user', V1.users st !! k' = Some user' →
                    V1.user_email user' = V1.user_email user → k' = k).
  { intros k' user' Hk' Heq. by eapply Hmail. }
  split; [exact Huniq|].
  destruct (V1.findUserByEmail st (V1.user_email user)) as [[k' user']|] eqn:Hfind.
  - pose proof (V1Facts.findUserByEmail_Some _ _ _ _ Hfind) as Hk'.
    pose proof (V1Wf.findUserByEmail_email _ _ _ _ Hfind) as Heq.
    assert (k' = k) as -> by by eapply Huniq. congruence.
  - exfalso. by eapply V1Wf.findUserByEmail_None.
Qed.

Lemma email_identifies_user_witness :
  (∀ k' user', V1.users demo_state !! k' = Some user' →
     V1.user_email user' = "zoya@example.com" → k' = "user_5k3x9q0w2z")
  ∧ V1.findUserByEmail demo_state "zoya@example.com"
    = Some ("user_5k3x9q0w2z",
            V1.mkUser "user_5k3x9q0w2z" "Zoya" "zoya@example.com" "$2a$10$jkl012" "Z"
              5 V1.online 12).
Proof.
  apply (email_identifies_user demo_state "user_5k3x9q0w2z"
           (V1.mkUser "user_5k3x9q0w2z" "Zoya" "zoya@example.com" "$2a$10$jkl012" "Z"
              5 V1.online 12)).
  - exact demo_state_reachable.
  - vm_compute. reflexivity.
Defined.

(** X3.  In every reachable state the participants of a chat are registered
    users, listed once each, at least one; the chat is a group exactly when
    it has more than two of them. *)
Theorem chat_participants_wf st k chat :
  V1.reachable st →
  V1.chats st !! k = Some chat →
  NoDup (V1.chat_participants chat)
  ∧ V1.chat_participants chat ≠ []
  ∧ (∀ p, p ∈ V1.chat_participants chat → is_Some (V1.users st !! p))
  ∧ (V1.chat_type chat = V1.group ↔ (2 < length (V1.chat_participants chat))%nat).
Proof.
  intros (_ & Hch & _)%V1Wf.reachable_wf Hk.
  by destruct (Hch _ _ Hk) as (_ & ? & ? & ? & ? & _).
Qed.

Lemma chat_participants_wf_witness :
  NoDup (V1.chat_participants demo_chat)
  ∧ V1.chat_participants demo_chat ≠ []
  ∧ (∀ p, p ∈ V1.chat_participants demo_chat → is_Some (V1.users demo_state !! p))
  ∧ (V1.chat_type demo_chat = V1.group
     ↔ (2 < length (V1.chat_participants demo_chat))%nat).
Proof.
  apply (chat_participants_wf demo_state "demo_chat_demo_user_1" demo_chat).
  - exact demo_state_reachable.
  - exact demo_state_chat.
Defined.

(** X4.  In every reachable state the history of a chat has at most 1000
    messages. *)
Theorem history_bounded st k chat :
  V1.reachable st →
  V1.chats st !! k = Some chat →
  (length (V1.chat_messages chat) ≤ 1000)%nat.
Proof.
  intros (_ & Hch & _)%V1Wf.reachable_wf Hk.
  by destruct (Hch _ _ Hk) as (_ & _ & _ & _ & _ & ? & _).
Qed.

Lemma history_bounded_witness : (length (V1.chat_messages demo_chat) ≤ 1000)%nat.
Proof.
  apply (history_bounded demo_state "demo_chat_demo_user_1" demo_chat).
  - exact demo_state_reachable.
  - exact demo_state_chat.
Defined.

(** X5.  In every reachable state [lastMessage] of a chat is the last
    message of its history ([null] when the history is empty), and every
    message of the history carries the id of the chat and was sent by one of
    its participants. *)
Theorem history_consistent st k chat :
  V1.reachable st →
  V1.chats st !! k = Some chat →
  V1.chat_lastMessage chat = last (V1.chat_messages chat)
  ∧ ∀ m, m ∈ V1.chat_messages chat →
         V1.msg_chatId m = k ∧ V1.msg_senderId m ∈ V1.chat_participants chat.
Proof.
  intros (_ & Hch & _)%V1Wf.reachable_wf Hk.
  by destruct (Hch _ _ Hk) as (_ & _ & _ & _ & _ & _ & ? & ?).
Qed.

Lemma history_consistent_witness :
  V1.chat_lastMessage demo_chat = last (V1.chat_messages demo_chat)
  ∧ ∀ m, m ∈ V1.chat_messages demo_chat →
         V1.msg_chatId m = "demo_chat_demo_user_1"
         ∧ V1.msg_senderId m ∈ V1.chat_participants demo_chat.
Proof.
  apply (history_consistent demo_state "demo_chat_demo_user_1" demo_chat).
  - exact demo_state_reachable.
  - exact demo_state_chat.
Defined.

(** ** Friend requests *)

Lemma request_state_reachable : V1.reachable request_state.
Proof.
  apply V1Facts.reachable_run; [constructor|].
  vm_compute. repeat split; eauto.
Qed.

Lemma request_state_requests :
  V1.friendRequests request_state !! "demo_user_2" = Some [demo_request].
Proof. vm_compute. reflexivity. Qed.

(** X6.  In every reachable state the requests stored for a user are
    addressed to that user, who is registered, and come from somebody else; a
    request is pending exactly as long as it has no [respondedAt]; no sender
    has two pending requests in one list. *)
Theorem friend_requests_wf st k reqs :
  V1.reachable st →
  V1.friendRequests st !! k = Some reqs →
  is_Some (V1.users st !! k)
  ∧ (∀ req, req ∈ reqs →
       V1.req_toUserId req = k
       ∧ V1.req_fromUserId req ≠ k
       ∧ (V1.req_status req = V1.pending ↔ V1.req_respondedAt req = None))
  ∧ (∀ i j req1 req2,
       reqs !! i = Some req1 → reqs !! j = Some req2 →
       V1.req_status req1 = V1.pending → V1.req_status req2 = V1.pending →
       V1.req_fromUserId req1 = V1.req_fromUserId req2 → i = j).
Proof.
  intros (_ & _ & _ & Hrq & _)%V1Wf.reachable_wf Hk.
  destruct (Hrq _ _ Hk) as (? & ? & ?). done.
Qed.

Lemma friend_requests_wf_witness :
  is_Some (V1.users request_state !! "demo_user_2")
  ∧ (∀ req, req ∈ [demo_request] →
       V1.req_toUserId req = "demo_user_2"
       ∧ V1.req_fromUserId req ≠ "demo_user_2"
       ∧ (V1.req_status req = V1.pending ↔ V1.req_respondedAt req = None))
  ∧ (∀ i j req1 req2,
       [demo_request] !! i = Some req1 → [demo_request] !! j = Some req2 →
       V1.req_status req1 = V1.pending → V1.req_status req2 = V1.pending →
       V1.req_fromUserId req1 = V1.req_fromUserId req2 → i = j).
Proof.
  apply (friend_requests_wf request_state "demo_user_2" [demo_request]).
  - exact request_state_reachable.
  - exact request_state_requests.
Defined.

(** X7.  No event removes or moves a stored friend request.  A request
    changes at most once: while it is pending it can be answered, which sets
    its status to accepted or rejected and [respondedAt] to the time of the
    answer; an answered request stays as it is. *)
Theorem friend_request_kept st ev k reqs i req :
  V1.reachable st → V1.enabled st ev →
  V1.friendRequests st !! k = Some reqs → reqs !! i = Some req →
  ∃ reqs' req',
    V1.friendRequests (V1.step st ev).1 !! k = Some reqs'
    ∧ reqs' !! i = Some req'
    ∧ (req' = req
       ∨ (V1.req_status req = V1.pending
          ∧ ∃ status now, status ≠ V1.pending ∧ req' = V1.respond req status now)).
Proof.
  intros Hreach Hen Hk Hi.
  destruct (V1Wf.reachable_wf _ Hreach) as (_ & _ & _ & Hrq & _).
  destruct (Hrq _ _ Hk) as [Hreg _].
  assert (Hkeep : V1.friendRequests (V1.step st ev).1 = V1.friendRequests st →
                  ∃ reqs' req',
                    V1.friendRequests (V1.step st ev).1 !! k = Some reqs'
                    ∧ reqs' !! i = Some req'
                    ∧ (req' = req
                       ∨ (V1.req_status req = V1.pending
                          ∧ ∃ status now,
                              status ≠ V1.pending ∧ req' = V1.respond req status now))).
  { intros ->. exists reqs, req. auto. }
  assert (Hanswer : ∀ userId requestId status now,
            status ≠ V1.pending →
            ∃ reqs' req',
              match V1.findPending (default [] (V1.friendRequests st !! userId)) requestId with
              | Some (idx, request) =>
                  <[userId := <[idx := V1.respond request status now]>
                                (default [] (V1.friendRequests st !! userId))]>
                    (V1.friendRequests st)
              | None => V1.friendRequests st
              end !! k = Some reqs'
              ∧ reqs' !! i = Some req'
              ∧ (req' = req
                 ∨ (V1.req_status req = V1.pending
                    ∧ ∃ status now,
                        status ≠ V1.pending ∧ req' = V1.respond req status now))).
  { intros userId requestId status now Hst.
    destruct (V1.findPending _ requestId) as [[idx request]|] eqn:Hfind;
      [|exists reqs, req; auto].
    apply V1Wf.findPending_Some in Hfind as (Hidx & _ & Hpend).
    destruct (decide (userId = k)) as [->|Hne].
    - rewrite Hk in Hidx |- *. simpl in Hidx |- *. rewrite lookup_insert_eq.
      destruct (decide (idx = i)) as [->|Hi'].
      + assert (request = req) as -> by congruence.
        exists (<[i := V1.respond req status now]> reqs), (V1.respond req status now).
        split_and!; [done| |right; eauto].
        apply list_lookup_insert_Some. left. split_and!; [done..|].
        by eapply lookup_lt_Some.
      + exists (<[idx := V1.respond request status now]> reqs), req.
        split_and!; [done| |by left].
        by rewrite list_lookup_insert_ne.
    - rewrite lookup_insert_ne by done. exists reqs, req. auto. }
  pose proof (V1Wf.friendRequests_step_same st ev) as Hsame.
  destruct ev; try (by apply Hkeep).
  - (* register *)
    simpl in Hen |- *. destruct Hen as [Hfresh _].
    unfold V1.register. destruct valid; [|by exists reqs, req; auto]. simpl.
    destruct (V1.findUserByEmail st email); [by exists reqs, req; auto|].
    unfold V1.createDemoChat.
    assert (k ≠ "user_" +:+ pretty now +:+ rnd) as Hne.
    { intros ->. rewrite Hfresh in Hreg. by eapply is_Some_None. }
    exists reqs, req.
    split; [|auto].
    destruct (V1.chats _ !! _); simpl; by rewrite lookup_insert_ne.
  - (* sendFriendRequest *)
    simpl. unfold V1.sendFriendRequest.
    destruct (negb (truthy friendEmail)); [by exists reqs, req; auto|].
    case_bool_decide; [by exists reqs, req; auto|].
    destruct (V1.findUserByEmail st _) as [[key friend]|]; [|by exists reqs, req; auto].
    destruct (includes _ _); [by exists reqs, req; auto|].
    case_bool_decide; [by exists reqs, req; auto|].
    destruct (V1.getSocketByUserId _ _); [destruct (V1.users _ !! currentUserId)|];
      cbn [fst V1.friendRequests V1.with_friendRequests].
    all: destruct (decide (V1.user_id friend = k)) as [Heq|Hne];
      [ rewrite Heq, Hk; simpl; rewrite lookup_insert_eq;
        eexists _, req; split_and!; [done| |by left];
        apply lookup_app_Some; by left
      | rewrite lookup_insert_ne by done; exists reqs, req; auto ].
  - (* acceptFriendRequest *)
    simpl. unfold V1.acceptFriendRequest.
    specialize (Hanswer userId requestId V1.accepted now).
    destruct (V1.findPending _ requestId) as [[idx request]|];
      [|apply Hanswer; discriminate].
    destruct Hanswer as (reqs' & req' & H1 & H2 & H3); [discriminate|].
    exists reqs', req'. split; [|done].
    destruct (V1.getSocketByUserId _ _); [destruct (V1.users _ !! userId)|];
      cbn [fst]; try exact H1.
    all: unfold V1.createChatBetweenUsers;
      repeat (match goal with
              | |- context [match ?x with _ => _ end] => destruct x
              end; cbn [fst]); exact H1.
  - (* rejectFriendRequest *)
    simpl. unfold V1.rejectFriendRequest.
    specialize (Hanswer userId requestId V1.rejected now).
    destruct (V1.findPending _ requestId) as [[idx request]|];
      [|apply Hanswer; discriminate].
    destruct Hanswer as (reqs' & req' & H1 & H2 & H3); [discriminate|].
    exists reqs', req'. done.
Qed.

Lemma friend_request_kept_witness :
  ∃ reqs' req',
    V1.friendRequests
      (V1.step request_state (V1.FriendRequestAccept "demo_user_2" "friend_req_20" 30)).1
      !! "demo_user_2" = Some reqs'
    ∧ reqs' !! 0%nat = Some req'
    ∧ (req' = demo_request
       ∨ (V1.req_status demo_request = V1.pending
          ∧ ∃ status now,
              status ≠ V1.pending ∧ req' = V1.respond demo_request status now)).
Proof.
  apply (friend_request_kept request_state
           (V1.FriendRequestAccept "demo_user_2" "friend_req_20" 30)
           "demo_user_2" [demo_request] 0 demo_request).
  - exact request_state_reachable.
  - exact I.
  - exact request_state_requests.
  - reflexivity.
Defined.

(** X8.  In every reachable state nobody is in their own friend set. *)
Theorem no_self_friendship st a :
  V1.reachable st → ¬ V1.edge st a a.
Proof. intros (_ & _ & _ & _ & Hno)%V1Wf.reachable_wf. apply Hno. Qed.

Lemma no_self_friendship_witness : ¬ V1.edge demo_state "demo_user_1" "demo_user_1".
Proof. apply (no_self_friendship demo_state "demo_user_1"). exact demo_state_reachable. Defined.

(** ** Calls *)

(** X9.  In every reachable state the first participant of a call is its
    caller, who is a registered user; the call is in status [calling] exactly
    while the caller is its only participant; the chat of the call exists. *)
Theorem active_call_wf st k callData :
  V1.reachable st →
  V1.activeCalls st !! k = Some callData →
  head (V1.call_participants callData) = Some (V1.call_callerId callData)
  ∧ (V1.call_status callData = V1.calling
     ↔ V1.call_participants callData = [V1.call_callerId callData])
  ∧ is_Some (V1.users st !! V1.call_callerId callData)
  ∧ is_Some (V1.chats st !! V1.call_chatId callData).
Proof.
  intros (_ & _ & Hca & _)%V1Wf.reachable_wf Hk.
  by destruct (Hca _ _ Hk) as (_ & ? & ? & ? & ?).
Qed.

Lemma active_call_wf_witness :
  head (V1.call_participants demo_call) = Some (V1.call_callerId demo_call)
  ∧ (V1.call_status demo_call = V1.calling
     ↔ V1.call_participants demo_call = [V1.call_callerId demo_call])
  ∧ is_Some (V1.users demo_call_state !! V1.call_callerId demo_call)
  ∧ is_Some (V1.chats demo_call_state !! V1.call_chatId demo_call).
Proof.
  apply (active_call_wf demo_call_state "call_40" demo_call).
  - exact demo_call_state_reachable.
  - exact demo_call_state_call.
Defined.

(** ** Sessions and presence *)

(** X10.  In every reachable state the session map and the [userId]
    attributes of the connected sockets say the same: socket [s] has a session
    of user [u] exactly when [u] is the [userId] of [s], so a socket has at
    most one session; the user of a session is registered. *)
Theorem sessions_match_sockets st s u :
  V1.reachable st →
  OMap.get (V1.socketUsers st) s = V1.socket_userId st s
  ∧ ((s, u) ∈ V1.socketUsers st ↔ V1.socket_userId st s = Some u)
  ∧ ((s, u) ∈ V1.socketUsers st → is_Some (V1.users st !! u)).
Proof.
  intros Hreach.
  destruct (V1Wf.reachable_sessions _ Hreach) as [Hnd Hex].
  destruct (V1Facts.reachable_inv _ Hreach) as (_ & (Hconn & Hsock) & _).
  assert (Hiff : ∀ u', (s, u') ∈ V1.socketUsers st ↔ V1.socket_userId st s = Some u').
  { intros u'. rewrite V1Facts.socket_userId_Some. split; [apply Hex | apply Hsock]. }
  split_and!; [|apply Hiff|by intros [_ ?]%Hconn].
  destruct (V1.socket_userId st s) as [u'|] eqn:Hs.
  - apply V1Wf.OMap_get_elem; [done|]. by apply Hiff.
  - destruct (OMap.get (V1.socketUsers st) s) as [u'|] eqn:Hget; [|done].
    apply V1Facts.OMap_get_Some, Hiff in Hget. done.
Qed.

Lemma sessions_match_sockets_witness :
  OMap.get (V1.socketUsers demo_state) "c2" = V1.socket_userId demo_state "c2"
  ∧ (("c2", "demo_user_2") ∈ V1.socketUsers demo_state
     ↔ V1.socket_userId demo_state "c2" = Some "demo_user_2")
  ∧ (("c2", "demo_user_2") ∈ V1.socketUsers demo_state
     → is_Some (V1.users demo_state !! "demo_user_2")).
Proof. apply (sessions_match_sockets demo_state "c2" "demo_user_2"). exact demo_state_reachable. Defined.

(** X11.  When the socket of an authenticated user disconnects, the stored
    status of the user becomes [offline] with [lastSeen] the time of the
    disconnect, whatever other sessions the user has; [isUserOnline] still
    answers [true] exactly when another socket has a session of the user. *)
Theorem disconnect_presence st socket userId now :
  V1.reachable st →
  V1.socket_userId st socket = Some userId →
  let st' := (V1.disconnect st socket now).1 in
  (∃ user, V1.users st' !! userId = Some user
           ∧ V1.user_status user = V1.offline ∧ V1.user_lastSeen user = now)
  ∧ V1.socket_userId st' socket = None
  ∧ (V1.isUserOnline st' userId = true
     ↔ ∃ s, s ≠ socket ∧ V1.socket_userId st s = Some userId).
Proof.
  intros Hreach Hs.
  destruct (V1Wf.reachable_sessions _ Hreach) as [Hnd Hex].
  destruct (V1Facts.reachable_inv _ Hreach) as (_ & (Hconn & Hsock) & _).
  destruct (V1Facts.reachable_socket_user _ _ _ Hreach Hs) as (Hne & [user Huser] & _).
  assert (Hget : OMap.get (V1.socketUsers st) socket = Some userId).
  { apply V1Wf.OMap_get_elem; [done|]. by apply Hsock, V1Facts.socket_userId_Some. }
  unfold V1.disconnect. cbn [V1.socketUsers V1.with_sockets]. rewrite Hget.
  cbn [truthy]. rewrite bool_decide_true by done.
  cbn [negb V1.users V1.with_sockets V1.with_socketUsers]. rewrite Huser.
  cbn [fst]. split_and!.
  - eexists. cbn [V1.users V1.with_users]. rewrite lookup_insert_eq. done.
  - unfold V1.socket_userId. cbn [V1.sockets V1.with_users V1.with_socketUsers V1.with_sockets].
    by rewrite lookup_delete_eq.
  - rewrite V1Wf.isUserOnline_true.
    cbn [V1.socketUsers V1.with_users V1.with_socketUsers V1.with_sockets].
    split.
    + intros [s [Hin Hs']%V1Facts.elem_of_OMap_delete]. exists s. split; [done|].
      by apply V1Facts.socket_userId_Some, Hex.
    + intros (s & Hs' & Hin). exists s. apply V1Facts.elem_of_OMap_delete.
      split; [|done]. by apply Hsock, V1Facts.socket_userId_Some.
Qed.

Lemma disconnect_presence_witness :
  let st' := (V1.disconnect demo_state "c2" 50).1 in
  (∃ user, V1.users st' !! "demo_user_2" = Some user
           ∧ V1.user_status user = V1.offline ∧ V1.user_lastSeen user = 50)
  ∧ V1.socket_userId st' "c2" = None
  ∧ (V1.isUserOnline st' "demo_user_2" = true
     ↔ ∃ s, s ≠ "c2" ∧ V1.socket_userId demo_state s = Some "demo_user_2").
Proof.
  apply (disconnect_presence demo_state "c2" "demo_user_2" 50).
  - exact demo_state_reachable.
  - vm_compute. reflexivity.
Defined.

(** X12.  A session from its beginning to its end: when a new socket
    connects, authenticates as a registered user and disconnects, the
    connected sockets and the session map are what they were before, and so
    are the chats, the calls, the friend sets and the friend requests; of the
    users only the one of the session has changed, to status [offline] with
    [lastSeen] the time of the disconnect. *)
Theorem session_round_trip st socket userId user t1 t2 :
  V1.reachable st →
  V1.sockets st !! socket = None →
  V1.users st !! userId = Some user →
  let st1 := (V1.connection st socket).1 in
  let st2 := (V1.authenticate st1 socket (Some userId) t1).1 in
  let st3 := (V1.disconnect st2 socket t2).1 in
  st3 = V1.with_users st
          (<[userId := V1.mkUser (V1.user_id user) (V1.user_name user) (V1.user_email user)
                         (V1.user_password user) (V1.user_avatar user)
                         (V1.user_createdAt user) V1.offline t2]> (V1.users st)).
Proof.
  intros Hreach Hfresh Huser.
  destruct (V1Wf.reachable_sessions _ Hreach) as [Hnd Hex].
  destruct (V1Facts.reachable_inv _ Hreach) as ((Hempty & _) & _).
  assert (Hne : userId ≠ "") by (intros ->; congruence).
  assert (Hkey : socket ∉ (V1.socketUsers st).*1).
  { intros ([s u] & -> & Hin)%list_elem_of_fmap. apply Hex in Hin. simpl in *. congruence. }
  unfold V1.connection, V1.authenticate.
  cbn [fst V1.users V1.with_sockets]. rewrite Huser.
  cbn [fst V1.socketUsers V1.sockets V1.with_sockets V1.with_socketUsers V1.with_users].
  rewrite V1Wf.OMap_set_fresh by done.
  unfold V1.disconnect.
  cbn [fst V1.socketUsers V1.sockets V1.users V1.with_sockets V1.with_socketUsers
         V1.with_users].
  assert (Hget : OMap.get (V1.socketUsers st ++ [(socket, userId)]) socket = Some userId).
  { apply V1Wf.OMap_get_elem.
    - rewrite fmap_app. apply NoDup_app. split_and!; [done| |apply NoDup_singleton].
      intros x Hx ->%list_elem_of_singleton. done.
    - apply elem_of_app. right. apply list_elem_of_here. }
  rewrite Hget. cbn [truthy]. rewrite bool_decide_true by done. cbn [negb].
  rewrite lookup_insert_eq. cbn [fst].
  rewrite V1Wf.OMap_delete_snoc by done.
  rewrite insert_insert_eq.
  rewrite insert_insert_eq, delete_insert_eq.
  rewrite delete_id by done.
  destruct st; reflexivity.
Qed.

Lemma session_round_trip_witness :
  let st1 := (V1.connection demo_state "c4").1 in
  let st2 := (V1.authenticate st1 "c4" (Some "demo_user_3") 60).1 in
  let st3 := (V1.disconnect st2 "c4" 70).1 in
  st3 = V1.with_users demo_state
          (<["demo_user_3" :=
               V1.mkUser "demo_user_3" "Мария Сидорова" "maria@example.com" "$2a$10$ghi789"
                 "М" 0 V1.offline 70]> (V1.users demo_state)).
Proof.
  apply (session_round_trip demo_state "c4" "demo_user_3"
           (V1.mkUser "demo_user_3" "Мария Сидорова" "maria@example.com" "$2a$10$ghi789"
              "М" 0 V1.online 0) 60 70).
  - exact demo_state_reachable.
  - vm_compute. reflexivity.
  - vm_compute. reflexivity.
Defined.

(** X13.  When a connected socket authenticates with a token of a
    registered user, the socket gets the session of that user and every other
    socket keeps its own; the user is online, in the stored status and for
    [isUserOnline]; [getSocketByUserId] finds a socket with a session of the
    user; the socket is sent [authenticated]. *)
Theorem authenticate_opens_session st socket userId user now :
  V1.reachable st →
  is_Some (V1.sockets st !! socket) →
  V1.users st !! userId = Some user →
  let r := V1.authenticate st socket (Some userId) now in
  V1.socket_userId r.1 socket = Some userId
  ∧ (∀ s, s ≠ socket → V1.socket_userId r.1 s = V1.socket_userId st s)
  ∧ (∃ user', V1.users r.1 !! userId = Some user'
              ∧ V1.user_status user' = V1.online ∧ V1.user_lastSeen user' = now)
  ∧ V1.isUserOnline r.1 userId = true
  ∧ (∃ s, V1.getSocketByUserId r.1 userId = Some s
          ∧ V1.socket_userId r.1 s = Some userId)
  ∧ (socket, V1.authenticated) ∈ r.2.
Proof.
  intros Hreach Hconn Huser r.
  assert (Hr : r = V1.authenticate st socket (Some userId) now) by done.
  assert (Hreach' : V1.reachable r.1).
  { rewrite Hr. apply (V1.reachable_step st (V1.Authenticate socket (Some userId) now));
      [done | exact Hconn]. }
  assert (Hs : V1.socket_userId r.1 socket = Some userId).
  { rewrite Hr. unfold V1.authenticate, V1.socket_userId. rewrite Huser.
    cbn [fst V1.sockets V1.with_users V1.with_socketUsers V1.with_sockets].
    by rewrite lookup_insert_eq. }
  split_and!.
  - exact Hs.
  - intros s Hne. rewrite Hr. unfold V1.authenticate, V1.socket_userId. rewrite Huser.
    cbn [fst V1.sockets V1.with_users V1.with_socketUsers V1.with_sockets].
    by rewrite lookup_insert_ne.
  - rewrite Hr. unfold V1.authenticate. rewrite Huser.
    cbn [fst V1.users V1.with_users]. rewrite lookup_insert_eq. eauto.
  - apply V1Wf.isUserOnline_true. exists socket.
    destruct (V1Facts.reachable_inv _ Hreach') as (_ & (_ & Hsock) & _).
    by apply Hsock, V1Facts.socket_userId_Some.
  - destruct (V1Facts.reachable_socket_user _ _ _ Hreach' Hs) as (_ & _ & [s Hfind]).
    exists s. split; [done|].
    destruct (V1Wf.reachable_sessions _ Hreach') as [_ Hex].
    by apply V1Facts.socket_userId_Some, Hex, V1Wf.getSocketByUserId_Some.
  - rewrite Hr. unfold V1.authenticate. rewrite Huser. cbn [snd].
    apply elem_of_app. right. apply list_elem_of_here.
Qed.

Lemma authenticate_opens_session_witness :
  let r := V1.authenticate demo_state "c3" (Some "demo_user_3") 60 in
  V1.socket_userId r.1 "c3" = Some "demo_user_3"
  ∧ (∀ s, s ≠ "c3" → V1.socket_userId r.1 s = V1.socket_userId demo_state s)
  ∧ (∃ user', V1.users r.1 !! "demo_user_3" = Some user'
              ∧ V1.user_status user' = V1.online ∧ V1.user_lastSeen user' = 60)
  ∧ V1.isUserOnline r.1 "demo_user_3" = true
  ∧ (∃ s, V1.getSocketByUserId r.1 "demo_user_3" = Some s
          ∧ V1.socket_userId r.1 s = Some "demo_user_3")
  ∧ ("c3", V1.authenticated) ∈ r.2.
Proof.
  apply (authenticate_opens_session demo_state "c3" "demo_user_3"
           (V1.mkUser "demo_user_3" "Мария Сидорова" "maria@example.com" "$2a$10$ghi789"
              "М" 0 V1.online 0) 60).
  - exact demo_state_reachable.
  - vm_compute. eauto.
  - vm_compute. reflexivity.
Defined.

(** ** What a socket is sent after [authenticate], and the REST answers *)

(** X14.  In every reachable state the three lists that
    [sendUserDataToSocket] sends to the socket of a registered user are the
    bodies of [GET /api/friends], [GET /api/friends/requests] and
    [GET /api/chats] for that user, in this order (a [lastMessage] that was
    never written read as [null]): the [lastMessage] kept in a chat is the
    last message of its history, which is what the route reads. *)
Theorem pushed_lists_match_rest st userId socket :
  V1.reachable st →
  is_Some (V1.users st !! userId) →
  V1.sendUserDataToSocket st userId socket
  = [ (socket, V1.friends_list (V1.getFriends st userId));
      (socket, V1.friend_requests (V1.getFriendRequests st userId));
      (socket, V1.chats_list (V1.getChats st userId)) ].
Proof.
  intros (_ & Hch & _)%V1Wf.reachable_wf [user Huser].
  unfold V1.sendUserDataToSocket, V1.getFriends, V1.getFriendRequests, V1.getChats.
  rewrite Huser.
  match goal with
  | |- [_; _; (_, V1.chats_list ?a)] = [_; _; (_, V1.chats_list ?b)] =>
      assert (a = b) as ->; [|done]
  end.
  apply map_fmap_ext. intros k chat [Hk _]%map_lookup_filter_Some.
  destruct (Hch _ _ Hk) as (_ & _ & _ & _ & _ & _ & Hlast & _).
  unfold V1.chatInfo. by rewrite Hlast.
Qed.

Lemma pushed_lists_match_rest_witness :
  V1.sendUserDataToSocket demo_state "demo_user_2" "c2"
  = [ ("c2", V1.friends_list (V1.getFriends demo_state "demo_user_2"));
      ("c2", V1.friend_requests (V1.getFriendRequests demo_state "demo_user_2"));
      ("c2", V1.chats_list (V1.getChats demo_state "demo_user_2")) ].
Proof.
  apply (pushed_lists_match_rest demo_state "demo_user_2" "c2").
  - exact demo_state_reachable.
  - vm_compute. eauto.
Defined.

(** ** Creating a chat *)

(** X15.  [POST /api/chats] for registered users: in a reachable state the
    answer is 400 exactly when some chat already has the same set of
    participants as the new one (the creator and [participantIds]), and then
    nothing is written or sent; otherwise the answer is 201 and the new chat
    is stored under [chat_<now>] with the participants listed once each, the
    creator first, and an empty history. *)
Theorem createChat_duplicate st userId name participantIds now :
  V1.reachable st →
  (∀ p, p ∈ userId :: participantIds → is_Some (V1.users st !! p)) →
  let r := V1.createChat st userId name (Some participantIds) now in
  (r.2 = 400%nat
   ↔ ∃ k chat, V1.chats st !! k = Some chat
               ∧ ∀ p, p ∈ V1.chat_participants chat ↔ p ∈ userId :: participantIds)
  ∧ (r.2 = 400%nat → r.1 = (st, []))
  ∧ (r.2 ≠ 400%nat →
     r.2 = 201%nat
     ∧ ∃ chat, V1.chats r.1.1 !! ("chat_" +:+ pretty now) = Some chat
               ∧ V1.chat_participants chat = uniq (userId :: participantIds)
               ∧ head (V1.chat_participants chat) = Some userId
               ∧ V1.chat_messages chat = []).
Proof.
  intros (_ & Hch & _)%V1Wf.reachable_wf Hreg.
  assert (Hdup :
    map_Exists (λ (_ : string) chat,
        length (V1.chat_participants chat) = length (uniq (userId :: participantIds))
        ∧ Forall (λ pId, pId ∈ uniq (userId :: participantIds)) (V1.chat_participants chat))
      (V1.chats st)
    ↔ ∃ k chat, V1.chats st !! k = Some chat
                ∧ ∀ p, p ∈ V1.chat_participants chat ↔ p ∈ userId :: participantIds).
  { unfold map_Exists. split; intros (k & chat & Hk & Hsame); exists k, chat; (split; [done|]).
    - destruct (Hch _ _ Hk) as (_ & Hnd & _).
      intros p. rewrite <- (V1Wf.elem_of_uniq (userId :: participantIds)).
      by apply (proj1 (V1Wf.same_elements_length _ _ Hnd (V1Wf.NoDup_uniq _))).
    - destruct (Hch _ _ Hk) as (_ & Hnd & _).
      apply (proj2 (V1Wf.same_elements_length _ _ Hnd (V1Wf.NoDup_uniq _))).
      intros p. by rewrite V1Wf.elem_of_uniq. }
  pose proof (V1Wf.head_uniq userId participantIds) as Hhead.
  unfold V1.createChat.
  assert (Hall : forallb (λ pId, bool_decide (is_Some (V1.users st !! pId)))
                   (uniq (userId :: participantIds)) = true).
  { apply forallb_forall. intros p Hp. apply list_elem_of_In in Hp.
    apply (proj1 (V1Wf.elem_of_uniq _ _)) in Hp.
    apply bool_decide_eq_true. by apply Hreg. }
  rewrite Hall.
  cbn [negb]. case_bool_decide as Hex; cbn [fst snd].
  - split_and!; [|done|done]. split; [intros _; by apply Hdup | done].
  - split_and!.
    + split; [done|]. intros H. exfalso. by apply Hex, Hdup.
    + done.
    + intros _. split; [done|]. eexists.
      cbn [V1.chats V1.with_chats]. rewrite lookup_insert_eq.
      split; [done|]. cbn [V1.chat_participants V1.chat_messages]. done.
Qed.

Lemma createChat_duplicate_witness :
  let r := V1.createChat demo_state "demo_user_2" None
             (Some ["demo_user_1"; "demo_user_3"; "demo_user_1"]) 80 in
  (r.2 = 400%nat
   ↔ ∃ k chat, V1.chats demo_state !! k = Some chat
               ∧ ∀ p, p ∈ V1.chat_participants chat
                      ↔ p ∈ ["demo_user_2"; "demo_user_1"; "demo_user_3"; "demo_user_1"])
  ∧ (r.2 = 400%nat → r.1 = (demo_state, []))
  ∧ (r.2 ≠ 400%nat →
     r.2 = 201%nat
     ∧ ∃ chat, V1.chats r.1.1 !! ("chat_" +:+ pretty 80) = Some chat
               ∧ V1.chat_participants chat
                 = uniq ["demo_user_2"; "demo_user_1"; "demo_user_3"; "demo_user_1"]
               ∧ head (V1.chat_participants chat) = Some "demo_user_2"
               ∧ V1.chat_messages chat = []).
Proof.
  apply (createChat_duplicate demo_state "demo_user_2" None
           ["demo_user_1"; "demo_user_3"; "demo_user_1"] 80).
  - exact demo_state_reachable.
  - intros p Hp. repeat (apply elem_of_cons in Hp as [->|Hp]; [vm_compute; eauto|]).
    by apply not_elem_of_nil in Hp.
Defined.

(** ** Sending and answering friend requests *)

(** X16.  In a reachable state a friend request to the e-mail address of a
    user who is already in the sender's friend set is answered with 400;
    nothing is stored and nothing is sent. *)
Theorem friend_request_to_friend_refused st currentUserId friendId friend now :
  V1.reachable st →
  V1.users st !! friendId = Some friend →
  V1.edge st currentUserId friendId →
  V1.sendFriendRequest st currentUserId (Some (V1.user_email friend)) now
  = (st, [], 400%nat).
Proof.
  intros (Hus & _)%V1Wf.reachable_wf Hfriend (s & Hs & Hin).
  unfold V1.sendFriendRequest.
  destruct (negb (truthy _)); [done|]. case_bool_decide; [done|].
  simpl. rewrite (V1Wf.findUserByEmail_registered _ _ _ Hus Hfriend).
  destruct Hus as (Hid & _). rewrite (Hid _ _ Hfriend), Hs. simpl.
  unfold includes. by rewrite bool_decide_true.
Qed.

Lemma friend_request_to_friend_refused_witness :
  V1.sendFriendRequest demo_state "demo_user_2" (Some "anna@example.com") 90
  = (demo_state, [], 400%nat).
Proof.
  apply (friend_request_to_friend_refused demo_state "demo_user_2" "demo_user_1"
           (V1.mkUser "demo_user_1" "Анна Иванова" "anna@example.com" "$2a$10$abc123" "А"
              0 V1.online 10) 90).
  - exact demo_state_reachable.
  - vm_compute. reflexivity.
  - exists ["demo_user_1"]. split; [vm_compute; reflexivity | apply list_elem_of_here].
Defined.

(** X17.  A friend request is not stored twice: when a request was
    answered with 200, the same request from the same sender, sent again
    right after it (at whatever time), is answered with 400 and changes
    nothing. *)
Theorem friend_request_repeat_refused st currentUserId friendEmail t1 t2 :
  (V1.sendFriendRequest st currentUserId friendEmail t1).2 = 200%nat →
  let st' := (V1.sendFriendRequest st currentUserId friendEmail t1).1.1 in
  V1.sendFriendRequest st' currentUserId friendEmail t2 = (st', [], 400%nat).
Proof.
  intros H200 st'.
  destruct (V1Wf.sendFriendRequest_200 _ _ _ _ H200)
    as (key & friend & Htruthy & Hself & Hfind & Hfriends & Hst1).
  subst st'. rewrite Hst1.
  unfold V1.sendFriendRequest at 1. rewrite Htruthy. cbn [negb].
  cbn [V1.users V1.friendships V1.friendRequests V1.with_friendRequests].
  rewrite bool_decide_false by done.
  change (V1.findUserByEmail (V1.with_friendRequests st _) (default "" friendEmail))
    with (V1.findUserByEmail st (default "" friendEmail)).
  rewrite Hfind, Hfriends, lookup_insert_eq.
  rewrite bool_decide_true; [done|].
  apply Exists_app. right. apply Exists_cons_hd. done.
Qed.

Lemma friend_request_repeat_refused_witness :
  let st' := (V1.sendFriendRequest demo_state "user_5k3x9q0w2z" (Some "ivan@example.com")
                20).1.1 in
  V1.sendFriendRequest st' "user_5k3x9q0w2z" (Some "ivan@example.com") 25
  = (st', [], 400%nat).
Proof.
  apply (friend_request_repeat_refused demo_state "user_5k3x9q0w2z"
           (Some "ivan@example.com") 20 25).
  vm_compute. reflexivity.
Defined.

(** X18.  In a reachable state, accepting a pending request always
    succeeds: the answer is 200, the request stays in its place with status
    [accepted] and [respondedAt] the time of the answer, the two users are in
    each other's friend set, and when the sender is a registered user a
    private chat of the two is stored under the id made of the two user ids,
    in one order or the other. *)
Theorem accept_answers_request st userId requestId now idx request :
  V1.reachable st →
  V1.findPending (default [] (V1.friendRequests st !! userId)) requestId
  = Some (idx, request) →
  let r := V1.acceptFriendRequest st userId requestId now in
  let fromUserId := V1.req_fromUserId request in
  r.2 = 200%nat
  ∧ (∃ reqs, V1.friendRequests r.1.1 !! userId = Some reqs
             ∧ reqs !! idx = Some (V1.respond request V1.accepted now))
  ∧ V1.edge r.1.1 userId fromUserId
  ∧ V1.edge r.1.1 fromUserId userId
  ∧ (is_Some (V1.users st !! fromUserId) →
     is_Some (V1.chats r.1.1 !! V1.privateChatId userId fromUserId)
     ∨ is_Some (V1.chats r.1.1 !! V1.privateChatId fromUserId userId)).
Proof.
  intros (_ & _ & _ & Hrq & _)%V1Wf.reachable_wf Hfind r fromUserId.
  destruct (V1Wf.findPending_elem_of _ _ _ _ _ Hfind) as (reqs & Hreqs & Hidx & _).
  destruct (Hrq _ _ Hreqs) as [[user Huser] _].
  subst r. unfold V1.acceptFriendRequest. rewrite Hfind. fold fromUserId.
  set (st2 := V1.with_friendships _ _).
  assert (Hr : ∀ (evs : list V1.Emit),
            let r : V1.Reply :=
              ((V1.createChatBetweenUsers st2 userId fromUserId now).1, evs, 200%nat) in
            r.2 = 200%nat
            ∧ (∃ reqs, V1.friendRequests r.1.1 !! userId = Some reqs
                       ∧ reqs !! idx = Some (V1.respond request V1.accepted now))
            ∧ V1.edge r.1.1 userId fromUserId
            ∧ V1.edge r.1.1 fromUserId userId
            ∧ (is_Some (V1.users st !! fromUserId) →
               is_Some (V1.chats r.1.1 !! V1.privateChatId userId fromUserId)
               ∨ is_Some (V1.chats r.1.1 !! V1.privateChatId fromUserId userId))).
  { intros evs r. subst r. cbn [fst snd].
    destruct (V1Wf.createChatBetweenUsers_frame st2 userId fromUserId now)
      as (Hu & Hf & Hq & _ & _ & _ & Hchat).
    unfold V1.edge. rewrite Hf, Hq. split_and!.
    - done.
    - subst st2. cbn [V1.friendRequests V1.with_friendships V1.with_friendRequests].
      rewrite lookup_insert_eq. eexists. split; [done|].
      rewrite Hreqs. cbn [default from_option id].
      apply list_lookup_insert_Some. left. split_and!; [done..|].
      by eapply lookup_lt_Some.
    - subst st2. cbn [V1.friendships V1.with_friendships].
      apply V1Facts.addFriends_edge. auto.
    - subst st2. cbn [V1.friendships V1.with_friendships].
      apply V1Facts.addFriends_edge. auto.
    - intros Hfrom. apply Hchat; subst st2; cbn [V1.users V1.with_friendships
        V1.with_friendRequests]; [by rewrite Huser | done]. }
  destruct (V1.getSocketByUserId st2 fromUserId); [|apply Hr].
  assert (Hu2 : V1.users st2 !! userId = Some user) by (subst st2; exact Huser).
  rewrite Hu2. apply Hr.
Qed.

Lemma accept_answers_request_witness :
  let r := V1.acceptFriendRequest request_state "demo_user_2" "friend_req_20" 30 in
  let fromUserId := V1.req_fromUserId demo_request in
  r.2 = 200%nat
  ∧ (∃ reqs, V1.friendRequests r.1.1 !! "demo_user_2" = Some reqs
             ∧ reqs !! 0%nat = Some (V1.respond demo_request V1.accepted 30))
  ∧ V1.edge r.1.1 "demo_user_2" fromUserId
  ∧ V1.edge r.1.1 fromUserId "demo_user_2"
  ∧ (is_Some (V1.users request_state !! fromUserId) →
     is_Some (V1.chats r.1.1 !! V1.privateChatId "demo_user_2" fromUserId)
     ∨ is_Some (V1.chats r.1.1 !! V1.privateChatId fromUserId "demo_user_2")).
Proof.
  apply (accept_answers_request request_state "demo_user_2" "friend_req_20" 30 0
           demo_request).
  - exact request_state_reachable.
  - vm_compute. reflexivity.
Defined.

(** ** Accounts *)

(** X19.  No event deletes an account, and none changes the id, the name,
    the e-mail address, the password hash, the avatar or the creation time
    of a registered user: only [status] and [lastSeen] are ever rewritten. *)
Theorem account_kept st ev k user :
  V1.enabled st ev →
  V1.users st !! k = Some user →
  ∃ status lastSeen,
    V1.users (V1.step st ev).1 !! k
    = Some (V1.mkUser (V1.user_id user) (V1.user_name user) (V1.user_email user)
              (V1.user_password user) (V1.user_avatar user) (V1.user_createdAt user)
              status lastSeen).
Proof.
  intros Hen Hk.
  assert (Hkeep : ∀ m : gmap string V1.User, m = V1.users st →
            ∃ status lastSeen,
              m !! k = Some (V1.mkUser (V1.user_id user) (V1.user_name user)
                               (V1.user_email user) (V1.user_password user)
                               (V1.user_avatar user) (V1.user_createdAt user)
                               status lastSeen)).
  { intros m ->. exists (V1.user_status user), (V1.user_lastSeen user).
    rewrite Hk. by destruct user. }
  assert (Hupd : ∀ j u status now, V1.users st !! j = Some u →
            ∃ status' lastSeen,
              <[j := V1.mkUser (V1.user_id u) (V1.user_name u) (V1.user_email u)
                       (V1.user_password u) (V1.user_avatar u) (V1.user_createdAt u)
                       status now]> (V1.users st) !! k
              = Some (V1.mkUser (V1.user_id user) (V1.user_name user)
                        (V1.user_email user) (V1.user_password user)
                        (V1.user_avatar user) (V1.user_createdAt user)
                        status' lastSeen)).
  { intros j u status now Hj. destruct (decide (j = k)) as [->|Hne].
    - rewrite lookup_insert_eq. assert (u = user) as -> by congruence. eauto.
    - rewrite lookup_insert_ne by done. by apply Hkeep. }
  destruct ev; simpl.
  - destruct Hen as [Hfresh _].
    unfold V1.register. destruct valid; [|by apply Hkeep]. simpl.
    destruct (V1.findUserByEmail st email); [by apply Hkeep|].
    cbn [fst]. rewrite V1Wf.users_createDemoChat.
    cbn [V1.users V1.with_users V1.with_friendships V1.with_friendRequests].
    rewrite lookup_insert_ne by congruence. by apply Hkeep.
  - unfold V1.login. repeat case_match; simpl; try (by apply Hkeep).
    eapply Hupd. by eapply V1Facts.findUserByEmail_Some.
  - unfold V1.sendFriendRequest. repeat case_match; simpl; by apply Hkeep.
  - unfold V1.acceptFriendRequest, V1.createChatBetweenUsers.
    repeat case_match; simpl; by apply Hkeep.
  - unfold V1.rejectFriendRequest. repeat case_match; simpl; by apply Hkeep.
  - by apply Hkeep.
  - unfold V1.createChat. repeat case_match; simpl; by apply Hkeep.
  - unfold V1.getMessages. repeat case_match; simpl; by apply Hkeep.
  - by apply Hkeep.
  - unfold V1.authenticate. repeat case_match; simpl; try (by apply Hkeep). by eapply Hupd.
  - unfold V1.send_message. repeat case_match; simpl; by apply Hkeep.
  - unfold V1.start_call. repeat case_match; simpl; by apply Hkeep.
  - unfold V1.accept_call. repeat case_match; simpl; by apply Hkeep.
  - unfold V1.end_call. repeat case_match; simpl; by apply Hkeep.
  - unfold V1.disconnect. repeat case_match; simpl; try (by apply Hkeep). by eapply Hupd.
Qed.

Lemma account_kept_witness :
  ∃ status lastSeen,
    V1.users (V1.step demo_state (V1.Disconnect "c2" 50)).1 !! "demo_user_2"
    = Some (V1.mkUser "demo_user_2" "Иван Петров" "ivan@example.com" "$2a$10$def456" "И"
              0 status lastSeen).
Proof.
  apply (account_kept demo_state (V1.Disconnect "c2" 50) "demo_user_2"
           (V1.mkUser "demo_user_2" "Иван Петров" "ivan@example.com" "$2a$10$def456" "И"
              0 V1.online 11)).
  - vm_compute. eauto.
  - vm_compute. reflexivity.
Defined.

(** ** A call from its start to its end *)

(** X20.  In a reachable state, when the user of socket [s1], a participant
    of the chat, starts a call at time [t0], the user of socket [s2] accepts
    it and it is ended at time [t2]: after the accept the call is active with
    the caller and the accepting user as its participants, in this order
    (the handler does not ask whether the accepting user is in the chat);
    after the end the call is gone and nothing else has changed, and each of
    the two users is sent [call_ended] with the whole seconds between [t0]
    and [t2]. *)
Theorem call_lifecycle st s1 s2 u1 u2 chatId chat type t0 t2 :
  V1.reachable st →
  V1.socket_userId st s1 = Some u1 →
  V1.socket_userId st s2 = Some u2 →
  V1.chats st !! chatId = Some chat →
  u1 ∈ V1.chat_participants chat →
  let callId := "call_" +:+ pretty t0 in
  let st1 := (V1.start_call st s1 (Some chatId) type t0).1 in
  let st2 := (V1.accept_call st1 s2 (Some callId)).1 in
  let r3 := V1.end_call st2 s2 (Some callId) t2 in
  (∃ callData,
     V1.activeCalls st2 !! callId = Some callData
     ∧ V1.call_chatId callData = chatId
     ∧ V1.call_callerId callData = u1
     ∧ V1.call_participants callData = [u1; u2]
     ∧ V1.call_status callData = V1.active
     ∧ V1.call_startTime callData = t0)
  ∧ r3.1 = V1.with_activeCalls st (delete callId (V1.activeCalls st))
  ∧ ∃ s1' s2',
      V1.getSocketByUserId st u1 = Some s1'
      ∧ V1.getSocketByUserId st u2 = Some s2'
      ∧ r3.2 = [ (s1', V1.call_ended callId ((t2 - t0) `div` 1000));
                 (s2', V1.call_ended callId ((t2 - t0) `div` 1000)) ].
Proof.
  intros Hreach Hs1 Hs2 Hchat Hin callId st1 st2 r3.
  destruct (V1Facts.reachable_socket_user _ _ _ Hreach Hs1) as (Hu1 & [user Huser] & [s1' Hg1]).
  destruct (V1Facts.reachable_socket_user _ _ _ Hreach Hs2) as (Hu2 & _ & [s2' Hg2]).
  pose proof (V1Facts.reachable_chat_id _ _ _ Hreach Hchat) as Hc.
  assert (Hcall : truthy (Some callId) = true) by reflexivity.
  assert (Hst1 : st1 = V1.with_activeCalls st
                         (<[callId := V1.newCall user u1 chatId type t0]>
                            (V1.activeCalls st))).
  { subst st1. unfold V1.start_call. rewrite Hs1. cbn [truthy].
    rewrite !bool_decide_true by done. cbn [negb orb]. rewrite Hchat.
    unfold includes. rewrite bool_decide_true by done. cbn [negb]. rewrite Huser.
    reflexivity. }
  assert (Hst2 : st2 = V1.with_activeCalls st
                         (<[callId := V1.joined (V1.newCall user u1 chatId type t0) u2]>
                            (V1.activeCalls st))).
  { subst st2. rewrite Hst1. unfold V1.accept_call.
    change (V1.socket_userId (V1.with_activeCalls st _) s2) with (V1.socket_userId st s2).
    rewrite Hs2, Hcall. cbn [truthy]. rewrite bool_decide_true by done. cbn [negb orb].
    cbn [V1.activeCalls V1.with_activeCalls]. rewrite lookup_insert_eq.
    cbn [fst]. unfold V1.with_activeCalls at 1.
    cbn [V1.activeCalls V1.users V1.chats V1.friendships V1.friendRequests V1.socketUsers
           V1.sockets V1.with_activeCalls].
    by rewrite insert_insert_eq. }
  split_and!.
  - rewrite Hst2. cbn [V1.activeCalls V1.with_activeCalls]. rewrite lookup_insert_eq.
    eexists. split; [done|]. done.
  - subst r3. rewrite Hst2. unfold V1.end_call. rewrite Hcall. cbn [negb].
    cbn [V1.activeCalls V1.with_activeCalls]. rewrite lookup_insert_eq. cbn [fst].
    unfold V1.with_activeCalls.
    cbn [V1.activeCalls V1.users V1.chats V1.friendships V1.friendRequests V1.socketUsers
           V1.sockets].
    by rewrite delete_insert_eq.
  - exists s1', s2'. split_and!; [done..|].
    subst r3. rewrite Hst2. unfold V1.end_call. rewrite Hcall. cbn [negb].
    cbn [V1.activeCalls V1.with_activeCalls]. rewrite lookup_insert_eq. cbn [snd].
    change (V1.getSocketByUserId (V1.with_activeCalls st _)) with (V1.getSocketByUserId st).
    cbn [V1.joined V1.newCall V1.call_participants V1.call_startTime app omap list_omap].
    rewrite Hg1, Hg2. reflexivity.
Qed.

Lemma call_lifecycle_witness :
  let callId := "call_" +:+ pretty 40 in
  let st1 := (V1.start_call demo_state "c1" (Some "demo_chat_demo_user_1") (Some "video")
                40).1 in
  let st2 := (V1.accept_call st1 "c3" (Some callId)).1 in
  let r3 := V1.end_call st2 "c3" (Some callId) 4300 in
  (∃ callData,
     V1.activeCalls st2 !! callId = Some callData
     ∧ V1.call_chatId callData = "demo_chat_demo_user_1"
     ∧ V1.call_callerId callData = "demo_user_1"
     ∧ V1.call_participants callData = ["demo_user_1"; "user_5k3x9q0w2z"]
     ∧ V1.call_status callData = V1.active
     ∧ V1.call_startTime callData = 40)
  ∧ r3.1 = V1.with_activeCalls demo_state (delete callId (V1.activeCalls demo_state))
  ∧ ∃ s1' s2',
      V1.getSocketByUserId demo_state "demo_user_1" = Some s1'
      ∧ V1.getSocketByUserId demo_state "user_5k3x9q0w2z" = Some s2'
      ∧ r3.2 = [ (s1', V1.call_ended callId ((4300 - 40) `div` 1000));
                 (s2', V1.call_ended callId ((4300 - 40) `div` 1000)) ].
Proof.
  apply (call_lifecycle demo_state "c1" "c3" "demo_user_1" "user_5k3x9q0w2z"
           "demo_chat_demo_user_1" demo_chat (Some "video") 40 4300).
  - exact demo_state_reachable.
  - vm_compute. reflexivity.
  - vm_compute. reflexivity.
  - exact demo_state_chat.
  - apply list_elem_of_here.
Defined.

(** ** Registration and login *)



(** ** Who is sent what *)

(** X22.  In a reachable state every [new_message] that [send_message]
    emits goes to the socket of an authenticated user who is a participant of
    the chat the message is stored in; the message names as its sender the
    user of the sending socket, who is a participant too. *)
Theorem message_reaches_participants_only st socket chatId text now rnd s c m :
  V1.reachable st →
  (s, V1.new_message c m) ∈ (V1.send_message st socket chatId text now rnd).2 →
  ∃ userId chat p,
    chatId = Some c
    ∧ V1.chats st !! c = Some chat
    ∧ V1.socket_userId st socket = Some userId
    ∧ V1.msg_senderId m = userId
    ∧ V1.msg_chatId m = c
    ∧ userId ∈ V1.chat_participants chat
    ∧ p ∈ V1.chat_participants chat
    ∧ V1.socket_userId st s = Some p.
Proof.
  intros Hreach. unfold V1.send_message.
  destruct (negb _ || negb _ || negb _); [by intros ?%not_elem_of_nil|].
  destruct (V1.socket_userId st socket) as [userId|] eqn:Hs; [|by intros ?%not_elem_of_nil].
  destruct chatId as [chatId|]; [|by intros ?%not_elem_of_nil].
  destruct text as [text|]; [|by intros ?%not_elem_of_nil].
  destruct (V1.chats st !! chatId) as [chat|] eqn:Hchat; [|by intros ?%not_elem_of_nil].
  destruct (includes _ userId) eqn:Hin; [|by intros ?%not_elem_of_nil].
  destruct (V1.users st !! userId) as [user|]; [|by intros ?%not_elem_of_nil].
  cbn [negb snd].
  destruct (V1Facts.deliver_foldl st chatId (V1.newMessage user userId chatId text now rnd)
              userId (V1.chat_participants chat) ([], V1.chat_unreadCount chat))
    as (-> & _).
  cbn [fst app]. intros (p & Hp & Hsome)%list_elem_of_omap.
  destruct (V1.getSocketByUserId st p) as [s'|] eqn:Hfind; [|done].
  simpl in Hsome. injection Hsome as ? ? ?. subst s' c m.
  exists userId, chat, p. split_and!; try done.
  - by apply bool_decide_eq_true in Hin.
  - destruct (V1Wf.reachable_sessions _ Hreach) as [_ Hex].
    by apply V1Facts.socket_userId_Some, Hex, V1Wf.getSocketByUserId_Some.
Qed.

Lemma message_reaches_participants_only_witness :
  ∃ userId chat p,
    Some "demo_chat_demo_user_1" = Some "demo_chat_demo_user_1"
    ∧ V1.chats demo_state !! "demo_chat_demo_user_1" = Some chat
    ∧ V1.socket_userId demo_state "c1" = Some userId
    ∧ V1.msg_senderId
        (V1.mkMessage "msg_50_r" "hi" "demo_user_1" "Анна Иванова" "А" 50
           "demo_chat_demo_user_1") = userId
    ∧ V1.msg_chatId
        (V1.mkMessage "msg_50_r" "hi" "demo_user_1" "Анна Иванова" "А" 50
           "demo_chat_demo_user_1") = "demo_chat_demo_user_1"
    ∧ userId ∈ V1.chat_participants chat
    ∧ p ∈ V1.chat_participants chat
    ∧ V1.socket_userId demo_state "c2" = Some p.
Proof.
  apply (message_reaches_participants_only demo_state "c1" (Some "demo_chat_demo_user_1")
           (Some "hi") 50 "r" "c2" "demo_chat_demo_user_1"
           (V1.mkMessage "msg_50_r" "hi" "demo_user_1" "Анна Иванова" "А" 50
              "demo_chat_demo_user_1")).
  - exact demo_state_reachable.
  - vm_compute. apply list_elem_of_further, list_elem_of_here.
Defined.

(** X23.  In a reachable state every [friend_status_changed] that
    [notifyFriendsStatusChange] emits for a user goes to the socket of an
    authenticated friend: somebody else, who is in the friend set of the user
    and has the user in their own; it carries the name and [lastSeen] stored
    for the user. *)
Theorem status_reaches_friends_only st userId status s e :
  V1.reachable st →
  (s, e) ∈ V1.notifyFriendsStatusChange st userId status →
  ∃ user friendId,
    V1.users st !! userId = Some user
    ∧ e = V1.friend_status_changed userId (V1.user_name user) status (V1.user_lastSeen user)
    ∧ V1.socket_userId st s = Some friendId
    ∧ friendId ≠ userId
    ∧ V1.edge st userId friendId
    ∧ V1.edge st friendId userId.
Proof.
  intros Hreach. unfold V1.notifyFriendsStatusChange.
  destruct (V1.users st !! userId) as [user|]; [|by intros ?%not_elem_of_nil].
  intros (friendId & Hin & Hsome)%list_elem_of_omap.
  destruct (V1.getSocketByUserId st friendId) as [s'|] eqn:Hfind; [|done].
  simpl in Hsome. injection Hsome as ? ?. subst s' e.
  assert (Hedge : V1.edge st userId friendId).
  { destruct (V1.friendships st !! userId) as [l|] eqn:Hl; simpl in Hin;
      [by exists l | by apply not_elem_of_nil in Hin]. }
  destruct (V1Facts.reachable_inv _ Hreach) as (_ & _ & Hsym).
  destruct (V1Wf.reachable_wf _ Hreach) as (_ & _ & _ & _ & Hno).
  destruct (V1Wf.reachable_sessions _ Hreach) as [_ Hex].
  exists user, friendId. split_and!; [done|done| |  |done|by apply Hsym].
  - by apply V1Facts.socket_userId_Some, Hex, V1Wf.getSocketByUserId_Some.
  - intros ->. by apply (Hno userId).
Qed.

Lemma status_reaches_friends_only_witness :
  ∃ user friendId,
    V1.users demo_state !! "demo_user_1" = Some user
    ∧ V1.friend_status_changed "demo_user_1" "Анна Иванова" V1.offline 10
      = V1.friend_status_changed "demo_user_1" (V1.user_name user) V1.offline
          (V1.user_lastSeen user)
    ∧ V1.socket_userId demo_state "c2" = Some friendId
    ∧ friendId ≠ "demo_user_1"
    ∧ V1.edge demo_state "demo_user_1" friendId
    ∧ V1.edge demo_state friendId "demo_user_1".
Proof.
  apply (status_reaches_friends_only demo_state "demo_user_1" V1.offline "c2"
           (V1.friend_status_changed "demo_user_1" "Анна Иванова" V1.offline 10)).
  - exact demo_state_reachable.
  - vm_compute. apply list_elem_of_here.
Defined.

(** * Further properties of version 2 *)

(** ** Sessions *)

(** X24.  Version 2 keeps one socket per user id.  When a user connects on
    socket [s1] and then again, under the same id, on socket [s2], deliveries
    go to [s2]; when [s1] then disconnects, the record of the user is deleted
    although [s2] is still connected with that user id, and no socket is
    found for the user any more. *)
Theorem v2_stale_disconnect st s1 s2 id name1 avatar1 name2 avatar2 t1 t2 :
  s1 ≠ s2 →
  is_Some (V2.sockets st !! s1) → is_Some (V2.sockets st !! s2) →
  id ≠ "" →
  let st1 := (V2.user_connected st s1 (Some id) name1 avatar1 t1).1 in
  let st2 := (V2.user_connected st1 s2 (Some id) name2 avatar2 t2).1 in
  let st3 := V2.disconnect st2 s1 in
  V2.getSocketByUserId st1 id = Some s1
  ∧ V2.getSocketByUserId st2 id = Some s2
  ∧ V2.socket_userId st3 s2 = Some id
  ∧ V2.users st3 !! id = None
  ∧ V2.getSocketByUserId st3 id = None.
Proof.
  intros Hne Hc1 Hc2 Hid st1 st2 st3.
  assert (Hor : V2.or_default (Some id) ("user_" +:+ pretty t1) = id
                ∧ V2.or_default (Some id) ("user_" +:+ pretty t2) = id).
  { unfold V2.or_default, truthy. by rewrite bool_decide_true. }
  destruct Hor as [Hor1 Hor2].
  subst st3 st2 st1. unfold V2.user_connected, V2.disconnect, V2.getSocketByUserId,
    V2.socket_userId.
  cbn [fst V2.users V2.sockets V2.with_users V2.with_sockets V2.user_id V2.user_socketId].
  rewrite Hor1, Hor2.
  rewrite !lookup_insert_eq.
  rewrite (lookup_insert_ne _ s2 s1) by done. rewrite lookup_insert_eq.
  cbn [mjoin option_join option_bind truthy V2.user_socketId].
  rewrite !bool_decide_true by (done || by rewrite ?lookup_insert_eq).
  cbn [negb]. rewrite lookup_insert_eq.
  cbn [V2.users V2.sockets V2.with_users V2.with_sockets].
  rewrite lookup_delete_eq.
  rewrite lookup_delete_ne by done. rewrite lookup_insert_eq. done.
Qed.

Lemma v2_stale_disconnect_witness :
  let st1 := (V2.user_connected (v2_state 0) "sa" (Some "e") (Some "E") None 8).1 in
  let st2 := (V2.user_connected st1 "sb" (Some "e") (Some "E") None 9).1 in
  let st3 := V2.disconnect st2 "sa" in
  V2.getSocketByUserId st1 "e" = Some "sa"
  ∧ V2.getSocketByUserId st2 "e" = Some "sb"
  ∧ V2.socket_userId st3 "sb" = Some "e"
  ∧ V2.users st3 !! "e" = None
  ∧ V2.getSocketByUserId st3 "e" = None.
Proof.
  apply (v2_stale_disconnect (v2_state 0) "sa" "sb" "e" (Some "E") None (Some "E") None 8 9).
  - done.
  - vm_compute. eauto.
  - vm_compute. eauto.
  - done.
Defined.

(** X25.  A session of version 2 from its beginning to its end: when a new
    socket connects, announces a user with [user_connected] and disconnects,
    the connected sockets, the chats and the calls are what they were before,
    and the users are the users of before without the announced id: a user
    who was not known before leaves no trace, and a record that another
    socket had written under the same id is gone. *)
Theorem v2_connect_disconnect_round_trip st socket id name avatar now :
  V2.sockets st !! socket = None →
  id ≠ "" →
  let st1 := V2.connection st socket in
  let st2 := (V2.user_connected st1 socket (Some id) name avatar now).1 in
  V2.disconnect st2 socket = V2.with_users st (delete id (V2.users st)).
Proof.
  intros Hfresh Hid st1 st2. subst st2 st1.
  unfold V2.user_connected, V2.connection, V2.disconnect, V2.socket_userId.
  assert (Hor : V2.or_default (Some id) ("user_" +:+ pretty now) = id).
  { unfold V2.or_default, truthy. by rewrite bool_decide_true. }
  cbn [fst V2.users V2.sockets V2.with_users V2.with_sockets V2.user_id]. rewrite Hor.
  rewrite !lookup_insert_eq. cbn [mjoin option_join option_bind truthy].
  rewrite bool_decide_true by done. cbn [negb].
  unfold V2.with_users, V2.with_sockets.
  cbn [V2.users V2.sockets V2.chats V2.activeCalls].
  rewrite !insert_insert_eq, !delete_insert_eq.
  rewrite (delete_id (V2.sockets st)) by done.
  by rewrite lookup_insert_eq.
Qed.

Lemma v2_connect_disconnect_round_trip_witness :
  let st1 := V2.connection (v2_state 0) "se" in
  let st2 := (V2.user_connected st1 "se" (Some "e") (Some "E") None 8).1 in
  V2.disconnect st2 "se"
  = V2.with_users (v2_state 0) (delete "e" (V2.users (v2_state 0))).
Proof.
  apply (v2_connect_disconnect_round_trip (v2_state 0) "se" "e" (Some "E") None 8).
  - vm_compute. reflexivity.
  - done.
Defined.

(** ** Calls *)

(** X26.  In version 2 [reject_call] and [end_call] leave the same state
    behind: the call of the chat is deleted and nothing else changes.  After
    either of them [accept_call], [reject_call] and [end_call] for that chat
    do nothing and send nothing. *)
Theorem v2_call_closed st socket socket' chatId callData now now' :
  V2.activeCalls st !! chatId = Some callData →
  let st' := (V2.end_call st socket (Some chatId) now).1 in
  st' = V2.with_activeCalls st (delete chatId (V2.activeCalls st))
  ∧ (V2.reject_call st socket (Some chatId)).1 = st'
  ∧ V2.accept_call st' socket' (Some chatId) = (st', [])
  ∧ V2.reject_call st' socket' (Some chatId) = (st', [])
  ∧ V2.end_call st' socket' (Some chatId) now' = (st', []).
Proof.
  intros Hcall st'.
  assert (Hst' : st' = V2.with_activeCalls st (delete chatId (V2.activeCalls st))).
  { subst st'. unfold V2.end_call. cbn [mbind option_bind]. by rewrite Hcall. }
  assert (Hgone : V2.activeCalls st' !! chatId = None).
  { rewrite Hst'. cbn [V2.activeCalls V2.with_activeCalls]. apply lookup_delete_eq. }
  split_and!.
  - exact Hst'.
  - rewrite Hst'. unfold V2.reject_call. cbn [mbind option_bind]. by rewrite Hcall.
  - unfold V2.accept_call. cbn [mbind option_bind]. by rewrite Hgone.
  - unfold V2.reject_call. cbn [mbind option_bind]. by rewrite Hgone.
  - unfold V2.end_call. cbn [mbind option_bind]. by rewrite Hgone.
Qed.

Lemma v2_call_closed_witness :
  let st' := (V2.end_call v2_call_state "sb" (Some "c") 9000).1 in
  st' = V2.with_activeCalls v2_call_state (delete "c" (V2.activeCalls v2_call_state))
  ∧ (V2.reject_call v2_call_state "sb" (Some "c")).1 = st'
  ∧ V2.accept_call st' "sa" (Some "c") = (st', [])
  ∧ V2.reject_call st' "sa" (Some "c") = (st', [])
  ∧ V2.end_call st' "sa" (Some "c") 9500 = (st', []).
Proof.
  apply (v2_call_closed v2_call_state "sb" "sa" "c"
           (V2.mkCall "c" "A" "video" V2.calling ["a"; "b"] 7) 9000 9500).
  vm_compute. reflexivity.
Defined.

(** ** Messages over REST and over the socket *)

(** X27.  In version 2 a message posted with [POST /api/messages] to a
    known chat is answered with 201 and stored as the socket handler
    [send_message] stores the same message: the same history, cut the same
    way.  The two differ in what else they do: the route leaves
    [lastMessage] of the chat as it was, the handler sets it to the text;
    the route sends [new_message] to every participant for whom a socket is
    found, the sender included, the handler to the same participants except
    the sender. *)
Theorem v2_rest_message_vs_socket st socket chatId text senderId senderName now chat :
  chatId ≠ "" → text ≠ "" → senderId ≠ "" →
  V2.chats st !! chatId = Some chat →
  let message :=
    V2.mkMessage (Some ("msg_" +:+ pretty now)) (Some text) (Some senderId) senderName
      (Some now) (Some chatId) in
  let r := V2.postMessage st (Some chatId) (Some text) (Some senderId) senderName now in
  let r' := V2.send_message st socket message in
  r.2 = 201%nat
  ∧ (∃ stored stored',
       V2.chats r.1.1 !! chatId = Some stored
       ∧ V2.chats r'.1 !! chatId = Some stored'
       ∧ V2.chat_messages stored = V2.appendMessage (V2.chat_messages chat) message
       ∧ V2.chat_messages stored' = V2.chat_messages stored
       ∧ V2.chat_lastMessage stored = V2.chat_lastMessage chat
       ∧ V2.chat_lastMessage stored' = Some text)
  ∧ (∀ s, (s, V2.new_message (Some chatId) message) ∈ r.1.2
          ↔ ∃ userId, userId ∈ V2.chat_participants chat
                      ∧ V2.getSocketByUserId st userId = Some s)
  ∧ (∀ s, (s, V2.new_message (Some chatId) message) ∈ r'.2
          ↔ ∃ userId, userId ∈ V2.chat_participants chat ∧ userId ≠ senderId
                      ∧ V2.getSocketByUserId st userId = Some s).
Proof.
  intros Hc Ht Hs Hchat message r r'.
  subst r r'. unfold V2.postMessage, V2.send_message.
  cbn [truthy V2.msg_chatId V2.msg_text V2.msg_senderId message].
  rewrite !bool_decide_true by done. cbn [negb orb mbind option_bind].
  rewrite Hchat. cbn [fst snd V2.chats V2.with_chats default from_option id].
  rewrite !lookup_insert_eq. split_and!.
  - done.
  - eexists _, _. split_and!; done.
  - intros s. rewrite list_elem_of_omap. split.
    + intros (userId & Hin & Hsome). exists userId. split; [done|].
      destruct (V2.getSocketByUserId st userId); simpl in Hsome; congruence.
    + intros (userId & Hin & Hsome). exists userId. split; [done|]. by rewrite Hsome.
  - intros s. rewrite list_elem_of_omap. split.
    + intros (userId & [Hne Hin]%list_elem_of_filter & Hsome). exists userId.
      split_and!; [done|congruence|].
      destruct (V2.getSocketByUserId st userId); simpl in Hsome; congruence.
    + intros (userId & Hin & Hne & Hsome). exists userId.
      split; [|by rewrite Hsome]. apply list_elem_of_filter. split; [congruence | done].
Qed.

Lemma v2_rest_message_vs_socket_witness :
  let message :=
    V2.mkMessage (Some ("msg_" +:+ pretty 11)) (Some "hi") (Some "a") (Some "A")
      (Some 11) (Some "c") in
  let r := V2.postMessage (v2_state 2) (Some "c") (Some "hi") (Some "a") (Some "A") 11 in
  let r' := V2.send_message (v2_state 2) "sa" message in
  r.2 = 201%nat
  ∧ (∃ stored stored',
       V2.chats r.1.1 !! "c" = Some stored
       ∧ V2.chats r'.1 !! "c" = Some stored'
       ∧ V2.chat_messages stored
         = V2.appendMessage (V2.chat_messages (v2_chat 2)) message
       ∧ V2.chat_messages stored' = V2.chat_messages stored
       ∧ V2.chat_lastMessage stored = V2.chat_lastMessage (v2_chat 2)
       ∧ V2.chat_lastMessage stored' = Some "hi")
  ∧ (∀ s, (s, V2.new_message (Some "c") message) ∈ r.1.2
          ↔ ∃ userId, userId ∈ V2.chat_participants (v2_chat 2)
                      ∧ V2.getSocketByUserId (v2_state 2) userId = Some s)
  ∧ (∀ s, (s, V2.new_message (Some "c") message) ∈ r'.2
          ↔ ∃ userId, userId ∈ V2.chat_participants (v2_chat 2) ∧ userId ≠ "a"
                      ∧ V2.getSocketByUserId (v2_state 2) userId = Some s).
Proof.
  apply (v2_rest_message_vs_socket (v2_state 2) "sa" "c" "hi" "a" (Some "A") 11 (v2_chat 2)).
  - done.
  - done.
  - done.
  - vm_compute. reflexivity.
Defined.
